(** * aivmlib-web: metadata of AIVM / AIVMX voice-model files

    A shallow embedding of [src/index.ts] (class [Aivmlib]) and of the two
    schema files it imports, followed by the properties of the metadata
    subsystem: generation of a manifest from hyper-parameters, update of
    an existing manifest against replacement hyper-parameters, validation
    of the raw string map, the Safetensors header codec, and the projection
    of the manifest back onto the hyper-parameters.

    Conventions of the embedding.
    - A JavaScript object used as a dictionary is an association list in
      the order [Object.keys] enumerates it ([JsObject]).
    - [throw new Error(...)] is the [Err] case of [Result]; every message
      of the source has a constructor of its own in [AivmError], and the
      built-in exceptions the source does not catch have theirs.
    - Library calls (zod's [parse], [JSON.parse], [JSON.stringify],
      [TextDecoder], js-base64, protobufjs, [uuid.v4]) are the fields of
      the class [Platform]: the code is verified for whatever these
      compute.
    - A function that mutates its argument returns the argument's new
      state next to its result. *)

From Stdlib Require Import ZArith Lia Ascii String DecimalString.
From stdpp Require Import base list strings gmap.
Open Scope Z_scope.
Set Warnings "-register-all".

(** ** JavaScript objects used as dictionaries *)

Module Js.

(** Own enumerable string-keyed properties, in enumeration order. *)
Abbreviation JsObject V := (list (string * V)).

Definition Object_keys {V} (o : JsObject V) : list string := o.*1.
Definition Object_entries {V} (o : JsObject V) : list (string * V) := o.

(** [o[k]] for an own property, [None] when the object has none of that
    name: [undefined], unless the name is one every object inherits (see
    [read]). *)
Fixpoint get {V} (k : string) (o : JsObject V) : option V :=
  match o with
  | [] => None
  | (k', v) :: o' => if String.eqb k k' then Some v else get k o'
  end.

(** [Object.hasOwn(o, k)] *)
Definition has {V} (k : string) (o : JsObject V) : bool :=
  bool_decide (k ∈ Object_keys o).

(** The names of the properties of [Object.prototype], which every plain
    object inherits (the browsers' legacy names included). *)
Definition Object_prototype_names : list string :=
  ["constructor"; "__defineGetter__"; "__defineSetter__"; "hasOwnProperty";
   "__lookupGetter__"; "__lookupSetter__"; "isPrototypeOf"; "propertyIsEnumerable";
   "toString"; "valueOf"; "__proto__"; "toLocaleString"].

(** [k in o] for a plain object: an own property or an inherited one. *)
Definition has_property {V} (k : string) (o : JsObject V) : bool :=
  has k o || bool_decide (k ∈ Object_prototype_names).

(** What reading a property gives: the value of an own property, the
    member of [Object.prototype] of that name (a function, or the
    prototype itself for [__proto__]), or [undefined]. *)
Inductive Value (V : Type) : Type :=
| Own (v : V)
| PrototypeMember (name : string)
| Undefined.
Arguments Own {V} v.
Arguments PrototypeMember {V} name.
Arguments Undefined {V}.

(** [o[k]] for any name. *)
Definition read {V} (k : string) (o : JsObject V) : Value V :=
  match get k o with
  | Some v => Own v
  | None =>
      if bool_decide (k ∈ Object_prototype_names) then PrototypeMember k
      else Undefined
  end.

Definition is_digit (c : Ascii.ascii) : bool :=
  let n := Ascii.N_of_ascii c in (48 <=? n)%N && (n <=? 57)%N.

Fixpoint digits_value (acc : N) (s : string) : option N :=
  match s with
  | EmptyString => Some acc
  | String c s' =>
      if is_digit c
      then digits_value (10 * acc + (Ascii.N_of_ascii c - 48))%N s'
      else None
  end.

(** A property name is an array index when it is the canonical decimal
    form of an integer in [0, 2^32 - 2]; JavaScript enumerates such
    names first, in ascending order, whenever they were created. *)
Definition array_index (k : string) : option N :=
  match k with
  | EmptyString => None
  | String c rest =>
      if bool_decide (c = "0"%char) && negb (bool_decide (rest = EmptyString))
      then None
      else match digits_value 0 k with
           | Some n => if (n <=? 4294967294)%N then Some n else None
           | None => None
           end
  end.

(** Overwrite the value of an existing property, keeping its place. *)
Fixpoint replace {V} (k : string) (v : V) (o : JsObject V) : JsObject V :=
  match o with
  | [] => []
  | (k', v') :: o' =>
      if String.eqb k k' then (k', v) :: o' else (k', v') :: replace k v o'
  end.

(** Does a new property [k] enumerate before the existing [k']? *)
Definition enumerates_before (k k' : string) : bool :=
  match array_index k, array_index k' with
  | Some n, Some n' => (n <? n')%N
  | Some _, None => true
  | None, _ => false
  end.

(** Create a property that does not exist yet. *)
Fixpoint create {V} (k : string) (v : V) (o : JsObject V) : JsObject V :=
  match o with
  | [] => [(k, v)]
  | (k', v') :: o' =>
      if enumerates_before k k' then (k, v) :: (k', v') :: o'
      else (k', v') :: create k v o'
  end.

(** An own property defined or redefined, whatever its name: what an
    object literal and [JSON.parse] do, and what an assignment does under
    a name other than [__proto__]. *)
Definition define {V} (k : string) (v : V) (o : JsObject V) : JsObject V :=
  if has k o then replace k v o else create k v o.

(** [o[k] = v] on a plain object, for a value that is a number or a
    string. The name [__proto__], unless the object has an own property of
    that name, reaches the accessor of [Object.prototype], which ignores
    such a value: no property is created. Every other inherited name is a
    writable data property, under which the assignment creates an own
    one. *)
Definition set {V} (k : string) (v : V) (o : JsObject V) : JsObject V :=
  if String.eqb k "__proto__" && negb (has k o) then o else define k v o.

(** [Object.keys(o).find(key => p(o[key]))]. *)
Definition find_key {V} (p : V → bool) (o : JsObject V) : option string :=
  fst <$> List.find (λ kv, p kv.2) o.

(** Truthiness of an optional string: [undefined] and [""] are falsy. *)
Definition truthy_string (s : option string) : bool :=
  match s with
  | Some s => negb (bool_decide (s = EmptyString))
  | None => false
  end.

End Js.

Import Js.

(** ** JSON values

    The value [JSON.parse] returns. Numbers of a Safetensors header are
    integers (offsets and shapes). *)

Inductive JSON : Type :=
| JNull
| JBool (b : bool)
| JNum (n : Z)
| JStr (s : string)
| JArr (items : list JSON)
| JObj (props : list (string * JSON)).

(** ** Data model ([schemas/aivm-manifest.ts], [schemas/style-bert-vits2.ts]) *)

Abbreviation bytes := (list Byte.byte).

Module VoiceSample.
Record t : Type := mk { audio : string; transcript : string }.
End VoiceSample.

Module Style.
Record t : Type := mk {
  name : string;
  icon : option string;
  local_id : Z;
  voice_samples : list VoiceSample.t;
}.
End Style.

Module Speaker.
Record t : Type := mk {
  name : string;
  icon : string;
  supported_languages : list string;
  uuid : string;
  local_id : Z;
  styles : list Style.t;
}.
(** [{ ...speaker, supported_languages: l, styles: s }] *)
Definition with_languages_and_styles (l : list string) (s : list Style.t) (sp : t) : t :=
  mk (name sp) (icon sp) l (uuid sp) (local_id sp) s.
End Speaker.

Module Manifest.
Record t : Type := mk {
  manifest_version : string;
  name : string;
  description : string;
  creators : list string;
  license : option string;
  model_architecture : string;
  model_format : string;
  training_epochs : option Z;
  training_steps : option Z;
  uuid : string;
  version : string;
  speakers : list Speaker.t;
}.
Definition set_name (v : string) (m : t) : t :=
  mk (manifest_version m) v (description m) (creators m) (license m)
     (model_architecture m) (model_format m) (training_epochs m)
     (training_steps m) (uuid m) (version m) (speakers m).
Definition set_model_architecture (v : string) (m : t) : t :=
  mk (manifest_version m) (name m) (description m) (creators m) (license m)
     v (model_format m) (training_epochs m)
     (training_steps m) (uuid m) (version m) (speakers m).
Definition set_model_format (v : string) (m : t) : t :=
  mk (manifest_version m) (name m) (description m) (creators m) (license m)
     (model_architecture m) v (training_epochs m)
     (training_steps m) (uuid m) (version m) (speakers m).
Definition set_uuid (v : string) (m : t) : t :=
  mk (manifest_version m) (name m) (description m) (creators m) (license m)
     (model_architecture m) (model_format m) (training_epochs m)
     (training_steps m) v (version m) (speakers m).
Definition set_speakers (v : list Speaker.t) (m : t) : t :=
  mk (manifest_version m) (name m) (description m) (creators m) (license m)
     (model_architecture m) (model_format m) (training_epochs m)
     (training_steps m) (uuid m) (version m) v.
End Manifest.

(** The [data] object of the hyper-parameters; [others] holds the optional
    fields the library never reads. *)
Module HyperParametersData.
Record t : Type := mk {
  use_jp_extra : option bool;
  training_files : option string;
  validation_files : option string;
  n_speakers : Z;
  spk2id : JsObject Z;
  num_styles : Z;
  style2id : JsObject Z;
  others : JSON;
}.
End HyperParametersData.

Module HyperParameters.
Record t : Type := mk {
  model_name : string;
  version : string;
  train : JSON;
  data : HyperParametersData.t;
  model : JSON;
}.
End HyperParameters.

Module AivmMetadata.
Record t : Type := mk {
  manifest : Manifest.t;
  hyper_parameters : HyperParameters.t;
  style_vectors : option bytes;
}.
End AivmMetadata.

(** [hyper_parameters.data.use_jp_extra ? ... : ...]: [undefined] is falsy. *)
Definition use_jp_extra (hp : HyperParameters.t) : bool :=
  match HyperParametersData.use_jp_extra (HyperParameters.data hp) with
  | Some b => b
  | None => false
  end.

Definition spk2id (hp : HyperParameters.t) : JsObject Z :=
  HyperParametersData.spk2id (HyperParameters.data hp).
Definition style2id (hp : HyperParameters.t) : JsObject Z :=
  HyperParametersData.style2id (HyperParameters.data hp).

(** ** Errors and results *)

(** One constructor per [throw new Error(...)] of [index.ts], named after
    what its message says, and one per built-in exception that the source
    lets escape. [SchemaParseFailed] is whatever [JSON.parse] or zod's
    [parse] throws inside a [try] block; [HyperParametersInvalid] carries
    the error it was raised from ([{ cause: error }]). *)
Inductive AivmError : Type :=
| HyperParametersFileInvalid (model_architecture : string)
| NoSpeakersInHyperParameters
| NoStylesInHyperParameters
| DuplicateSpeakerId (id : Z) (names : list string)
| DuplicateStyleId (id : Z) (names : list string)
| StyleIdOutOfRange (name : string) (id : Z)
| SpeakerIdOutOfRange (name : string) (id : Z)
| StyleVectorsFileMissing
| ModelArchitectureNotSupported (model_architecture : string)
| UpdatedSpeakersEmpty
| UpdatedStylesEmpty (speaker_name : string) (speaker_local_id : Z)
| ManifestNotFound
| ManifestInvalid
| HyperParametersArchitectureNotSupported (model_architecture : string)
| SchemaParseFailed
| HyperParametersInvalid (cause : AivmError)
| HyperParametersNotFound
| StyleVectorsDecodeFailed
| AivmFileInvalid
| AivmxFileInvalid
| StyleVectorsNotSet
| JsRangeError
| JsSyntaxError
| JsTypeError.

Inductive Result (A : Type) : Type :=
| Ok (a : A)
| Err (e : AivmError).
Arguments Ok {A} a.
Arguments Err {A} e.

#[global] Instance Result_ret : MRet Result := λ A a, Ok a.
#[global] Instance Result_bind : MBind Result := λ A B f m,
  match m with
  | Ok a => f a
  | Err e => Err e
  end.

(** A [for ... of] loop whose body may throw. *)
Fixpoint for_of {S B} (body : S → B → Result S) (s : S) (l : list B) : Result S :=
  match l with
  | [] => Ok s
  | b :: l' => s' ← body s b; for_of body s' l'
  end.

(** [throw] unless the condition holds. *)
Definition require (c : bool) (e : AivmError) : Result unit :=
  if c then Ok tt else Err e.

(** ** The platform *)

(** What [index.ts] imports and does not define. [uuid_v4 n] is the [n]-th
    identifier [uuid.v4()] hands out. [ToString] is the conversion to a
    string that [JSON.parse] applies to an argument that is not one. An
    ONNX [ModelProto] is its [metadataProps] (key and value of each entry)
    and the rest of the message, kept as the bytes of its other fields. [decode_manifest] stands for
    [JSON.parse] followed by those parts of [AivmManifestSchema] that are
    structure, defaults, regular expressions and maximal lengths; the
    enumerations, the [min(1)] and the numeric ranges of the schema are
    [AivmManifestSchema_refinements] below. *)
Class Platform : Type := {
  DEFAULT_ICON_DATA_URL : string;
  uuid_v4 : nat → string;
  decode_manifest : string → option Manifest.t;
  StyleBertVITS2HyperParametersSchema_parse : string → option HyperParameters.t;
  stringify_manifest : Manifest.t → string;
  stringify_hyper_parameters : HyperParameters.t → string;
  JSON_parse : string → option JSON;
  JSON_stringify : JSON → string;
  TextDecoder_decode : bytes → string;
  TextEncoder_encode : string → bytes;
  Base64_toUint8Array : string → option bytes;
  Base64_fromUint8Array : bytes → string;
  ToString : JSON → string;
  ModelProto_decode : bytes → option (list (string * string) * bytes);
  ModelProto_encode : list (string * string) * bytes → bytes;
}.

(** ** Schema ([schemas/aivm-manifest.ts]) *)

Definition ModelArchitectureSchema : list string :=
  ["Style-Bert-VITS2"; "Style-Bert-VITS2 (JP-Extra)"].

Definition ModelFormatSchema : list string := ["Safetensors"; "ONNX"].

(** [[...].includes(x)] on strings. *)
Definition includes (l : list string) (x : string) : bool := bool_decide (x ∈ l).

Definition nonempty (s : string) : bool := negb (bool_decide (s = EmptyString)).

Definition nonnegative (n : option Z) : bool :=
  match n with
  | Some n => 0 <=? n
  | None => true
  end.

Definition Style_refinements (st : Style.t) : bool :=
  nonempty (Style.name st)
  && (0 <=? Style.local_id st) && (Style.local_id st <=? 31)
  && forallb (λ vs, nonempty (VoiceSample.transcript vs)) (Style.voice_samples st).

Definition Speaker_refinements (sp : Speaker.t) : bool :=
  nonempty (Speaker.name sp)
  && (0 <=? Speaker.local_id sp)
  && forallb Style_refinements (Speaker.styles sp).

Definition AivmManifestSchema_refinements (m : Manifest.t) : bool :=
  bool_decide (Manifest.manifest_version m = "1.0")
  && nonempty (Manifest.name m)
  && forallb nonempty (Manifest.creators m)
  && match Manifest.license m with Some l => nonempty l | None => true end
  && includes ModelArchitectureSchema (Manifest.model_architecture m)
  && includes ModelFormatSchema (Manifest.model_format m)
  && nonnegative (Manifest.training_epochs m)
  && nonnegative (Manifest.training_steps m)
  && forallb Speaker_refinements (Manifest.speakers m).

(** [AivmManifestSchema.parse(JSON.parse(text))], [None] when it throws. *)
Definition AivmManifestSchema_parse `{!Platform} (text : string) : option Manifest.t :=
  m ← decode_manifest text;
  if AivmManifestSchema_refinements m then Some m else None.

Definition DefaultAivmManifest `{!Platform} : Manifest.t :=
  {| Manifest.manifest_version := "1.0";
     Manifest.name := "Model Name";
     Manifest.description := "";
     Manifest.creators := [];
     Manifest.license := None;
     Manifest.model_architecture := "Style-Bert-VITS2 (JP-Extra)";
     Manifest.model_format := "Safetensors";
     Manifest.training_epochs := None;
     Manifest.training_steps := None;
     Manifest.uuid := "00000000-0000-0000-0000-000000000000";
     Manifest.version := "1.0.0";
     Manifest.speakers :=
       [ {| Speaker.name := "Speaker Name";
            Speaker.icon := DEFAULT_ICON_DATA_URL;
            Speaker.supported_languages := ["ja"];
            Speaker.uuid := "00000000-0000-0000-0000-000000000000";
            Speaker.local_id := 0;
            Speaker.styles :=
              [ {| Style.name := "ノーマル"; Style.icon := None;
                   Style.local_id := 0; Style.voice_samples := [] |} ] |} ] |}.

(** ** Loading and validating hyper-parameters

    A hyper-parameters [File] is given by its text, a style-vectors
    [File | null] by its bytes. Identifiers are [z.number().int()]: the
    test [!Number.isInteger(speaker_id)] never holds on them. *)

Definition names_with_id (id : Z) (entries : JsObject Z) : list string :=
  fst <$> filter (λ e : string * Z, e.2 = id) entries.

Definition check_duplicate_ids (error : Z → list string → AivmError)
    (entries : JsObject Z) : Result (gset Z) :=
  for_of (λ (seen : gset Z) '(name, id),
            if bool_decide (id ∈ seen)
            then Err (error id (names_with_id id entries))
            else Ok (seen ∪ {[id]}))
         ∅ (Object_entries entries).

Definition check_style_id_range (entries : JsObject Z) : Result unit :=
  for_of (λ _ '(style_name, style_id),
            if (style_id <? 0) || (style_id >? 31)
            then Err (StyleIdOutOfRange style_name style_id)
            else Ok tt)
         tt (Object_entries entries).

Definition check_speaker_id_range (entries : JsObject Z) : Result unit :=
  for_of (λ _ '(speaker_name, speaker_id),
            if speaker_id <? 0
            then Err (SpeakerIdOutOfRange speaker_name speaker_id)
            else Ok tt)
         tt (Object_entries entries).

Definition is_style_bert_vits2 (model_architecture : string) : bool :=
  includes ["Style-Bert-VITS2"; "Style-Bert-VITS2 (JP-Extra)"] model_architecture.

Definition loadAndValidateHyperParametersAndStyleVectors `{!Platform}
    (model_architecture : string) (hyper_parameters_file : string)
    (style_vectors_file : option bytes) : Result (HyperParameters.t * bytes) :=
  if is_style_bert_vits2 model_architecture then
    hyper_parameters ←
      match StyleBertVITS2HyperParametersSchema_parse hyper_parameters_file with
      | Some hp => Ok hp
      | None => Err (HyperParametersFileInvalid model_architecture)
      end;
    _ ← require (negb (List.length (Object_keys (spk2id hyper_parameters)) =? 0)%nat)
                NoSpeakersInHyperParameters;
    _ ← require (negb (List.length (Object_keys (style2id hyper_parameters)) =? 0)%nat)
                NoStylesInHyperParameters;
    _ ← check_duplicate_ids DuplicateSpeakerId (spk2id hyper_parameters);
    _ ← check_duplicate_ids DuplicateStyleId (style2id hyper_parameters);
    _ ← check_style_id_range (style2id hyper_parameters);
    _ ← check_speaker_id_range (spk2id hyper_parameters);
    match style_vectors_file with
    | None => Err StyleVectorsFileMissing
    | Some style_vectors => Ok (hyper_parameters, style_vectors)
    end
  else Err (ModelArchitectureNotSupported model_architecture).

(** ** generateAivmMetadata *)

Definition architecture_of (hp : HyperParameters.t) : string :=
  if use_jp_extra hp then "Style-Bert-VITS2 (JP-Extra)" else "Style-Bert-VITS2".

Definition languages_of (hp : HyperParameters.t) : list string :=
  if use_jp_extra hp then ["ja"] else ["ja"; "en-US"; "zh-CN"].

(** The expression the source writes wherever it creates a style:
    [(style_name === 'Neutral' && !Object.keys(style2id).includes('ノーマル'))
       ? 'ノーマル' : style_name]. *)
Definition new_style_name (style2id : JsObject Z) (style_name : string) : string :=
  if bool_decide (style_name = "Neutral")
     && negb (includes (Object_keys style2id) "ノーマル")
  then "ノーマル" else style_name.

(** [uuid.v4()] is drawn once for the model, then once per speaker, in the
    order [Array.prototype.map] visits them; [n] identifiers were drawn
    before the call. The second argument of each [map] callback is the
    position in the array. *)
Definition generateAivmMetadata `{!Platform} (n : nat)
    (model_architecture : string) (hyper_parameters_file : string)
    (style_vectors_file : option bytes) : Result AivmMetadata.t :=
  '(hyper_parameters, style_vectors) ←
    loadAndValidateHyperParametersAndStyleVectors
      model_architecture hyper_parameters_file style_vectors_file;
  if is_style_bert_vits2 model_architecture then
    let manifest := DefaultAivmManifest in
    let manifest := Manifest.set_name (HyperParameters.model_name hyper_parameters) manifest in
    let manifest := Manifest.set_model_architecture (architecture_of hyper_parameters) manifest in
    let manifest := Manifest.set_uuid (uuid_v4 n) manifest in
    let manifest :=
      Manifest.set_speakers
        (imap (λ (speaker_id : nat) (speaker_name : string),
           {| Speaker.name := speaker_name;
              Speaker.icon := DEFAULT_ICON_DATA_URL;
              Speaker.supported_languages := languages_of hyper_parameters;
              Speaker.uuid := uuid_v4 (S n + speaker_id);
              Speaker.local_id := Z.of_nat speaker_id;
              Speaker.styles :=
                imap (λ (style_id : nat) (style_name : string),
                   {| Style.name := new_style_name (style2id hyper_parameters) style_name;
                      Style.icon := None;
                      Style.local_id := Z.of_nat style_id;
                      Style.voice_samples := [] |})
                  (Object_keys (style2id hyper_parameters)) |})
           (Object_keys (spk2id hyper_parameters)))
        manifest in
    Ok {| AivmMetadata.manifest := manifest;
          AivmMetadata.hyper_parameters := hyper_parameters;
          AivmMetadata.style_vectors := Some style_vectors |}
  else Err (ModelArchitectureNotSupported model_architecture).

(** ** updateAivmMetadata *)

(** The warnings [updateAivmMetadata] pushes, by what they report; the
    message text is rendered from the arguments. [StyleAdded] carries the
    name as written in [style2id]. *)
Inductive Warning : Type :=
| StyleRemoved (speaker_name style_name : string) (style_local_id : Z)
| StyleAdded (speaker_name style_name : string) (style_local_id : Z)
| SupportedLanguagesChanged (speaker_name : string) (languages : list string)
| SpeakerRemoved (speaker_name : string) (local_id : Z)
| SpeakerAdded (speaker_name : string) (local_id : Z).

(** [new Map<number, string>()] filled with [set(id, name)] per entry. *)
Definition id_to_name_map (entries : JsObject Z) : gmap Z string :=
  foldl (λ m '(name, id), <[id := name]> m) ∅ (Object_entries entries).

Definition Map_has (m : gmap Z string) (id : Z) : bool :=
  bool_decide (is_Some (m !! id)).

Definition Set_has (s : gset Z) (id : Z) : bool := bool_decide (id ∈ s).

(** [{ name: new_style_name, icon: null, local_id: ..., voice_samples: [] }] *)
Definition created_style (style2id : JsObject Z) (style_name : string)
    (style_local_id : Z) : Style.t :=
  {| Style.name := new_style_name style2id style_name;
     Style.icon := None;
     Style.local_id := style_local_id;
     Style.voice_samples := [] |}.

(** First inner loop: the styles of an existing speaker that stay. *)
Definition retain_styles (new_style_id_to_name_map : gmap Z string)
    (existing_speaker : Speaker.t) (warnings : list Warning)
    : gset Z * list Style.t * list Warning :=
  foldl (λ '(processed_new_style_local_ids, updated_styles, warnings) existing_style,
           let style_local_id := Style.local_id existing_style in
           if Map_has new_style_id_to_name_map style_local_id
           then (processed_new_style_local_ids ∪ {[style_local_id]},
                 updated_styles ++ [existing_style], warnings)
           else (processed_new_style_local_ids, updated_styles,
                 warnings ++ [StyleRemoved (Speaker.name existing_speaker)
                                (Style.name existing_style) style_local_id]))
        (∅, [], warnings) (Speaker.styles existing_speaker).

(** Second inner loop: the styles the new hyper-parameters add. *)
Definition add_styles (new_style2id : JsObject Z) (existing_speaker : Speaker.t)
    (processed_new_style_local_ids : gset Z)
    (updated_styles : list Style.t) (warnings : list Warning)
    : list Style.t * list Warning :=
  foldl (λ '(updated_styles, warnings) '(style_name, style_local_id),
           if Set_has processed_new_style_local_ids style_local_id
           then (updated_styles, warnings)
           else (updated_styles ++ [created_style new_style2id style_name style_local_id],
                 warnings ++ [StyleAdded (Speaker.name existing_speaker)
                                style_name style_local_id]))
        (updated_styles, warnings) (Object_entries new_style2id).

(** Body of the loop over the existing speakers. The comparison of the
    two [JSON.stringify]ed language arrays is equality of the lists. *)
Definition update_speaker (hyper_parameters : HyperParameters.t)
    (new_spk_id_to_name_map new_style_id_to_name_map : gmap Z string)
    (state : gset Z * list Speaker.t * list Warning) (existing_speaker : Speaker.t)
    : gset Z * list Speaker.t * list Warning :=
  let '(processed_new_speaker_local_ids, updated_speakers, warnings) := state in
  let speaker_local_id := Speaker.local_id existing_speaker in
  if Map_has new_spk_id_to_name_map speaker_local_id then
    let '(processed_new_style_local_ids, updated_styles, warnings) :=
      retain_styles new_style_id_to_name_map existing_speaker warnings in
    let '(updated_styles, warnings) :=
      add_styles (style2id hyper_parameters) existing_speaker
        processed_new_style_local_ids updated_styles warnings in
    let supported_languages := Speaker.supported_languages existing_speaker in
    let new_supported_languages := languages_of hyper_parameters in
    let '(supported_languages, warnings) :=
      if bool_decide (supported_languages = new_supported_languages)
      then (supported_languages, warnings)
      else (new_supported_languages,
            warnings ++ [SupportedLanguagesChanged (Speaker.name existing_speaker)
                           new_supported_languages]) in
    (processed_new_speaker_local_ids ∪ {[speaker_local_id]},
     updated_speakers ++
       [Speaker.with_languages_and_styles supported_languages updated_styles
          existing_speaker],
     warnings)
  else
    (processed_new_speaker_local_ids, updated_speakers,
     warnings ++ [SpeakerRemoved (Speaker.name existing_speaker)
                    (Speaker.local_id existing_speaker)]).

(** Loop over [Object.entries(new_spk2id)]: the speakers that are new. *)
Definition add_speakers `{!Platform} (hyper_parameters : HyperParameters.t)
    (processed_new_speaker_local_ids : gset Z)
    (state : list Speaker.t * list Warning * nat)
    : list Speaker.t * list Warning * nat :=
  foldl (λ '(updated_speakers, warnings, n) '(new_speaker_name, new_local_id),
           if Set_has processed_new_speaker_local_ids new_local_id
           then (updated_speakers, warnings, n)
           else
             let new_speaker_styles :=
               (λ '(style_name, style_local_id),
                  created_style (style2id hyper_parameters) style_name style_local_id)
               <$> Object_entries (style2id hyper_parameters) in
             (updated_speakers ++
                [ {| Speaker.name := new_speaker_name;
                     Speaker.icon := DEFAULT_ICON_DATA_URL;
                     Speaker.supported_languages := languages_of hyper_parameters;
                     Speaker.uuid := uuid_v4 n;
                     Speaker.local_id := new_local_id;
                     Speaker.styles := new_speaker_styles |} ],
              warnings ++ [SpeakerAdded new_speaker_name new_local_id],
              S n))
        state (Object_entries (spk2id hyper_parameters)).

Definition check_styles_not_empty (updated_speakers : list Speaker.t) : Result unit :=
  for_of (λ _ speaker,
            if (List.length (Speaker.styles speaker) =? 0)%nat
            then Err (UpdatedStylesEmpty (Speaker.name speaker) (Speaker.local_id speaker))
            else Ok tt)
         tt updated_speakers.

(** The two checks on the result of the reconciliation. *)
Definition check_updated_speakers (updated_speakers : list Speaker.t) : Result unit :=
  _ ← require (negb (List.length updated_speakers =? 0)%nat) UpdatedSpeakersEmpty;
  check_styles_not_empty updated_speakers.

(** [structuredClone] of a value is the value. *)
Definition structuredClone {A} (a : A) : A := a.

(** The two loops over the speakers: the updated speakers and the
    warnings pushed so far. *)
Definition reconcile_speakers `{!Platform} (n : nat)
    (existing_speakers : list Speaker.t) (hyper_parameters : HyperParameters.t)
    (warnings : list Warning) : list Speaker.t * list Warning :=
  let new_spk2id := spk2id hyper_parameters in
  let new_style2id := style2id hyper_parameters in
  let new_spk_id_to_name_map := id_to_name_map new_spk2id in
  let new_style_id_to_name_map := id_to_name_map new_style2id in
  let '(processed_new_speaker_local_ids, updated_speakers, warnings) :=
    foldl (update_speaker hyper_parameters new_spk_id_to_name_map new_style_id_to_name_map)
          (∅, [], warnings) existing_speakers in
  let '(updated_speakers, warnings, _) :=
    add_speakers hyper_parameters processed_new_speaker_local_ids
      (updated_speakers, warnings, n) in
  (updated_speakers, warnings).

Definition updateAivmMetadata `{!Platform} (n : nat)
    (existing_metadata : AivmMetadata.t) (hyper_parameters_file : string)
    (style_vectors_file : option bytes)
    : Result (AivmMetadata.t * list Warning) :=
  let warnings : list Warning := [] in
  let model_architecture :=
    Manifest.model_architecture (AivmMetadata.manifest existing_metadata) in
  '(hyper_parameters, style_vectors) ←
    loadAndValidateHyperParametersAndStyleVectors
      model_architecture hyper_parameters_file style_vectors_file;
  if is_style_bert_vits2 model_architecture then
    let manifest := structuredClone (AivmMetadata.manifest existing_metadata) in
    let manifest := Manifest.set_model_architecture (architecture_of hyper_parameters) manifest in
    let '(updated_speakers, warnings) :=
      reconcile_speakers n
        (Manifest.speakers (AivmMetadata.manifest existing_metadata))
        hyper_parameters warnings in
    let manifest := Manifest.set_speakers updated_speakers manifest in
    _ ← check_updated_speakers updated_speakers;
    Ok ({| AivmMetadata.manifest := manifest;
           AivmMetadata.hyper_parameters := hyper_parameters;
           AivmMetadata.style_vectors := Some style_vectors |},
        warnings)
  else Err (ModelArchitectureNotSupported model_architecture).

(** ** Property access on parsed JSON

    For the four names the library reads ([__metadata__], [aivm_manifest],
    [aivm_hyper_parameters], [aivm_style_vectors]), none of which is a
    property of a built-in prototype. *)

(** [v[k]]: [null[k]] throws, a primitive or an array has no such property. *)
Definition property (v : JSON) (k : string) : Result (option JSON) :=
  match v with
  | JNull => Err JsTypeError
  | JObj props => Ok (Js.get k props)
  | _ => Ok None
  end.

(** Truthiness of a value that may be [undefined]. *)
Definition truthy (v : option JSON) : bool :=
  match v with
  | None | Some JNull => false
  | Some (JBool b) => b
  | Some (JNum n) => negb (n =? 0)
  | Some (JStr s) => nonempty s
  | Some (JArr _) | Some (JObj _) => true
  end.

(** The string [JSON.parse(v)] and [Base64.toUint8Array(v)] work on. *)
Definition text_of `{!Platform} (v : JSON) : string :=
  match v with
  | JStr s => s
  | _ => ToString v
  end.

(** [v[k] = x] in strict mode, under a name other than [__proto__] (the
    writer assigns under [__metadata__] and under the keys of the
    dictionary [serializeAivmMetadata] has built by assignments): the
    property is defined or redefined. A property of a primitive cannot be
    created; a named property of an array is no part of its JSON text. *)
Definition assign (v : JSON) (k : string) (x : JSON) : Result JSON :=
  match v with
  | JObj props => Ok (JObj (Js.define k x props))
  | JArr items => Ok (JArr items)
  | _ => Err JsTypeError
  end.

(** A string-to-string dictionary as a JavaScript value. *)
Definition dictionary (raw_metadata : JsObject string) : JSON :=
  JObj (prod_map id JStr <$> raw_metadata).

(** ** validateAivmMetadata *)

(** The body of the [try] block of the hyper-parameters stage. *)
Definition parse_hyper_parameters_of `{!Platform} (model_architecture : string)
    (aivm_hyper_parameters : JSON) : Result HyperParameters.t :=
  if is_style_bert_vits2 model_architecture then
    match StyleBertVITS2HyperParametersSchema_parse (text_of aivm_hyper_parameters) with
    | Some hp => Ok hp
    | None => Err SchemaParseFailed
    end
  else Err (HyperParametersArchitectureNotSupported model_architecture).

(** The hyper-parameters stage, given the parsed manifest's architecture:
    whatever the [try] block throws is caught and thrown again as
    [HyperParametersInvalid]. *)
Definition validate_hyper_parameters `{!Platform} (model_architecture : string)
    (aivm_hyper_parameters : option JSON) : Result HyperParameters.t :=
  match aivm_hyper_parameters with
  | Some v =>
      if truthy (Some v) then
        match parse_hyper_parameters_of model_architecture v with
        | Ok hp => Ok hp
        | Err error => Err (HyperParametersInvalid error)
        end
      else Err HyperParametersNotFound
  | None => Err HyperParametersNotFound
  end.

Definition validate_style_vectors `{!Platform} (aivm_style_vectors : option JSON)
    : Result (option bytes) :=
  match aivm_style_vectors with
  | Some v =>
      if truthy (Some v) then
        match Base64_toUint8Array (text_of v) with
        | Some b => Ok (Some b)
        | None => Err StyleVectorsDecodeFailed
        end
      else Ok None
  | None => Ok None
  end.

(** [raw_metadata] is [undefined] or any value [JSON.parse] produced
    ([readAivmMetadata] passes [header_json['__metadata__']] unchecked). *)
Definition validateAivmMetadata `{!Platform} (raw_metadata : option JSON)
    : Result AivmMetadata.t :=
  match raw_metadata with
  | None => Err ManifestNotFound
  | Some raw =>
      if negb (truthy (Some raw)) then Err ManifestNotFound else
      manifest_text ← property raw "aivm_manifest";
      if negb (truthy manifest_text) then Err ManifestNotFound else
      aivm_manifest ←
        match manifest_text ≫= (λ v, AivmManifestSchema_parse (text_of v)) with
        | Some m => Ok m
        | None => Err ManifestInvalid
        end;
      hp_text ← property raw "aivm_hyper_parameters";
      aivm_hyper_parameters ←
        validate_hyper_parameters (Manifest.model_architecture aivm_manifest) hp_text;
      sv_text ← property raw "aivm_style_vectors";
      aivm_style_vectors ← validate_style_vectors sv_text;
      Ok {| AivmMetadata.manifest := aivm_manifest;
            AivmMetadata.hyper_parameters := aivm_hyper_parameters;
            AivmMetadata.style_vectors := aivm_style_vectors |}
  end.

(** ** serializeAivmMetadata *)

Definition serializeAivmMetadata `{!Platform} (aivm_metadata : AivmMetadata.t)
    : JsObject string :=
  let raw_metadata : JsObject string := [] in
  let raw_metadata :=
    Js.set "aivm_manifest"
      (stringify_manifest (AivmMetadata.manifest aivm_metadata)) raw_metadata in
  let raw_metadata :=
    Js.set "aivm_hyper_parameters"
      (stringify_hyper_parameters (AivmMetadata.hyper_parameters aivm_metadata))
      raw_metadata in
  match AivmMetadata.style_vectors aivm_metadata with
  | Some style_vectors =>
      Js.set "aivm_style_vectors" (Base64_fromUint8Array style_vectors) raw_metadata
  | None => raw_metadata
  end.

(** ** applyAivmManifestToHyperParameters

    The function mutates [aivm_metadata]: it returns the aggregate as it
    is after the call, next to the result. *)

(** [Object.keys(o).find(key => o[key] === local_id)] *)
Definition find_key_of_id (o : JsObject Z) (local_id : Z) : option string :=
  List.find (λ key, bool_decide (Js.get key o = Some local_id)) (Object_keys o).

Definition rebuild_spk2id (manifest : Manifest.t) (old_spk2id : JsObject Z)
    : JsObject Z :=
  foldl (λ new_spk2id speaker,
           let local_id := Speaker.local_id speaker in
           let old_key := find_key_of_id old_spk2id local_id in
           if truthy_string old_key
           then Js.set (Speaker.name speaker) local_id new_spk2id
           else new_spk2id)
        [] (Manifest.speakers manifest).

Definition rebuild_style2id (manifest : Manifest.t) (old_style2id : JsObject Z)
    : JsObject Z :=
  foldl (λ new_style2id speaker,
           foldl (λ new_style2id style,
                    let local_id := Style.local_id style in
                    let old_key := find_key_of_id old_style2id local_id in
                    if truthy_string old_key
                    then Js.set (Style.name style) local_id new_style2id
                    else new_style2id)
                 new_style2id (Speaker.styles speaker))
        [] (Manifest.speakers manifest).

Definition applied_hyper_parameters (manifest : Manifest.t)
    (hp : HyperParameters.t) : HyperParameters.t :=
  let data := HyperParameters.data hp in
  let new_spk2id := rebuild_spk2id manifest (HyperParametersData.spk2id data) in
  let new_style2id := rebuild_style2id manifest (HyperParametersData.style2id data) in
  {| HyperParameters.model_name := Manifest.name manifest;
     HyperParameters.version := HyperParameters.version hp;
     HyperParameters.train := HyperParameters.train hp;
     HyperParameters.data :=
       {| HyperParametersData.use_jp_extra := HyperParametersData.use_jp_extra data;
          HyperParametersData.training_files := Some "train.list";
          HyperParametersData.validation_files := Some "val.list";
          HyperParametersData.n_speakers := Z.of_nat (List.length (Object_keys new_spk2id));
          HyperParametersData.spk2id := new_spk2id;
          HyperParametersData.num_styles := Z.of_nat (List.length (Object_keys new_style2id));
          HyperParametersData.style2id := new_style2id;
          HyperParametersData.others := HyperParametersData.others data |};
     HyperParameters.model := HyperParameters.model hp |}.

Definition applyAivmManifestToHyperParameters (aivm_metadata : AivmMetadata.t)
    : AivmMetadata.t * Result unit :=
  if is_style_bert_vits2 (Manifest.model_architecture (AivmMetadata.manifest aivm_metadata))
  then
    match AivmMetadata.style_vectors aivm_metadata with
    | None => (aivm_metadata, Err StyleVectorsNotSet)
    | Some _ =>
        ({| AivmMetadata.manifest := AivmMetadata.manifest aivm_metadata;
            AivmMetadata.hyper_parameters :=
              applied_hyper_parameters (AivmMetadata.manifest aivm_metadata)
                (AivmMetadata.hyper_parameters aivm_metadata);
            AivmMetadata.style_vectors := AivmMetadata.style_vectors aivm_metadata |},
         Ok tt)
    end
  else (aivm_metadata, Ok tt).

(** ** Bytes of an AIVM (Safetensors) file *)

(** Little-endian value of a byte sequence. *)
Fixpoint le_to_N (b : bytes) : N :=
  match b with
  | [] => 0%N
  | x :: b' => (Byte.to_N x + 256 * le_to_N b')%N
  end.

(** The [k] low bytes of [n], least significant first. *)
Fixpoint N_to_le (k : nat) (n : N) : bytes :=
  match k with
  | O => []
  | S k' => default Byte.x00 (Byte.of_N (n mod 256)%N) :: N_to_le k' (n / 256)%N
  end.

(** [new DataView(buffer).getBigUint64(0, true)] *)
Definition getBigUint64 (buffer : bytes) : Result N :=
  if (List.length buffer <? 8)%nat then Err JsRangeError
  else Ok (le_to_N (take 8 buffer)).

(** [Number(x)] of a non-negative [BigInt]: the nearest double, ties to
    the even significand. It is [x] itself below [2^53]. *)
Definition Number_of_BigInt (x : N) : N :=
  if (x <? 2 ^ 53)%N then x
  else
    let e := (N.log2 x - 52)%N in
    let q := N.shiftr x e in
    let r := (x mod 2 ^ e)%N in
    let half := (2 ^ (e - 1))%N in
    let q := if (r <? half)%N then q
             else if (half <? r)%N then (q + 1)%N
             else if N.even q then q else (q + 1)%N in
    N.shiftl q e.

(** The header and what follows it, as [readAivmMetadata] reads them up
    to the call of [validateAivmMetadata]. [new Uint8Array(buffer, 8, n)]
    throws a [RangeError] when [8 + n] exceeds the buffer; the source
    catches it. [TextDecoder.decode] does not throw; [JSON.parse] does,
    outside any [try]. *)
Definition read_header `{!Platform} (aivm_file : bytes) : Result JSON :=
  header_size ← getBigUint64 aivm_file;
  header_bytes ←
    (if (N.of_nat (List.length aivm_file) <? 8 + Number_of_BigInt header_size)%N
     then Err AivmFileInvalid
     else Ok (take (N.to_nat (Number_of_BigInt header_size)) (drop 8 aivm_file)));
  let header_text := TextDecoder_decode header_bytes in
  match JSON_parse header_text with
  | Some header_json => Ok header_json
  | None => Err JsSyntaxError
  end.

Definition read_raw_metadata `{!Platform} (aivm_file : bytes) : Result (option JSON) :=
  header_json ← read_header aivm_file;
  property header_json "__metadata__".

Definition readAivmMetadata `{!Platform} (aivm_file : bytes) : Result AivmMetadata.t :=
  raw_metadata ← read_raw_metadata aivm_file;
  validateAivmMetadata raw_metadata.

(** [for (const key in raw_metadata) existing_metadata[key] = raw_metadata[key]] *)
Definition upsert_all (raw_metadata : JsObject string) (existing_metadata : JSON)
    : Result JSON :=
  for_of (λ existing_metadata '(key, value), assign existing_metadata key (JStr value))
         existing_metadata (Object_entries raw_metadata).

(** [writeAivmMetadata] from the point where it reads the file: the
    header is parsed inside a [try], [raw_metadata] is merged into its
    [__metadata__], and the new file is the new header length, the new
    header and the bytes of the old file after its old header.
    [slice] clamps to the file; the typed array of the new content cannot
    be built or filled when the old header length exceeds the file. *)
Definition write_raw_metadata `{!Platform} (aivm_file_bytes : bytes)
    (raw_metadata : JsObject string) : Result bytes :=
  existing_header_size ← getBigUint64 aivm_file_bytes;
  let existing_header_size := Number_of_BigInt existing_header_size in
  let existing_header_bytes :=
    take (N.to_nat existing_header_size) (drop 8 aivm_file_bytes) in
  let existing_header_text := TextDecoder_decode existing_header_bytes in
  existing_header ←
    match JSON_parse existing_header_text with
    | Some h => Ok h
    | None => Err AivmFileInvalid
    end;
  metadata ← property existing_header "__metadata__";
  let existing_metadata :=
    match metadata with
    | Some v => if truthy (Some v) then v else JObj []
    | None => JObj []
    end in
  existing_metadata ← upsert_all raw_metadata existing_metadata;
  existing_header ← assign existing_header "__metadata__" existing_metadata;
  let new_header_text := JSON_stringify existing_header in
  let new_header_bytes := TextEncoder_encode new_header_text in
  let new_header_size := N.of_nat (List.length new_header_bytes) in
  let new_header_size_bytes := N_to_le 8 (new_header_size mod 2 ^ 64)%N in
  if (N.of_nat (List.length aivm_file_bytes) <? 8 + existing_header_size)%N
  then Err JsRangeError
  else Ok (new_header_size_bytes ++ new_header_bytes
             ++ drop (8 + N.to_nat existing_header_size) aivm_file_bytes).

(** [writeAivmMetadata] mutates [aivm_metadata] before anything can fail:
    the aggregate after the call is returned next to the result. *)
Definition writeAivmMetadata `{!Platform} (aivm_file : bytes)
    (aivm_metadata : AivmMetadata.t) : AivmMetadata.t * Result bytes :=
  let aivm_metadata :=
    {| AivmMetadata.manifest :=
         Manifest.set_model_format "Safetensors" (AivmMetadata.manifest aivm_metadata);
       AivmMetadata.hyper_parameters := AivmMetadata.hyper_parameters aivm_metadata;
       AivmMetadata.style_vectors := AivmMetadata.style_vectors aivm_metadata |} in
  let '(aivm_metadata, applied) := applyAivmManifestToHyperParameters aivm_metadata in
  (aivm_metadata,
   _ ← applied;
   let raw_metadata := serializeAivmMetadata aivm_metadata in
   _ ← validateAivmMetadata (Some (dictionary raw_metadata));
   write_raw_metadata aivm_file raw_metadata).

(** ** AIVMX (ONNX) files *)

Definition readAivmxMetadata `{!Platform} (aivmx_file : bytes) : Result AivmMetadata.t :=
  model ←
    match ModelProto_decode aivmx_file with
    | Some model => Ok model
    | None => Err AivmxFileInvalid
    end;
  let raw_metadata :=
    foldl (λ (raw_metadata : JsObject string) '(key, value),
             if nonempty key && nonempty value
             then Js.set key value raw_metadata else raw_metadata)
          [] model.1 in
  validateAivmMetadata (Some (dictionary raw_metadata)).

(** [metadataProps.find(prop => prop.key === key)] followed by the
    assignment to the entry found, or by the [push] of a new entry. *)
Fixpoint set_metadata_prop (key value : string) (props : list (string * string))
    : list (string * string) :=
  match props with
  | [] => [(key, value)]
  | (k, v) :: props' =>
      if String.eqb k key then (k, value) :: props'
      else (k, v) :: set_metadata_prop key value props'
  end.

Definition writeAivmxMetadata `{!Platform} (aivmx_file : bytes)
    (aivm_metadata : AivmMetadata.t) : AivmMetadata.t * Result bytes :=
  let aivm_metadata :=
    {| AivmMetadata.manifest :=
         Manifest.set_model_format "ONNX" (AivmMetadata.manifest aivm_metadata);
       AivmMetadata.hyper_parameters := AivmMetadata.hyper_parameters aivm_metadata;
       AivmMetadata.style_vectors := AivmMetadata.style_vectors aivm_metadata |} in
  let '(aivm_metadata, applied) := applyAivmManifestToHyperParameters aivm_metadata in
  (aivm_metadata,
   _ ← applied;
   model ←
     match ModelProto_decode aivmx_file with
     | Some model => Ok model
     | None => Err AivmxFileInvalid
     end;
   let raw_metadata := serializeAivmMetadata aivm_metadata in
   _ ← validateAivmMetadata (Some (dictionary raw_metadata));
   let metadataProps :=
     foldl (λ props '(key, value), set_metadata_prop key value props)
           model.1 (Object_entries raw_metadata) in
   Ok (ModelProto_encode (metadataProps, model.2))).

(** ** The earlier revision of [index.ts]

    [src/index.ts] as it stood before the validation was factored out:
    no check for duplicate identifiers, styles of a retained speaker
    matched by name, no check of the result of the update, and the
    counters [n_speakers] and [num_styles] left as they are. Reading,
    validation and writing are the same as above, and so is the body of
    [generateAivmMetadata]. *)

Module Earlier.

Inductive Warning : Type :=
| StyleRemoved (speaker_name style_name : string)
| StyleAdded (speaker_name new_style_name : string)
| SupportedLanguagesChanged (speaker_name : string) (languages : list string)
| SpeakerRemoved (speaker_name : string) (local_id : Z)
| SpeakerAdded (speaker_name : string) (local_id : Z).

Definition parse_hyper_parameters_file `{!Platform} (model_architecture : string)
    (hyper_parameters_file : string) : Result HyperParameters.t :=
  match StyleBertVITS2HyperParametersSchema_parse hyper_parameters_file with
  | Some hp => Ok hp
  | None => Err (HyperParametersFileInvalid model_architecture)
  end.

Definition check_speakers_and_styles (hyper_parameters : HyperParameters.t)
    : Result unit :=
  _ ← require (negb (List.length (Object_keys (spk2id hyper_parameters)) =? 0)%nat)
              NoSpeakersInHyperParameters;
  _ ← require (negb (List.length (Object_keys (style2id hyper_parameters)) =? 0)%nat)
              NoStylesInHyperParameters;
  _ ← check_style_id_range (style2id hyper_parameters);
  check_speaker_id_range (spk2id hyper_parameters).

Definition generateAivmMetadata `{!Platform} (n : nat)
    (model_architecture : string) (hyper_parameters_file : string)
    (style_vectors_file : option bytes) : Result AivmMetadata.t :=
  if is_style_bert_vits2 model_architecture then
    hyper_parameters ← parse_hyper_parameters_file model_architecture hyper_parameters_file;
    _ ← check_speakers_and_styles hyper_parameters;
    style_vectors ←
      match style_vectors_file with
      | None => Err StyleVectorsFileMissing
      | Some style_vectors => Ok style_vectors
      end;
    let manifest := DefaultAivmManifest in
    let manifest := Manifest.set_name (HyperParameters.model_name hyper_parameters) manifest in
    let manifest := Manifest.set_model_architecture (architecture_of hyper_parameters) manifest in
    let manifest := Manifest.set_uuid (uuid_v4 n) manifest in
    let manifest :=
      Manifest.set_speakers
        (imap (λ (speaker_id : nat) (speaker_name : string),
           {| Speaker.name := speaker_name;
              Speaker.icon := DEFAULT_ICON_DATA_URL;
              Speaker.supported_languages := languages_of hyper_parameters;
              Speaker.uuid := uuid_v4 (S n + speaker_id);
              Speaker.local_id := Z.of_nat speaker_id;
              Speaker.styles :=
                imap (λ (style_id : nat) (style_name : string),
                   {| Style.name := new_style_name (style2id hyper_parameters) style_name;
                      Style.icon := None;
                      Style.local_id := Z.of_nat style_id;
                      Style.voice_samples := [] |})
                  (Object_keys (style2id hyper_parameters)) |})
           (Object_keys (spk2id hyper_parameters)))
        manifest in
    Ok {| AivmMetadata.manifest := manifest;
          AivmMetadata.hyper_parameters := hyper_parameters;
          AivmMetadata.style_vectors := Some style_vectors |}
  else Err (ModelArchitectureNotSupported model_architecture).

(** *** What the update returns

    TypeScript declares the [local_id] of a style a number. The earlier
    revision reads it with [new_style2id[name]] after a test with [in],
    and [in] holds for the names every object inherits from
    [Object.prototype] too: the value read is then a member of the
    prototype, not a number. The records below are the records of the data
    model with that one field widened to what the code can put there. *)

Module UpdatedStyle.
Record t : Type := mk {
  name : string;
  icon : option string;
  local_id : Js.Value Z;
  voice_samples : list VoiceSample.t;
}.
End UpdatedStyle.

Module UpdatedSpeaker.
Record t : Type := mk {
  name : string;
  icon : string;
  supported_languages : list string;
  uuid : string;
  local_id : Z;
  styles : list UpdatedStyle.t;
}.
End UpdatedSpeaker.

Module UpdatedManifest.
Record t : Type := mk {
  manifest_version : string;
  name : string;
  description : string;
  creators : list string;
  license : option string;
  model_architecture : string;
  model_format : string;
  training_epochs : option Z;
  training_steps : option Z;
  uuid : string;
  version : string;
  speakers : list UpdatedSpeaker.t;
}.
End UpdatedManifest.

Module UpdatedMetadata.
Record t : Type := mk {
  manifest : UpdatedManifest.t;
  hyper_parameters : HyperParameters.t;
  style_vectors : option bytes;
}.
End UpdatedMetadata.

(** The name under which an existing style is looked up in the new
    [style2id], [None] for [null]. *)
Definition style_name_raw_in_new (new_style2id : JsObject Z)
    (existing_style_name : string) : option string :=
  if Js.has_property existing_style_name new_style2id then Some existing_style_name
  else if bool_decide (existing_style_name = "ノーマル")
          && Js.has_property "Neutral" new_style2id
  then (if negb (Js.has_property "ノーマル" new_style2id) then Some "Neutral" else None)
  else if bool_decide (existing_style_name = "Neutral")
          && Js.has_property "ノーマル" new_style2id
  then (if negb (Js.has_property "Neutral" new_style2id) then Some "ノーマル" else None)
  else None.

(** [{ ...existing_style, name: existing_style_name, local_id: id }] *)
Definition with_local_id (id : Js.Value Z) (st : Style.t) : UpdatedStyle.t :=
  {| UpdatedStyle.name := Style.name st; UpdatedStyle.icon := Style.icon st;
     UpdatedStyle.local_id := id;
     UpdatedStyle.voice_samples := Style.voice_samples st |}.

(** [{ name: new_style_name, icon: null, local_id: id, voice_samples: [] }],
    for an entry of [Object.entries(new_style2id)]. *)
Definition created_style (new_style2id : JsObject Z) (style_name : string)
    (style_local_id : Z) : UpdatedStyle.t :=
  {| UpdatedStyle.name := new_style_name new_style2id style_name;
     UpdatedStyle.icon := None;
     UpdatedStyle.local_id := Js.Own style_local_id;
     UpdatedStyle.voice_samples := [] |}.

Definition retain_styles (new_style2id : JsObject Z)
    (existing_speaker : Speaker.t) (warnings : list Warning)
    : gset string * list UpdatedStyle.t * list Warning :=
  foldl (λ '(processed_new_style_raw_names, updated_styles, warnings) existing_style,
           let existing_style_name := Style.name existing_style in
           let dropped :=
             (processed_new_style_raw_names, updated_styles,
              warnings ++ [StyleRemoved (Speaker.name existing_speaker) existing_style_name]) in
           match style_name_raw_in_new new_style2id existing_style_name with
           | Some raw =>
               if Js.has_property raw new_style2id then
                 let new_style_local_id := Js.read raw new_style2id in
                 (processed_new_style_raw_names ∪ {[raw]},
                  updated_styles ++ [with_local_id new_style_local_id existing_style],
                  warnings)
               else dropped
           | None => dropped
           end)
        (∅, [], warnings) (Speaker.styles existing_speaker).

Definition add_styles (new_style2id : JsObject Z) (existing_speaker : Speaker.t)
    (processed_new_style_raw_names : gset string)
    (updated_styles : list UpdatedStyle.t) (warnings : list Warning)
    : list UpdatedStyle.t * list Warning :=
  foldl (λ '(updated_styles, warnings) '(style_name, new_style_local_id),
           if bool_decide (style_name ∈ processed_new_style_raw_names)
           then (updated_styles, warnings)
           else (updated_styles ++ [created_style new_style2id style_name new_style_local_id],
                 warnings ++ [StyleAdded (Speaker.name existing_speaker)
                                (new_style_name new_style2id style_name)]))
        (updated_styles, warnings) (Object_entries new_style2id).

(** [{ ...existing_speaker, name: ..., local_id: ..., styles: ...,
       supported_languages: ... }] *)
Definition updated_speaker (supported_languages : list string)
    (styles : list UpdatedStyle.t) (existing_speaker : Speaker.t) : UpdatedSpeaker.t :=
  {| UpdatedSpeaker.name := Speaker.name existing_speaker;
     UpdatedSpeaker.icon := Speaker.icon existing_speaker;
     UpdatedSpeaker.supported_languages := supported_languages;
     UpdatedSpeaker.uuid := Speaker.uuid existing_speaker;
     UpdatedSpeaker.local_id := Speaker.local_id existing_speaker;
     UpdatedSpeaker.styles := styles |}.

Definition update_speaker (hyper_parameters : HyperParameters.t)
    (new_spk_id_to_name_map : gmap Z string)
    (state : gset Z * list UpdatedSpeaker.t * list Warning) (existing_speaker : Speaker.t)
    : gset Z * list UpdatedSpeaker.t * list Warning :=
  let '(processed_new_speaker_ids, updated_speakers, warnings) := state in
  let speaker_local_id := Speaker.local_id existing_speaker in
  if Map_has new_spk_id_to_name_map speaker_local_id then
    let '(processed_new_style_raw_names, updated_styles, warnings) :=
      retain_styles (style2id hyper_parameters) existing_speaker warnings in
    let '(updated_styles, warnings) :=
      add_styles (style2id hyper_parameters) existing_speaker
        processed_new_style_raw_names updated_styles warnings in
    let supported_languages := Speaker.supported_languages existing_speaker in
    let new_supported_languages := languages_of hyper_parameters in
    let '(supported_languages, warnings) :=
      if bool_decide (supported_languages = new_supported_languages)
      then (supported_languages, warnings)
      else (new_supported_languages,
            warnings ++ [SupportedLanguagesChanged (Speaker.name existing_speaker)
                           new_supported_languages]) in
    (processed_new_speaker_ids ∪ {[speaker_local_id]},
     updated_speakers ++
       [updated_speaker supported_languages updated_styles existing_speaker],
     warnings)
  else
    (processed_new_speaker_ids, updated_speakers,
     warnings ++ [SpeakerRemoved (Speaker.name existing_speaker)
                    (Speaker.local_id existing_speaker)]).

Definition add_speakers `{!Platform} (hyper_parameters : HyperParameters.t)
    (processed_new_speaker_ids : gset Z)
    (state : list UpdatedSpeaker.t * list Warning * nat)
    : list UpdatedSpeaker.t * list Warning * nat :=
  foldl (λ '(updated_speakers, warnings, n) '(new_speaker_name, new_local_id),
           if Set_has processed_new_speaker_ids new_local_id
           then (updated_speakers, warnings, n)
           else
             let new_speaker_styles :=
               (λ '(style_name, style_local_id),
                  created_style (style2id hyper_parameters) style_name style_local_id)
               <$> Object_entries (style2id hyper_parameters) in
             (updated_speakers ++
                [ {| UpdatedSpeaker.name := new_speaker_name;
                     UpdatedSpeaker.icon := DEFAULT_ICON_DATA_URL;
                     UpdatedSpeaker.supported_languages := languages_of hyper_parameters;
                     UpdatedSpeaker.uuid := uuid_v4 n;
                     UpdatedSpeaker.local_id := new_local_id;
                     UpdatedSpeaker.styles := new_speaker_styles |} ],
              warnings ++ [SpeakerAdded new_speaker_name new_local_id],
              S n))
        state (Object_entries (spk2id hyper_parameters)).

Definition reconcile_speakers `{!Platform} (n : nat)
    (existing_speakers : list Speaker.t) (hyper_parameters : HyperParameters.t)
    (warnings : list Warning) : list UpdatedSpeaker.t * list Warning :=
  let new_spk_id_to_name_map := id_to_name_map (spk2id hyper_parameters) in
  let '(processed_new_speaker_ids, updated_speakers, warnings) :=
    foldl (update_speaker hyper_parameters new_spk_id_to_name_map)
          (∅, [], warnings) existing_speakers in
  let '(updated_speakers, warnings, _) :=
    add_speakers hyper_parameters processed_new_speaker_ids
      (updated_speakers, warnings, n) in
  (updated_speakers, warnings).

(** [manifest.speakers = updated_speakers] *)
Definition with_speakers (updated_speakers : list UpdatedSpeaker.t)
    (manifest : Manifest.t) : UpdatedManifest.t :=
  {| UpdatedManifest.manifest_version := Manifest.manifest_version manifest;
     UpdatedManifest.name := Manifest.name manifest;
     UpdatedManifest.description := Manifest.description manifest;
     UpdatedManifest.creators := Manifest.creators manifest;
     UpdatedManifest.license := Manifest.license manifest;
     UpdatedManifest.model_architecture := Manifest.model_architecture manifest;
     UpdatedManifest.model_format := Manifest.model_format manifest;
     UpdatedManifest.training_epochs := Manifest.training_epochs manifest;
     UpdatedManifest.training_steps := Manifest.training_steps manifest;
     UpdatedManifest.uuid := Manifest.uuid manifest;
     UpdatedManifest.version := Manifest.version manifest;
     UpdatedManifest.speakers := updated_speakers |}.

Definition updateAivmMetadata `{!Platform} (n : nat)
    (existing_metadata : AivmMetadata.t) (hyper_parameters_file : string)
    (style_vectors_file : option bytes)
    : Result (UpdatedMetadata.t * list Warning) :=
  let warnings : list Warning := [] in
  let model_architecture :=
    Manifest.model_architecture (AivmMetadata.manifest existing_metadata) in
  if is_style_bert_vits2 model_architecture then
    hyper_parameters ← parse_hyper_parameters_file model_architecture hyper_parameters_file;
    style_vectors ←
      match style_vectors_file with
      | None => Err StyleVectorsFileMissing
      | Some style_vectors => Ok style_vectors
      end;
    _ ← check_speakers_and_styles hyper_parameters;
    let manifest := structuredClone (AivmMetadata.manifest existing_metadata) in
    let manifest := Manifest.set_model_architecture (architecture_of hyper_parameters) manifest in
    let '(updated_speakers, warnings) :=
      reconcile_speakers n
        (Manifest.speakers (AivmMetadata.manifest existing_metadata))
        hyper_parameters warnings in
    let manifest := with_speakers updated_speakers manifest in
    Ok ({| UpdatedMetadata.manifest := manifest;
           UpdatedMetadata.hyper_parameters := hyper_parameters;
           UpdatedMetadata.style_vectors := Some style_vectors |},
        warnings)
  else Err (ModelArchitectureNotSupported model_architecture).

Definition applied_hyper_parameters (manifest : Manifest.t)
    (hp : HyperParameters.t) : HyperParameters.t :=
  let data := HyperParameters.data hp in
  {| HyperParameters.model_name := Manifest.name manifest;
     HyperParameters.version := HyperParameters.version hp;
     HyperParameters.train := HyperParameters.train hp;
     HyperParameters.data :=
       {| HyperParametersData.use_jp_extra := HyperParametersData.use_jp_extra data;
          HyperParametersData.training_files := Some "train.list";
          HyperParametersData.validation_files := Some "val.list";
          HyperParametersData.n_speakers := HyperParametersData.n_speakers data;
          HyperParametersData.spk2id :=
            rebuild_spk2id manifest (HyperParametersData.spk2id data);
          HyperParametersData.num_styles := HyperParametersData.num_styles data;
          HyperParametersData.style2id :=
            rebuild_style2id manifest (HyperParametersData.style2id data);
          HyperParametersData.others := HyperParametersData.others data |};
     HyperParameters.model := HyperParameters.model hp |}.

Definition applyAivmManifestToHyperParameters (aivm_metadata : AivmMetadata.t)
    : AivmMetadata.t * Result unit :=
  if is_style_bert_vits2 (Manifest.model_architecture (AivmMetadata.manifest aivm_metadata))
  then
    match AivmMetadata.style_vectors aivm_metadata with
    | None => (aivm_metadata, Err StyleVectorsNotSet)
    | Some _ =>
        ({| AivmMetadata.manifest := AivmMetadata.manifest aivm_metadata;
            AivmMetadata.hyper_parameters :=
              applied_hyper_parameters (AivmMetadata.manifest aivm_metadata)
                (AivmMetadata.hyper_parameters aivm_metadata);
            AivmMetadata.style_vectors := AivmMetadata.style_vectors aivm_metadata |},
         Ok tt)
    end
  else (aivm_metadata, Ok tt).

End Earlier.

(** ** A sample platform

    An executable instance of [Platform], used to run the library on
    concrete files: a reader and a writer of JSON text (integers, strings
    with the two escapes the writer emits), the records of the two schemas
    read from and written to JSON values, Base64, and UTF-8 text kept as
    its bytes. *)

Module Sample.


Definition quote : ascii := ascii_of_nat 34.
Definition backslash : ascii := ascii_of_nat 92.

Definition decimal (n : Z) : string := NilZero.string_of_int (Z.to_int n).

Fixpoint escape (s : string) : string :=
  match s with
  | EmptyString => EmptyString
  | String c s' =>
      if bool_decide (c = quote) || bool_decide (c = backslash)
      then String backslash (String c (escape s'))
      else String c (escape s')
  end.

Definition quoted (s : string) : string :=
  String quote (escape s +:+ String quote EmptyString).

Definition join (sep : string) (l : list string) : string :=
  match l with
  | [] => EmptyString
  | x :: l' => foldl (λ acc y, acc +:+ sep +:+ y) x l'
  end.

Fixpoint stringify (v : JSON) : string :=
  match v with
  | JNull => "null"
  | JBool true => "true"
  | JBool false => "false"
  | JNum n => decimal n
  | JStr s => quoted s
  | JArr items => "[" +:+ join "," (map stringify items) +:+ "]"
  | JObj props =>
      "{" +:+ join "," (map (λ kv, quoted kv.1 +:+ ":" +:+ stringify kv.2) props) +:+ "}"
  end.

Definition is_space (c : ascii) : bool :=
  bool_decide (c = " "%char) || bool_decide (c = ascii_of_nat 10)
  || bool_decide (c = ascii_of_nat 13) || bool_decide (c = ascii_of_nat 9).

Fixpoint skip_spaces (s : string) : string :=
  match s with
  | String c s' => if is_space c then skip_spaces s' else s
  | EmptyString => s
  end.

(** The characters of a string literal after its opening quote. *)
Fixpoint read_string (s : string) : option (string * string) :=
  match s with
  | EmptyString => None
  | String c s' =>
      if bool_decide (c = quote) then Some (EmptyString, s')
      else if bool_decide (c = backslash) then
        match s' with
        | String d s'' =>
            if bool_decide (d = quote) || bool_decide (d = backslash)
            then '(str, rest) ← read_string s''; Some (String d str, rest)
            else None
        | EmptyString => None
        end
      else '(str, rest) ← read_string s'; Some (String c str, rest)
  end.

Fixpoint read_digits (s : string) : string * string :=
  match s with
  | String c s' =>
      if is_digit c then let '(d, rest) := read_digits s' in (String c d, rest)
      else (EmptyString, s)
  | EmptyString => (EmptyString, s)
  end.

Definition read_number (s : string) : option (Z * string) :=
  let '(negative, s) :=
    match s with
    | String "-" s' => (true, s')
    | _ => (false, s)
    end in
  let '(d, rest) := read_digits s in
  match d with
  | EmptyString => None
  | String c d' =>
      if bool_decide (c = "0"%char) && negb (bool_decide (d' = EmptyString)) then None
      else n ← digits_value 0 d;
           Some (if negative then - Z.of_N n else Z.of_N n, rest)
  end.

Definition prefix_rest (p s : string) : option string :=
  if String.prefix p s then Some (String.substring (String.length p) (String.length s - String.length p) s) else None.

Fixpoint read_value (fuel : nat) (s : string) : option (JSON * string) :=
  match fuel with
  | O => None
  | S fuel =>
      let s := skip_spaces s in
      match s with
      | EmptyString => None
      | String c s' =>
          if bool_decide (c = quote) then
            '(str, rest) ← read_string s'; Some (JStr str, rest)
          else if bool_decide (c = "["%char) then
            match skip_spaces s' with
            | String "]" rest => Some (JArr [], rest)
            | _ => '(items, rest) ← read_items fuel s'; Some (JArr items, rest)
            end
          else if bool_decide (c = "{"%char) then
            match skip_spaces s' with
            | String "}" rest => Some (JObj [], rest)
            | _ => '(props, rest) ← read_props fuel s' []; Some (JObj props, rest)
            end
          else match prefix_rest "null" s, prefix_rest "true" s, prefix_rest "false" s with
               | Some rest, _, _ => Some (JNull, rest)
               | _, Some rest, _ => Some (JBool true, rest)
               | _, _, Some rest => Some (JBool false, rest)
               | _, _, _ => '(n, rest) ← read_number s; Some (JNum n, rest)
               end
      end
  end
with read_items (fuel : nat) (s : string) : option (list JSON * string) :=
  match fuel with
  | O => None
  | S fuel =>
      '(v, rest) ← read_value fuel s;
      match skip_spaces rest with
      | String "," rest => '(items, rest) ← read_items fuel rest; Some (v :: items, rest)
      | String "]" rest => Some ([v], rest)
      | _ => None
      end
  end
with read_props (fuel : nat) (s : string) (acc : list (string * JSON))
    : option (list (string * JSON) * string) :=
  match fuel with
  | O => None
  | S fuel =>
      match skip_spaces s with
      | String c s' =>
          if bool_decide (c = quote) then
            '(key, rest) ← read_string s';
            match skip_spaces rest with
            | String ":" rest =>
                '(v, rest) ← read_value fuel rest;
                let acc := Js.define key v acc in
                match skip_spaces rest with
                | String "," rest => read_props fuel rest acc
                | String "}" rest => Some (acc, rest)
                | _ => None
                end
            | _ => None
            end
          else None
      | EmptyString => None
      end
  end.

Definition parse (s : string) : option JSON :=
  '(v, rest) ← read_value (S (String.length s)) s;
  match skip_spaces rest with
  | EmptyString => Some v
  | _ => None
  end.


(** *** Records from and to JSON values *)

Definition field (k : string) (v : JSON) : option JSON :=
  match v with
  | JObj props => Js.get k props
  | _ => None
  end.

Definition as_string (v : JSON) : option string :=
  match v with JStr s => Some s | _ => None end.
Definition as_int (v : JSON) : option Z :=
  match v with JNum n => Some n | _ => None end.
Definition as_bool (v : JSON) : option bool :=
  match v with JBool b => Some b | _ => None end.
Definition as_array {A} (f : JSON → option A) (v : JSON) : option (list A) :=
  match v with JArr items => mapM f items | _ => None end.
Definition as_record {A} (f : JSON → option A) (v : JSON) : option (JsObject A) :=
  match v with
  | JObj props => mapM (λ kv, x ← f kv.2; Some (kv.1, x)) props
  | _ => None
  end.

(** A field that may be absent ([optional], [default]) or [null]. *)
Definition optional {A} (f : JSON → option A) (v : option JSON) : option (option A) :=
  match v with
  | None | Some JNull => Some None
  | Some v => x ← f v; Some (Some x)
  end.

Definition voice_sample_of (v : JSON) : option VoiceSample.t :=
  audio ← field "audio" v ≫= as_string;
  transcript ← field "transcript" v ≫= as_string;
  Some (VoiceSample.mk audio transcript).

Definition style_of (v : JSON) : option Style.t :=
  name ← field "name" v ≫= as_string;
  icon ← optional as_string (field "icon" v);
  local_id ← field "local_id" v ≫= as_int;
  voice_samples ← optional (as_array voice_sample_of) (field "voice_samples" v);
  Some (Style.mk name icon local_id (default [] voice_samples)).

Definition speaker_of (v : JSON) : option Speaker.t :=
  name ← field "name" v ≫= as_string;
  icon ← field "icon" v ≫= as_string;
  supported_languages ← field "supported_languages" v ≫= as_array as_string;
  uuid ← field "uuid" v ≫= as_string;
  local_id ← field "local_id" v ≫= as_int;
  styles ← field "styles" v ≫= as_array style_of;
  Some (Speaker.mk name icon supported_languages uuid local_id styles).

Definition manifest_of (v : JSON) : option Manifest.t :=
  manifest_version ← field "manifest_version" v ≫= as_string;
  name ← field "name" v ≫= as_string;
  description ← optional as_string (field "description" v);
  creators ← optional (as_array as_string) (field "creators" v);
  license ← optional as_string (field "license" v);
  model_architecture ← field "model_architecture" v ≫= as_string;
  model_format ← field "model_format" v ≫= as_string;
  training_epochs ← optional as_int (field "training_epochs" v);
  training_steps ← optional as_int (field "training_steps" v);
  uuid ← field "uuid" v ≫= as_string;
  version ← field "version" v ≫= as_string;
  speakers ← field "speakers" v ≫= as_array speaker_of;
  Some (Manifest.mk manifest_version name (default "" description)
          (default [] creators) license model_architecture model_format
          training_epochs training_steps uuid version speakers).

Definition json_of_option {A} (f : A → JSON) (x : option A) : JSON :=
  match x with Some a => f a | None => JNull end.

Definition json_of_voice_sample (vs : VoiceSample.t) : JSON :=
  JObj [("audio", JStr (VoiceSample.audio vs));
        ("transcript", JStr (VoiceSample.transcript vs))].

Definition json_of_style (st : Style.t) : JSON :=
  JObj [("name", JStr (Style.name st));
        ("icon", json_of_option JStr (Style.icon st));
        ("local_id", JNum (Style.local_id st));
        ("voice_samples", JArr (json_of_voice_sample <$> Style.voice_samples st))].

Definition json_of_speaker (sp : Speaker.t) : JSON :=
  JObj [("name", JStr (Speaker.name sp));
        ("icon", JStr (Speaker.icon sp));
        ("supported_languages", JArr (JStr <$> Speaker.supported_languages sp));
        ("uuid", JStr (Speaker.uuid sp));
        ("local_id", JNum (Speaker.local_id sp));
        ("styles", JArr (json_of_style <$> Speaker.styles sp))].

Definition json_of_manifest (m : Manifest.t) : JSON :=
  JObj [("manifest_version", JStr (Manifest.manifest_version m));
        ("name", JStr (Manifest.name m));
        ("description", JStr (Manifest.description m));
        ("creators", JArr (JStr <$> Manifest.creators m));
        ("license", json_of_option JStr (Manifest.license m));
        ("model_architecture", JStr (Manifest.model_architecture m));
        ("model_format", JStr (Manifest.model_format m));
        ("training_epochs", json_of_option JNum (Manifest.training_epochs m));
        ("training_steps", json_of_option JNum (Manifest.training_steps m));
        ("uuid", JStr (Manifest.uuid m));
        ("version", JStr (Manifest.version m));
        ("speakers", JArr (json_of_speaker <$> Manifest.speakers m))].

Definition data_fields : list string :=
  ["use_jp_extra"; "training_files"; "validation_files"; "n_speakers";
   "spk2id"; "num_styles"; "style2id"].

Definition data_of (v : JSON) : option HyperParametersData.t :=
  use_jp_extra ← optional as_bool (field "use_jp_extra" v);
  training_files ← optional as_string (field "training_files" v);
  validation_files ← optional as_string (field "validation_files" v);
  n_speakers ← field "n_speakers" v ≫= as_int;
  spk2id ← field "spk2id" v ≫= as_record as_int;
  num_styles ← field "num_styles" v ≫= as_int;
  style2id ← field "style2id" v ≫= as_record as_int;
  match v with
  | JObj props =>
      Some (HyperParametersData.mk use_jp_extra training_files validation_files
              n_speakers spk2id num_styles style2id
              (JObj (filter (λ kv, kv.1 ∉ data_fields) props)))
  | _ => None
  end.

Definition hyper_parameters_of (v : JSON) : option HyperParameters.t :=
  model_name ← field "model_name" v ≫= as_string;
  version ← field "version" v ≫= as_string;
  train ← field "train" v;
  data ← field "data" v ≫= data_of;
  model ← field "model" v;
  Some (HyperParameters.mk model_name version train data model).

Definition present {A} (k : string) (f : A → JSON) (x : option A)
    : list (string * JSON) :=
  match x with Some a => [(k, f a)] | None => [] end.

Definition json_of_data (d : HyperParametersData.t) : JSON :=
  JObj (present "use_jp_extra" JBool (HyperParametersData.use_jp_extra d)
        ++ present "training_files" JStr (HyperParametersData.training_files d)
        ++ present "validation_files" JStr (HyperParametersData.validation_files d)
        ++ [("n_speakers", JNum (HyperParametersData.n_speakers d));
            ("spk2id", JObj (prod_map id JNum <$> HyperParametersData.spk2id d));
            ("num_styles", JNum (HyperParametersData.num_styles d));
            ("style2id", JObj (prod_map id JNum <$> HyperParametersData.style2id d))]
        ++ match HyperParametersData.others d with JObj props => props | _ => [] end).

Definition json_of_hyper_parameters (hp : HyperParameters.t) : JSON :=
  JObj [("model_name", JStr (HyperParameters.model_name hp));
        ("version", JStr (HyperParameters.version hp));
        ("train", HyperParameters.train hp);
        ("data", json_of_data (HyperParameters.data hp));
        ("model", HyperParameters.model hp)].

(** *** Base64 *)

Definition alphabet : string :=
  "ABCDEFGHIJKLMNOPQRSTUVWXYZabcdefghijklmnopqrstuvwxyz0123456789+/".

Definition sextet_char (n : N) : string :=
  match String.get (N.to_nat n) alphabet with
  | Some c => String c EmptyString
  | None => EmptyString
  end.

Fixpoint base64_encode (b : bytes) : string :=
  match b with
  | [] => EmptyString
  | [x] =>
      let n := (Byte.to_N x * 65536)%N in
      sextet_char (n / 262144) +:+ sextet_char (n / 4096 mod 64) +:+ "=="
  | [x; y] =>
      let n := (Byte.to_N x * 65536 + Byte.to_N y * 256)%N in
      sextet_char (n / 262144) +:+ sextet_char (n / 4096 mod 64)
      +:+ sextet_char (n / 64 mod 64) +:+ "="
  | x :: y :: z :: b' =>
      let n := (Byte.to_N x * 65536 + Byte.to_N y * 256 + Byte.to_N z)%N in
      sextet_char (n / 262144) +:+ sextet_char (n / 4096 mod 64)
      +:+ sextet_char (n / 64 mod 64) +:+ sextet_char (n mod 64)
      +:+ base64_encode b'
  end.

Definition sextet_of (c : ascii) : option N :=
  N.of_nat <$> String.index 0 (String c EmptyString) alphabet.

Definition byte_of (n : N) : Byte.byte := default Byte.x00 (Byte.of_N (n mod 256)%N).

Fixpoint base64_decode_chars (fuel : nat) (s : string) : option bytes :=
  match fuel, s with
  | _, EmptyString => Some []
  | S fuel, String a (String b (String c (String d s'))) =>
      x ← sextet_of a; y ← sextet_of b;
      if bool_decide (c = "="%char) then
        if bool_decide (d = "="%char) && bool_decide (s' = EmptyString)
        then Some [byte_of ((x * 64 + y) / 16)] else None
      else
        z ← sextet_of c;
        if bool_decide (d = "="%char) then
          if bool_decide (s' = EmptyString)
          then Some [byte_of ((x * 4096 + y * 64 + z) / 1024);
                     byte_of ((x * 4096 + y * 64 + z) / 4)]
          else None
        else
          w ← sextet_of d;
          let n := (x * 262144 + y * 4096 + z * 64 + w)%N in
          rest ← base64_decode_chars fuel s';
          Some (byte_of (n / 65536) :: byte_of (n / 256) :: byte_of n :: rest)
  | _, _ => None
  end.

Definition base64_decode (s : string) : option bytes :=
  base64_decode_chars (String.length s) s.

(** *** The platform *)

Definition decimal_of_nat (n : nat) : string := decimal (Z.of_nat n).

(** An ONNX model is kept as the JSON text of its entries and its rest. *)
Definition model_proto_decode (b : bytes) : option (list (string * string) * bytes) :=
  v ← parse (string_of_list_byte b);
  props ← field "metadata_props" v ≫= as_record as_string;
  rest ← field "rest" v ≫= as_string;
  Some (props, list_byte_of_string rest).

Definition model_proto_encode (m : list (string * string) * bytes) : bytes :=
  list_byte_of_string
    (stringify (JObj [("metadata_props", JObj (prod_map id JStr <$> m.1));
                      ("rest", JStr (string_of_list_byte m.2))])).

#[export] Instance platform : Platform := {|
  DEFAULT_ICON_DATA_URL := "data:image/png;base64,iVBORw0KGgo=";
  uuid_v4 := λ n, "00000000-0000-4000-8000-" +:+ decimal_of_nat n;
  decode_manifest := λ text, parse text ≫= manifest_of;
  StyleBertVITS2HyperParametersSchema_parse := λ text, parse text ≫= hyper_parameters_of;
  stringify_manifest := λ m, stringify (json_of_manifest m);
  stringify_hyper_parameters := λ hp, stringify (json_of_hyper_parameters hp);
  JSON_parse := parse;
  JSON_stringify := stringify;
  TextDecoder_decode := string_of_list_byte;
  TextEncoder_encode := list_byte_of_string;
  Base64_toUint8Array := base64_decode;
  Base64_fromUint8Array := base64_encode;
  ToString := stringify;
  ModelProto_decode := model_proto_decode;
  ModelProto_encode := model_proto_encode;
|}.

End Sample.

(** ** updateAivmMetadata on a heap of objects

    The functions above work on values. To say what [updateAivmMetadata]
    does to the objects it is given, this section runs it on a heap: every
    JavaScript object or array is a cell, a reference is the address of a
    cell, an assignment to a field or a [push] overwrites a cell, and an
    object literal, an array literal or [structuredClone] allocates new
    cells. The hyper-parameters and the style vectors, which the update
    never looks into, are one cell each. *)

Module Heap.

Abbreviation loc := nat.

Inductive Cell : Type :=
| VoiceSampleCell (audio transcript : string)
| StyleCell (name : string) (icon : option string) (local_id : Z) (voice_samples : loc)
| SpeakerCell (name icon : string) (supported_languages : loc) (uuid : string)
    (local_id : Z) (styles : loc)
| ManifestCell (manifest_version name description : string) (creators : loc)
    (license : option string) (model_architecture model_format : string)
    (training_epochs training_steps : option Z) (uuid version : string)
    (speakers : loc)
| MetadataCell (manifest hyper_parameters : loc) (style_vectors : option loc)
| ArrayCell (items : list loc)
| StringsCell (items : list string)
| WarningsCell (items : list Warning)
| HyperParametersCell (hp : HyperParameters.t)
| BytesCell (b : bytes).

Abbreviation heap := (list Cell).

(** A computation on the heap: the heap afterwards, and a value or an
    exception. *)
Definition M (A : Type) : Type := heap → heap * Result A.

Definition ret {A} (a : A) : M A := λ h, (h, Ok a).

Definition throw {A} (e : AivmError) : M A := λ h, (h, Err e).

Definition bind {A B} (m : M A) (f : A → M B) : M B :=
  λ h, match m h with
       | (h', Ok a) => f a h'
       | (h', Err e) => (h', Err e)
       end.

#[global] Instance M_bind : MBind M := λ A B f m, bind m f.

(** A new object. *)
Definition alloc (c : Cell) : M loc := λ h, (h ++ [c], Ok (List.length h)).

(** Reading through a reference; a dangling one cannot occur in
    JavaScript and is a [TypeError] here. *)
Definition load (l : loc) : M Cell :=
  λ h, match h !! l with
       | Some c => (h, Ok c)
       | None => (h, Err JsTypeError)
       end.

(** Assignment to an object that exists. *)
Definition store (l : loc) (c : Cell) : M unit := λ h, (<[l := c]> h, Ok tt).

(** The outcome of a function that does not touch the heap. *)
Definition lift {A} (r : Result A) : M A := λ h, (h, r).

Fixpoint for_each {B} (body : B → M unit) (l : list B) : M unit :=
  match l with
  | [] => ret tt
  | b :: l' => _ ← body b; for_each body l'
  end.

Fixpoint fold {S B} (body : S → B → M S) (s : S) (l : list B) : M S :=
  match l with
  | [] => ret s
  | b :: l' => s' ← body s b; fold body s' l'
  end.

Fixpoint map_each {B C} (f : B → M C) (l : list B) : M (list C) :=
  match l with
  | [] => ret []
  | b :: l' => c ← f b; cs ← map_each f l'; ret (c :: cs)
  end.

(** *** Typed access *)

Definition load_array (l : loc) : M (list loc) :=
  c ← load l; match c with ArrayCell items => ret items | _ => throw JsTypeError end.

Definition load_strings (l : loc) : M (list string) :=
  c ← load l; match c with StringsCell items => ret items | _ => throw JsTypeError end.

Definition load_warnings (l : loc) : M (list Warning) :=
  c ← load l; match c with WarningsCell items => ret items | _ => throw JsTypeError end.

(** [array.push(x)] *)
Definition push (array : loc) (x : loc) : M unit :=
  items ← load_array array; store array (ArrayCell (items ++ [x])).

(** [warnings.push(w)] *)
Definition warn (warnings : loc) (w : Warning) : M unit :=
  items ← load_warnings warnings; store warnings (WarningsCell (items ++ [w])).

(** *** Values into objects and back *)

Definition new_voice_sample (vs : VoiceSample.t) : M loc :=
  alloc (VoiceSampleCell (VoiceSample.audio vs) (VoiceSample.transcript vs)).

Definition new_style (st : Style.t) : M loc :=
  samples ← map_each new_voice_sample (Style.voice_samples st);
  voice_samples ← alloc (ArrayCell samples);
  alloc (StyleCell (Style.name st) (Style.icon st) (Style.local_id st) voice_samples).

Definition new_speaker (sp : Speaker.t) : M loc :=
  supported_languages ← alloc (StringsCell (Speaker.supported_languages sp));
  items ← map_each new_style (Speaker.styles sp);
  styles ← alloc (ArrayCell items);
  alloc (SpeakerCell (Speaker.name sp) (Speaker.icon sp) supported_languages
           (Speaker.uuid sp) (Speaker.local_id sp) styles).

Definition new_manifest (m : Manifest.t) : M loc :=
  creators ← alloc (StringsCell (Manifest.creators m));
  items ← map_each new_speaker (Manifest.speakers m);
  speakers ← alloc (ArrayCell items);
  alloc (ManifestCell (Manifest.manifest_version m) (Manifest.name m)
           (Manifest.description m) creators (Manifest.license m)
           (Manifest.model_architecture m) (Manifest.model_format m)
           (Manifest.training_epochs m) (Manifest.training_steps m)
           (Manifest.uuid m) (Manifest.version m) speakers).

Definition new_metadata (md : AivmMetadata.t) : M loc :=
  manifest ← new_manifest (AivmMetadata.manifest md);
  hyper_parameters ← alloc (HyperParametersCell (AivmMetadata.hyper_parameters md));
  style_vectors ←
    match AivmMetadata.style_vectors md with
    | Some b => l ← alloc (BytesCell b); ret (Some l)
    | None => ret None
    end;
  alloc (MetadataCell manifest hyper_parameters style_vectors).

Definition get_voice_sample (l : loc) : M VoiceSample.t :=
  c ← load l;
  match c with
  | VoiceSampleCell audio transcript => ret (VoiceSample.mk audio transcript)
  | _ => throw JsTypeError
  end.

Definition get_style (l : loc) : M Style.t :=
  c ← load l;
  match c with
  | StyleCell name icon local_id voice_samples =>
      samples ← load_array voice_samples;
      voice_samples ← map_each get_voice_sample samples;
      ret (Style.mk name icon local_id voice_samples)
  | _ => throw JsTypeError
  end.

Definition get_speaker (l : loc) : M Speaker.t :=
  c ← load l;
  match c with
  | SpeakerCell name icon supported_languages uuid local_id styles =>
      supported_languages ← load_strings supported_languages;
      items ← load_array styles;
      styles ← map_each get_style items;
      ret (Speaker.mk name icon supported_languages uuid local_id styles)
  | _ => throw JsTypeError
  end.

Definition get_manifest (l : loc) : M Manifest.t :=
  c ← load l;
  match c with
  | ManifestCell manifest_version name description creators license
      model_architecture model_format training_epochs training_steps uuid version
      speakers =>
      creators ← load_strings creators;
      items ← load_array speakers;
      speakers ← map_each get_speaker items;
      ret (Manifest.mk manifest_version name description creators license
             model_architecture model_format training_epochs training_steps
             uuid version speakers)
  | _ => throw JsTypeError
  end.

Definition get_metadata (l : loc) : M AivmMetadata.t :=
  c ← load l;
  match c with
  | MetadataCell manifest hyper_parameters style_vectors =>
      manifest ← get_manifest manifest;
      hp ← load hyper_parameters;
      hyper_parameters ←
        match hp with
        | HyperParametersCell hp => ret hp
        | _ => throw JsTypeError
        end;
      style_vectors ←
        match style_vectors with
        | Some l =>
            b ← load l;
            match b with BytesCell b => ret (Some b) | _ => throw JsTypeError end
        | None => ret None
        end;
      ret (AivmMetadata.mk manifest hyper_parameters style_vectors)
  | _ => throw JsTypeError
  end.

(** The aggregate a reference stands for in a heap. *)
Definition read_metadata (h : heap) (l : loc) : option AivmMetadata.t :=
  match get_metadata l h with
  | (_, Ok md) => Some md
  | (_, Err _) => None
  end.

(** [structuredClone(manifest)]: the value, in new objects. *)
Definition structuredClone_manifest (l : loc) : M loc :=
  m ← get_manifest l; new_manifest m.

(** *** The update *)

Section Update.
Context `{!Platform}.

(** [{ name: ..., icon: null, local_id: ..., voice_samples: [] }] *)
Definition new_created_style (style2id : JsObject Z) (style_name : string)
    (style_local_id : Z) : M loc :=
  voice_samples ← alloc (ArrayCell []);
  alloc (StyleCell (new_style_name style2id style_name) None style_local_id voice_samples).

Definition retain_styles (new_style_id_to_name_map : gmap Z string)
    (warnings updated_styles : loc) (speaker_name : string) (styles : list loc)
    : M (gset Z) :=
  fold (λ (processed_new_style_local_ids : gset Z) existing_style,
          c ← load existing_style;
          match c with
          | StyleCell name _ style_local_id _ =>
              if Map_has new_style_id_to_name_map style_local_id then
                _ ← push updated_styles existing_style;
                ret (processed_new_style_local_ids ∪ {[style_local_id]})
              else
                _ ← warn warnings (StyleRemoved speaker_name name style_local_id);
                ret processed_new_style_local_ids
          | _ => throw JsTypeError
          end)
       ∅ styles.

Definition add_styles (new_style2id : JsObject Z)
    (warnings updated_styles : loc) (speaker_name : string)
    (processed_new_style_local_ids : gset Z) : M unit :=
  for_each (λ '(style_name, style_local_id),
              if Set_has processed_new_style_local_ids style_local_id then ret tt
              else
                style ← new_created_style new_style2id style_name style_local_id;
                _ ← push updated_styles style;
                warn warnings (StyleAdded speaker_name style_name style_local_id))
           (Object_entries new_style2id).

Definition update_speaker (hyper_parameters : HyperParameters.t)
    (new_spk_id_to_name_map new_style_id_to_name_map : gmap Z string)
    (warnings updated_speakers : loc)
    (processed_new_speaker_local_ids : gset Z) (existing_speaker : loc)
    : M (gset Z) :=
  c ← load existing_speaker;
  match c with
  | SpeakerCell name icon languages uuid speaker_local_id styles =>
      if Map_has new_spk_id_to_name_map speaker_local_id then
        updated_styles ← alloc (ArrayCell []);
        existing_styles ← load_array styles;
        processed_new_style_local_ids ←
          retain_styles new_style_id_to_name_map warnings updated_styles name
            existing_styles;
        _ ← add_styles (style2id hyper_parameters) warnings updated_styles name
              processed_new_style_local_ids;
        supported_languages ← load_strings languages;
        new_supported_languages ← alloc (StringsCell (languages_of hyper_parameters));
        languages ←
          (if bool_decide (supported_languages = languages_of hyper_parameters)
           then ret languages
           else
             _ ← warn warnings
                   (SupportedLanguagesChanged name (languages_of hyper_parameters));
             ret new_supported_languages);
        speaker ←
          alloc (SpeakerCell name icon languages uuid speaker_local_id updated_styles);
        _ ← push updated_speakers speaker;
        ret (processed_new_speaker_local_ids ∪ {[speaker_local_id]})
      else
        _ ← warn warnings (SpeakerRemoved name speaker_local_id);
        ret processed_new_speaker_local_ids
  | _ => throw JsTypeError
  end.

Definition add_speakers (hyper_parameters : HyperParameters.t)
    (warnings updated_speakers : loc)
    (processed_new_speaker_local_ids : gset Z) (n : nat) : M nat :=
  fold (λ n '(new_speaker_name, new_local_id),
          if Set_has processed_new_speaker_local_ids new_local_id then ret n
          else
            new_speaker_styles ← alloc (ArrayCell []);
            _ ← for_each (λ '(style_name, style_local_id),
                            style ← new_created_style (style2id hyper_parameters)
                                      style_name style_local_id;
                            push new_speaker_styles style)
                         (Object_entries (style2id hyper_parameters));
            supported_languages ← alloc (StringsCell (languages_of hyper_parameters));
            speaker ←
              alloc (SpeakerCell new_speaker_name DEFAULT_ICON_DATA_URL
                       supported_languages (uuid_v4 n) new_local_id new_speaker_styles);
            _ ← push updated_speakers speaker;
            _ ← warn warnings (SpeakerAdded new_speaker_name new_local_id);
            ret (S n))
       n (Object_entries (spk2id hyper_parameters)).

Definition check_updated_speakers (updated_speakers : loc) : M unit :=
  speakers ← load_array updated_speakers;
  if (List.length speakers =? 0)%nat then throw UpdatedSpeakersEmpty
  else
    for_each (λ speaker,
                c ← load speaker;
                match c with
                | SpeakerCell name _ _ _ local_id styles =>
                    items ← load_array styles;
                    if (List.length items =? 0)%nat
                    then throw (UpdatedStylesEmpty name local_id)
                    else ret tt
                | _ => throw JsTypeError
                end)
             speakers.

(** [updateAivmMetadata(existing_metadata, ...)]: the references to the
    updated aggregate and to the array of warnings. *)
Definition updateAivmMetadata (n : nat) (existing_metadata : loc)
    (hyper_parameters_file : string) (style_vectors_file : option bytes)
    : M (loc * loc) :=
  warnings ← alloc (WarningsCell []);
  existing ← load existing_metadata;
  match existing with
  | MetadataCell existing_manifest _ _ =>
      c ← load existing_manifest;
      match c with
      | ManifestCell _ _ _ _ _ model_architecture _ _ _ _ _ existing_speakers =>
          '(hp, sv) ← lift (loadAndValidateHyperParametersAndStyleVectors
                              model_architecture hyper_parameters_file
                              style_vectors_file);
          hyper_parameters ← alloc (HyperParametersCell hp);
          style_vectors ← alloc (BytesCell sv);
          if is_style_bert_vits2 model_architecture then
            manifest ← structuredClone_manifest existing_manifest;
            c ← load manifest;
            match c with
            | ManifestCell manifest_version name description creators license _
                model_format training_epochs training_steps uuid version speakers =>
                _ ← store manifest
                      (ManifestCell manifest_version name description creators license
                         (architecture_of hp) model_format training_epochs
                         training_steps uuid version speakers);
                let new_spk_id_to_name_map := id_to_name_map (spk2id hp) in
                let new_style_id_to_name_map := id_to_name_map (style2id hp) in
                updated_speakers ← alloc (ArrayCell []);
                speakers_now ← load_array existing_speakers;
                processed_new_speaker_local_ids ←
                  fold (update_speaker hp new_spk_id_to_name_map
                          new_style_id_to_name_map warnings updated_speakers)
                       ∅ speakers_now;
                _ ← add_speakers hp warnings updated_speakers
                      processed_new_speaker_local_ids n;
                _ ← store manifest
                      (ManifestCell manifest_version name description creators license
                         (architecture_of hp) model_format training_epochs
                         training_steps uuid version updated_speakers);
                _ ← check_updated_speakers updated_speakers;
                updated_metadata ←
                  alloc (MetadataCell manifest hyper_parameters (Some style_vectors));
                ret (updated_metadata, warnings)
            | _ => throw JsTypeError
            end
          else throw (ModelArchitectureNotSupported model_architecture)
      | _ => throw JsTypeError
      end
  | _ => throw JsTypeError
  end.

End Update.

End Heap.

(** ** Sample inputs *)

Module Inputs.
Import Sample.

Definition hyper_parameters (jp_extra : bool) (spk2id style2id : JsObject Z)
    : HyperParameters.t :=
  {| HyperParameters.model_name := "Sample Model";
     HyperParameters.version := "2.4.1";
     HyperParameters.train := JObj [("epochs", JNum 100)];
     HyperParameters.data :=
       {| HyperParametersData.use_jp_extra := Some jp_extra;
          HyperParametersData.training_files := Some "/home/user/Data/train.list";
          HyperParametersData.validation_files := Some "/home/user/Data/val.list";
          HyperParametersData.n_speakers := Z.of_nat (List.length spk2id);
          HyperParametersData.spk2id := spk2id;
          HyperParametersData.num_styles := Z.of_nat (List.length style2id);
          HyperParametersData.style2id := style2id;
          HyperParametersData.others := JObj [("sampling_rate", JNum 44100)] |};
     HyperParameters.model := JObj [("n_layers", JNum 6)] |}.

(** The text of a hyper-parameters file. *)
Definition file_of (hp : HyperParameters.t) : string :=
  stringify (json_of_hyper_parameters hp).

Definition style_vectors : bytes := [Byte.x93; Byte.x4e; Byte.x55; Byte.x4d].

(** Scenario A: one speaker, one style named Neutral. *)
Definition scenario_a : string :=
  file_of (hyper_parameters true [("Alice", 0)] [("Neutral", 0)]).

(** Scenario B: the localized name is taken. *)
Definition scenario_b : string :=
  file_of (hyper_parameters true [("Alice", 0)] [("Neutral", 0); ("ノーマル", 1)]).

(** Identifiers that are not the positions of their entries. *)
Definition shifted_ids : string :=
  file_of (hyper_parameters true [("Alice", 5)] [("Neutral", 3)]).

Definition style (name : string) (local_id : Z) : Style.t :=
  {| Style.name := name; Style.icon := None; Style.local_id := local_id;
     Style.voice_samples :=
       [VoiceSample.mk "data:audio/mp4;base64,AAAA" "こんにちは"] |}.

Definition speaker (name uuid : string) (local_id : Z) (styles : list Style.t)
    : Speaker.t :=
  {| Speaker.name := name;
     Speaker.icon := "data:image/jpeg;base64,AAAA";
     Speaker.supported_languages := ["ja"];
     Speaker.uuid := uuid;
     Speaker.local_id := local_id;
     Speaker.styles := styles |}.

Definition manifest (speakers : list Speaker.t) : Manifest.t :=
  {| Manifest.manifest_version := "1.0";
     Manifest.name := "Existing Model";
     Manifest.description := "";
     Manifest.creators := ["Jane Doe"];
     Manifest.license := None;
     Manifest.model_architecture := "Style-Bert-VITS2 (JP-Extra)";
     Manifest.model_format := "ONNX";
     Manifest.training_epochs := Some 100;
     Manifest.training_steps := None;
     Manifest.uuid := "4a1a8e9e-0000-4000-8000-000000000001";
     Manifest.version := "1.0.0";
     Manifest.speakers := speakers |}.

(** An existing aggregate: Alice ([local_id] 0) with three styles. *)
Definition existing : AivmMetadata.t :=
  {| AivmMetadata.manifest :=
       manifest
         [speaker "Alice" "4a1a8e9e-0000-4000-8000-000000000002" 0
            [style "ノーマル" 0; style "Happy" 1; style "Sad" 2]];
     AivmMetadata.hyper_parameters :=
       hyper_parameters true [("Alice", 0)] [("Neutral", 0); ("Happy", 1); ("Sad", 2)];
     AivmMetadata.style_vectors := Some style_vectors |}.

(** Replacement hyper-parameters: the speaker is called Bob, style 1 is
    called Joy, style 2 is gone and style 7 is new. *)
Definition replacement : string :=
  file_of (hyper_parameters true [("Bob", 0)] [("Neutral", 0); ("Joy", 1); ("Angry", 7)]).

(** Two speakers called X, with different [local_id]s, around a third. *)
Definition same_name : AivmMetadata.t :=
  {| AivmMetadata.manifest :=
       manifest
         [speaker "X" "4a1a8e9e-0000-4000-8000-00000000000a" 0 [style "ノーマル" 0];
          speaker "Y" "4a1a8e9e-0000-4000-8000-00000000000b" 1 [style "ノーマル" 0];
          speaker "X" "4a1a8e9e-0000-4000-8000-00000000000c" 2 [style "ノーマル" 0]];
     AivmMetadata.hyper_parameters :=
       hyper_parameters true [("a", 0); ("b", 1); ("c", 2)] [("Neutral", 0)];
     AivmMetadata.style_vectors := Some style_vectors |}.

(** A speaker whose name was erased. *)
Definition empty_name : AivmMetadata.t :=
  {| AivmMetadata.manifest :=
       manifest [speaker "" "4a1a8e9e-0000-4000-8000-00000000000a" 0 [style "ノーマル" 0]];
     AivmMetadata.hyper_parameters :=
       hyper_parameters true [("a", 0)] [("Neutral", 0)];
     AivmMetadata.style_vectors := Some style_vectors |}.

(** An AIVM file: the length of the header, the header, the payload. *)
Definition file_with_header (header : string) (payload : bytes) : bytes :=
  N_to_le 8 (N.of_nat (String.length header)) ++ list_byte_of_string header ++ payload.

Definition header : JSON :=
  JObj [("__metadata__", JObj [("format", JStr "pt")]);
        ("weight", JObj [("dtype", JStr "F32"); ("shape", JArr [JNum 2]);
                         ("data_offsets", JArr [JNum 0; JNum 8])])].

Definition payload : bytes :=
  [Byte.x00; Byte.x00; Byte.x80; Byte.x3f; Byte.x00; Byte.x00; Byte.x00; Byte.x40].

Definition aivm_file : bytes := file_with_header (stringify header) payload.

(** A file whose header is not JSON. *)
Definition broken_header : bytes := file_with_header "{x" payload.

(** A file whose first eight bytes announce more than the file holds. *)
Definition short_file : bytes :=
  N_to_le 8 200 ++ list_byte_of_string (stringify header).

End Inputs.

(** * Properties *)

(** Equality of two loop states, component by component. *)
Ltac state_eq :=
  repeat (match goal with |- (_, _) = (_, _) => f_equal end);
  first [ done
        | by rewrite ?app_nil_r
        | by rewrite <- ?app_assoc
        | by rewrite <- ?app_assoc; simpl; rewrite <- ?app_assoc
        | set_solver ].

(** ** Dictionaries *)

Section JsFacts.
Context {V : Type}.
Implicit Types (o : JsObject V) (k : string) (v : V).

Lemma eqb_decide k k' : String.eqb k k' = bool_decide (k = k').
Proof.
  destruct (String.eqb_spec k k') as [->|Hne].
  - by rewrite bool_decide_eq_true_2.
  - by rewrite bool_decide_eq_false_2.
Qed.

Lemma get_None o k : Js.get k o = None ↔ k ∉ Object_keys o.
Proof.
  induction o as [|[k' v'] o IH]; simpl.
  - split; [intros _; apply not_elem_of_nil | done].
  - rewrite eqb_decide. case_bool_decide as Hk.
    + subst. split; [done | intros H; exfalso; apply H; left].
    + rewrite IH, not_elem_of_cons. naive_solver.
Qed.

Lemma get_is_Some o k : is_Some (Js.get k o) ↔ k ∈ Object_keys o.
Proof.
  destruct (decide (k ∈ Object_keys o)) as [Hin|Hnin].
  - split; [done | intros _].
    destruct (Js.get k o) eqn:E; [done | by apply get_None in E].
  - apply get_None in Hnin as E. rewrite E. split; [by intros [? ?] | done].
Qed.

Lemma get_replace_eq o k v : k ∈ Object_keys o → Js.get k (Js.replace k v o) = Some v.
Proof.
  induction o as [|[k' v'] o IH]; simpl.
  - by intros ?%elem_of_nil.
  - intros Hin. rewrite eqb_decide. case_bool_decide as Hk; simpl; rewrite eqb_decide.
    + subst. by rewrite bool_decide_eq_true_2.
    + rewrite bool_decide_eq_false_2 by done. apply IH.
      apply elem_of_cons in Hin as [?|?]; [congruence | done].
Qed.

Lemma get_replace_ne o k k' v : k ≠ k' → Js.get k' (Js.replace k v o) = Js.get k' o.
Proof.
  intros Hne. induction o as [|[k'' v''] o IH]; simpl; [done|].
  rewrite !eqb_decide. case_bool_decide as Hk; simpl; rewrite !eqb_decide.
  - subst k''. by rewrite bool_decide_eq_false_2 by congruence.
  - by rewrite IH.
Qed.

Lemma keys_replace o k v : Object_keys (Js.replace k v o) = Object_keys o.
Proof.
  induction o as [|[k' v'] o IH]; simpl; [done|].
  rewrite eqb_decide. case_bool_decide; simpl; [done | by f_equal].
Qed.

Lemma get_create_eq o k v : k ∉ Object_keys o → Js.get k (Js.create k v o) = Some v.
Proof.
  induction o as [|[k' v'] o IH]; simpl.
  - intros _. by rewrite String.eqb_refl.
  - intros [Hne Hnin]%not_elem_of_cons.
    destruct (enumerates_before k k'); simpl.
    + by rewrite String.eqb_refl.
    + rewrite eqb_decide, bool_decide_eq_false_2 by done. by apply IH.
Qed.

Lemma get_create_ne o k k' v : k ≠ k' → Js.get k' (Js.create k v o) = Js.get k' o.
Proof.
  intros Hne. induction o as [|[k'' v''] o IH]; simpl.
  - rewrite eqb_decide, bool_decide_eq_false_2; [done | congruence].
  - destruct (enumerates_before k k''); simpl.
    + rewrite (eqb_decide k' k), bool_decide_eq_false_2; [done | congruence].
    + by rewrite IH.
Qed.

Lemma keys_create o k v : Object_keys (Js.create k v o) ≡ₚ k :: Object_keys o.
Proof.
  induction o as [|[k' v'] o IH]; simpl; [done|].
  destruct (enumerates_before k k'); simpl; [done|].
  rewrite IH. apply Permutation_swap.
Qed.

Lemma get_define_eq o k v : Js.get k (Js.define k v o) = Some v.
Proof.
  unfold Js.define, Js.has. case_bool_decide.
  - by apply get_replace_eq.
  - by apply get_create_eq.
Qed.

Lemma get_define_ne o k k' v : k ≠ k' → Js.get k' (Js.define k v o) = Js.get k' o.
Proof.
  intros Hne. unfold Js.define, Js.has. case_bool_decide.
  - by apply get_replace_ne.
  - by apply get_create_ne.
Qed.

Lemma get_define o k k' v :
  Js.get k' (Js.define k v o) = if decide (k = k') then Some v else Js.get k' o.
Proof.
  case_decide; [subst; apply get_define_eq | by apply get_define_ne].
Qed.

Lemma NoDup_keys_define o k v :
  NoDup (Object_keys o) → NoDup (Object_keys (Js.define k v o)).
Proof.
  intros Hnd. unfold Js.define, Js.has. case_bool_decide.
  - by rewrite keys_replace.
  - rewrite keys_create. by constructor.
Qed.

(** *** Assignment *)

(** A name under which an assignment to an object without an own
    [__proto__] creates a property. *)
Definition assignable (k : string) : bool := negb (String.eqb k "__proto__").

Lemma assignable_iff k : assignable k = true ↔ k ≠ "__proto__".
Proof.
  unfold assignable. rewrite eqb_decide, negb_true_iff.
  by rewrite bool_decide_eq_false.
Qed.

Lemma set_assignable o k v : assignable k = true → Js.set k v o = Js.define k v o.
Proof.
  unfold assignable, Js.set. intros Hk%negb_true_iff. by rewrite Hk.
Qed.

Lemma set_not_assignable o k v :
  assignable k = false → "__proto__" ∉ Object_keys o → Js.set k v o = o.
Proof.
  unfold assignable, Js.set, Js.has. intros Hk%negb_false_iff Hnone.
  rewrite Hk. apply String.eqb_eq in Hk as ->.
  by rewrite bool_decide_eq_false_2.
Qed.

(** The assignments of the library are to objects that begin as [{}]:
    they never get an own [__proto__]. *)
Lemma set_keeps_no_proto o k v :
  "__proto__" ∉ Object_keys o → "__proto__" ∉ Object_keys (Js.set k v o).
Proof.
  intros Hnone. destruct (assignable k) eqn:Hk.
  - rewrite set_assignable by done. apply assignable_iff in Hk.
    intros [x Hx]%get_is_Some. rewrite get_define_ne in Hx by done.
    apply Hnone, get_is_Some. by exists x.
  - by rewrite set_not_assignable.
Qed.

Lemma get_set o k k' v :
  "__proto__" ∉ Object_keys o →
  Js.get k' (Js.set k v o)
  = if bool_decide (k = k') && assignable k then Some v else Js.get k' o.
Proof.
  intros Hnone. destruct (assignable k) eqn:Hk.
  - rewrite set_assignable, get_define, andb_true_r by done.
    case_decide; [by rewrite bool_decide_eq_true_2 | by rewrite bool_decide_eq_false_2].
  - rewrite set_not_assignable, andb_false_r by done. done.
Qed.

Lemma get_set_eq o k v : k ≠ "__proto__" → Js.get k (Js.set k v o) = Some v.
Proof.
  intros Hk%assignable_iff. by rewrite set_assignable, get_define_eq.
Qed.

Lemma NoDup_keys_set o k v :
  NoDup (Object_keys o) → NoDup (Object_keys (Js.set k v o)).
Proof.
  intros Hnd. unfold Js.set. destruct (_ && _); [done|]. by apply NoDup_keys_define.
Qed.

End JsFacts.

(** ** Loops that may throw *)

Lemma for_of_unit_Ok {B} (body : unit → B → Result unit) (l : list B) :
  for_of body tt l = Ok tt ↔ ∀ b, b ∈ l → body tt b = Ok tt.
Proof.
  induction l as [|b l IH]; simpl.
  - split; [intros _ ? ?%elem_of_nil; done | done].
  - destruct (body tt b) as [[]|e] eqn:E; simpl.
    + rewrite IH. split.
      * intros H b' [->|?]%elem_of_cons; [done | by apply H].
      * intros H b' ?. apply H. by right.
    + split; [done | intros H]. specialize (H b (list_elem_of_here _ _)). congruence.
Qed.

Lemma for_of_unit_cases {B} (body : unit → B → Result unit) (l : list B) :
  (∀ b, body tt b ≠ Ok tt → ∃ e, body tt b = Err e) →
  for_of body tt l = Ok tt ∨ ∃ e, for_of body tt l = Err e.
Proof.
  intros _. destruct (for_of body tt l) as [[]|e]; eauto.
Qed.

(** ** Loading *)

Section Loading.
Context `{!Platform}.

Lemma require_Ok c e : require c e = Ok tt ↔ c = true.
Proof. unfold require. destruct c; naive_solver. Qed.

(** What a successful load has checked. *)
Lemma load_Ok model_architecture file style_vectors_file hp sv :
  loadAndValidateHyperParametersAndStyleVectors model_architecture file
    style_vectors_file = Ok (hp, sv) →
  is_style_bert_vits2 model_architecture = true
  ∧ StyleBertVITS2HyperParametersSchema_parse file = Some hp
  ∧ style_vectors_file = Some sv
  ∧ spk2id hp ≠ [] ∧ style2id hp ≠ [].
Proof.
  unfold loadAndValidateHyperParametersAndStyleVectors.
  destruct (is_style_bert_vits2 model_architecture); [|done].
  destruct (StyleBertVITS2HyperParametersSchema_parse file) as [hp'|]; [|done].
  simpl. unfold require.
  destruct (spk2id hp') as [|e1 l1] eqn:E1; [done|].
  destruct (style2id hp') as [|e2 l2] eqn:E2; [done|]. simpl.
  destruct (check_duplicate_ids DuplicateSpeakerId (e1 :: l1)); [|done]. simpl.
  destruct (check_duplicate_ids DuplicateStyleId (e2 :: l2)); [|done]. simpl.
  destruct (check_style_id_range (e2 :: l2)); [|done]. simpl.
  destruct (check_speaker_id_range (e1 :: l1)); [|done]. simpl.
  destruct style_vectors_file; [|done].
  intros [= -> ->]. by rewrite E1, E2.
Qed.

End Loading.

(** ** generateAivmMetadata *)

Section Generate.
Context `{!Platform}.

(** The manifest a successful generation returns, speaker by speaker. *)
Lemma generate_Ok n model_architecture file style_vectors_file md :
  generateAivmMetadata n model_architecture file style_vectors_file = Ok md →
  StyleBertVITS2HyperParametersSchema_parse file = Some (AivmMetadata.hyper_parameters md)
  ∧ ∀ i, Manifest.speakers (AivmMetadata.manifest md) !! i =
      (λ speaker_name,
         {| Speaker.name := speaker_name;
            Speaker.icon := DEFAULT_ICON_DATA_URL;
            Speaker.supported_languages := languages_of (AivmMetadata.hyper_parameters md);
            Speaker.uuid := uuid_v4 (S n + i);
            Speaker.local_id := Z.of_nat i;
            Speaker.styles :=
              imap (λ style_id style_name,
                 {| Style.name :=
                      new_style_name (style2id (AivmMetadata.hyper_parameters md)) style_name;
                    Style.icon := None;
                    Style.local_id := Z.of_nat style_id;
                    Style.voice_samples := [] |})
                (Object_keys (style2id (AivmMetadata.hyper_parameters md))) |})
      <$> Object_keys (spk2id (AivmMetadata.hyper_parameters md)) !! i.
Proof.
  unfold generateAivmMetadata.
  destruct (loadAndValidateHyperParametersAndStyleVectors _ _ _) as [[hp sv]|] eqn:E;
    [|done].
  apply load_Ok in E as (-> & Hparse & _). simpl.
  intros [= <-]. simpl. split; [done|].
  intros i. by rewrite list_lookup_imap.
Qed.

(** C1 (as the code behaves). Every speaker [generateAivmMetadata] builds
    takes as [local_id] the position of its entry in [Object.keys(spk2id)],
    and every style the position of its entry in [Object.keys(style2id)];
    the identifiers the two maps give are not used. *)
Theorem generate_local_id_is_position n model_architecture file style_vectors_file md :
  generateAivmMetadata n model_architecture file style_vectors_file = Ok md →
  ∀ i speaker,
    Manifest.speakers (AivmMetadata.manifest md) !! i = Some speaker →
    Speaker.local_id speaker = Z.of_nat i
    ∧ Some (Speaker.name speaker)
      = Object_keys (spk2id (AivmMetadata.hyper_parameters md)) !! i
    ∧ ∀ j style,
        Speaker.styles speaker !! j = Some style →
        Style.local_id style = Z.of_nat j
        ∧ is_Some (Object_keys (style2id (AivmMetadata.hyper_parameters md)) !! j).
Proof.
  intros Hgen i speaker Hi.
  apply generate_Ok in Hgen as [_ Hsp]. rewrite Hsp in Hi.
  destruct (Object_keys (spk2id _) !! i) as [speaker_name|]; [|done].
  simpl in Hi. injection Hi as <-. simpl. do 2 (split; [done|]).
  intros j style Hj. rewrite list_lookup_imap in Hj.
  destruct (Object_keys (style2id _) !! j); [|done].
  simpl in Hj. injection Hj as <-. by split.
Qed.

(** C7, the rule itself: a created style is named ["ノーマル"] exactly when
    its entry is named ["Neutral"] and no entry of the same map is named
    ["ノーマル"], or when the entry itself is named ["ノーマル"]. *)
Lemma new_style_name_spec style2id style_name :
  new_style_name style2id style_name =
    if decide (style_name = "Neutral" ∧ "ノーマル" ∉ Object_keys style2id)
    then "ノーマル" else style_name.
Proof.
  unfold new_style_name, includes.
  case_decide as Hd.
  - destruct Hd as [-> Hn]. simpl. by rewrite bool_decide_eq_false_2.
  - case_bool_decide as H1; simpl; [|done].
    case_bool_decide as H2; simpl; [done|]. naive_solver.
Qed.

End Generate.

(** ** updateAivmMetadata: what the loops compute *)

Section Update.
Context `{!Platform}.
Implicit Types (hp : HyperParameters.t) (sp : Speaker.t) (st : Style.t).

(** The identifiers a map of names to identifiers gives. *)
Definition ids (entries : JsObject Z) : list Z := entries.*2.

Lemma id_to_name_map_has entries id :
  Map_has (id_to_name_map entries) id = bool_decide (id ∈ ids entries).
Proof.
  unfold Map_has, id_to_name_map, Object_entries, ids.
  assert (∀ (m : gmap Z string),
    is_Some (foldl (λ m '(name, id), <[id := name]> m) m entries !! id)
    ↔ is_Some (m !! id) ∨ id ∈ entries.*2) as Hgen.
  { induction entries as [|[name id'] entries IH]; intros m; simpl.
    - rewrite elem_of_nil. naive_solver.
    - rewrite IH, elem_of_cons, lookup_insert_is_Some. destruct (decide (id' = id)); naive_solver. }
  apply bool_decide_ext. rewrite Hgen, lookup_empty.
  split; [intros [[? [=]]|?]; done | by right].
Qed.

(** The styles of an existing speaker that stay: those whose [local_id]
    is an identifier of the new [style2id]. *)
Definition retained_styles hp sp : list Style.t :=
  filter (λ st, Style.local_id st ∈ ids (style2id hp)) (Speaker.styles sp).

Definition removed_styles hp sp : list Style.t :=
  filter (λ st, Style.local_id st ∉ ids (style2id hp)) (Speaker.styles sp).

(** The entries of the new [style2id] no retained style accounts for. *)
Definition added_styles hp sp : JsObject Z :=
  filter (λ e : string * Z, e.2 ∉ Style.local_id <$> retained_styles hp sp) (style2id hp).

Definition updated_styles hp sp : list Style.t :=
  retained_styles hp sp
  ++ ((λ e : string * Z, created_style (style2id hp) e.1 e.2) <$> added_styles hp sp).

Definition updated_speaker hp sp : Speaker.t :=
  Speaker.with_languages_and_styles (languages_of hp) (updated_styles hp sp) sp.

Definition speaker_warnings hp sp : list Warning :=
  if decide (Speaker.local_id sp ∈ ids (spk2id hp)) then
    ((λ st, StyleRemoved (Speaker.name sp) (Style.name st) (Style.local_id st))
       <$> removed_styles hp sp)
    ++ ((λ e : string * Z, StyleAdded (Speaker.name sp) e.1 e.2) <$> added_styles hp sp)
    ++ (if decide (Speaker.supported_languages sp = languages_of hp) then []
        else [SupportedLanguagesChanged (Speaker.name sp) (languages_of hp)])
  else [SpeakerRemoved (Speaker.name sp) (Speaker.local_id sp)].

Definition retained_speakers hp (existing : list Speaker.t) : list Speaker.t :=
  filter (λ sp, Speaker.local_id sp ∈ ids (spk2id hp)) existing.

Definition added_speakers hp (existing : list Speaker.t) : JsObject Z :=
  filter (λ e : string * Z, e.2 ∉ Speaker.local_id <$> retained_speakers hp existing)
         (spk2id hp).

Definition new_speaker hp (n : nat) (e : string * Z) : Speaker.t :=
  {| Speaker.name := e.1;
     Speaker.icon := DEFAULT_ICON_DATA_URL;
     Speaker.supported_languages := languages_of hp;
     Speaker.uuid := uuid_v4 n;
     Speaker.local_id := e.2;
     Speaker.styles :=
       (λ '(style_name, style_local_id),
          created_style (style2id hp) style_name style_local_id) <$> style2id hp |}.

Lemma retain_styles_spec hp sp ws :
  retain_styles (id_to_name_map (style2id hp)) sp ws =
    (list_to_set (Style.local_id <$> retained_styles hp sp),
     retained_styles hp sp,
     ws ++ ((λ st, StyleRemoved (Speaker.name sp) (Style.name st) (Style.local_id st))
              <$> removed_styles hp sp)).
Proof.
  unfold retain_styles, retained_styles, removed_styles.
  set (P := λ st, Style.local_id st ∈ ids (style2id hp)).
  set (Q := λ st, Style.local_id st ∉ ids (style2id hp)).
  set (W := λ st, StyleRemoved (Speaker.name sp) (Style.name st) (Style.local_id st)).
  assert (∀ (s0 : gset Z) u0 w0,
    foldl (λ '(processed, updated, warnings) existing_style,
             let style_local_id := Style.local_id existing_style in
             if Map_has (id_to_name_map (style2id hp)) style_local_id
             then (processed ∪ {[style_local_id]}, updated ++ [existing_style], warnings)
             else (processed, updated,
                   warnings ++ [StyleRemoved (Speaker.name sp)
                                  (Style.name existing_style) style_local_id]))
          (s0, u0, w0) (Speaker.styles sp)
    = (s0 ∪ list_to_set (Style.local_id <$> filter P (Speaker.styles sp)),
       u0 ++ filter P (Speaker.styles sp),
       w0 ++ (W <$> filter Q (Speaker.styles sp)))) as Hgen.
  { induction (Speaker.styles sp) as [|st l IH]; intros s0 u0 w0; simpl.
    - state_eq.
    - rewrite id_to_name_map_has, !filter_cons.
      case_bool_decide as Hin; rewrite IH.
      + destruct (decide (P st)) as [_|[]]; [|done].
        destruct (decide (Q st)) as [Hq|_]; [by destruct Hq|].
        simpl. state_eq.
      + destruct (decide (P st)) as [Hp|_]; [done|].
        destruct (decide (Q st)) as [_|[]]; [|done].
        simpl. state_eq. }
  rewrite Hgen. state_eq.
Qed.

Lemma add_styles_spec hp sp u0 w0 :
  add_styles (style2id hp) sp (list_to_set (Style.local_id <$> retained_styles hp sp)) u0 w0 =
    (u0 ++ ((λ e : string * Z, created_style (style2id hp) e.1 e.2) <$> added_styles hp sp),
     w0 ++ ((λ e : string * Z, StyleAdded (Speaker.name sp) e.1 e.2) <$> added_styles hp sp)).
Proof.
  unfold add_styles, added_styles, Object_entries.
  set (R := Style.local_id <$> retained_styles hp sp).
  set (C := created_style (style2id hp)).
  assert (∀ (entries : JsObject Z) u0 w0,
    foldl (λ '(updated_styles, warnings) '(style_name, style_local_id),
             if Set_has (list_to_set R) style_local_id
             then (updated_styles, warnings)
             else (updated_styles ++ [C style_name style_local_id],
                   warnings ++ [StyleAdded (Speaker.name sp) style_name style_local_id]))
          (u0, w0) entries
    = (u0 ++ ((λ e : string * Z, C e.1 e.2) <$> filter (λ e : string * Z, e.2 ∉ R) entries),
       w0 ++ ((λ e : string * Z, StyleAdded (Speaker.name sp) e.1 e.2)
                <$> filter (λ e : string * Z, e.2 ∉ R) entries))) as Hgen.
  { induction entries as [|[name id] entries IH]; intros u1 w1; simpl.
    - state_eq.
    - rewrite filter_cons. unfold Set_has. simpl.
      case_bool_decide as Hin.
      + rewrite decide_False; [apply IH|]. intros Hn. apply Hn.
        by apply elem_of_list_to_set in Hin.
      + rewrite decide_True; [|by rewrite elem_of_list_to_set in Hin].
        rewrite IH. simpl. state_eq. }
  apply Hgen.
Qed.

Lemma update_speaker_spec hp s0 u0 w0 sp :
  update_speaker hp (id_to_name_map (spk2id hp)) (id_to_name_map (style2id hp))
    (s0, u0, w0) sp =
    if decide (Speaker.local_id sp ∈ ids (spk2id hp))
    then (s0 ∪ {[Speaker.local_id sp]}, u0 ++ [updated_speaker hp sp],
          w0 ++ speaker_warnings hp sp)
    else (s0, u0, w0 ++ speaker_warnings hp sp).
Proof.
  unfold update_speaker, speaker_warnings. rewrite id_to_name_map_has.
  destruct (decide (Speaker.local_id sp ∈ ids (spk2id hp))) as [Hin|Hin].
  - rewrite bool_decide_eq_true_2 by done.
    rewrite retain_styles_spec, add_styles_spec. simpl.
    unfold updated_speaker, updated_styles.
    destruct (decide (Speaker.supported_languages sp = languages_of hp)) as [Hl|Hl].
    + rewrite bool_decide_eq_true_2 by done. rewrite Hl, ?app_nil_r. state_eq.
    + rewrite bool_decide_eq_false_2 by done. state_eq.
  - by rewrite bool_decide_eq_false_2.
Qed.

Lemma update_speakers_spec hp existing s0 u0 w0 :
  foldl (update_speaker hp (id_to_name_map (spk2id hp)) (id_to_name_map (style2id hp)))
        (s0, u0, w0) existing =
    (s0 ∪ list_to_set (Speaker.local_id <$> retained_speakers hp existing),
     u0 ++ (updated_speaker hp <$> retained_speakers hp existing),
     w0 ++ List.concat (speaker_warnings hp <$> existing)).
Proof.
  unfold retained_speakers. revert s0 u0 w0.
  induction existing as [|sp existing IH]; intros s0 u0 w0; cbn [foldl].
  - simpl. state_eq.
  - rewrite update_speaker_spec, filter_cons.
    destruct (decide (Speaker.local_id sp ∈ ids (spk2id hp))) as [Hin|Hin];
      rewrite IH; simpl; state_eq.
Qed.

Lemma add_speakers_spec hp existing u0 w0 n :
  add_speakers hp (list_to_set (Speaker.local_id <$> retained_speakers hp existing))
    (u0, w0, n) =
    (u0 ++ imap (λ i e, new_speaker hp (n + i) e) (added_speakers hp existing),
     w0 ++ ((λ e : string * Z, SpeakerAdded e.1 e.2) <$> added_speakers hp existing),
     (n + List.length (added_speakers hp existing))%nat).
Proof.
  unfold add_speakers, added_speakers, Object_entries.
  set (R := Speaker.local_id <$> retained_speakers hp existing).
  generalize (spk2id hp) as entries. intros entries. revert u0 w0 n.
  induction entries as [|[name id] entries IH]; intros u0 w0 n; simpl.
  - rewrite !app_nil_r. by rewrite Nat.add_0_r.
  - rewrite filter_cons. unfold Set_has. simpl.
    case_bool_decide as Hin.
    + rewrite decide_False; [apply IH|]. intros Hn. apply Hn.
      by apply elem_of_list_to_set in Hin.
    + rewrite decide_True; [|by rewrite elem_of_list_to_set in Hin].
      rewrite IH. simpl. rewrite <- !app_assoc. simpl.
      rewrite Nat.add_0_r. f_equal; [f_equal|lia].
      f_equal. f_equal. apply imap_ext. intros i e _. simpl. f_equal. lia.
Qed.

(** The result of the two loops, in closed form. *)
Lemma reconcile_speakers_spec n existing hp w0 :
  reconcile_speakers n existing hp w0 =
    ((updated_speaker hp <$> retained_speakers hp existing)
       ++ imap (λ i e, new_speaker hp (n + i) e) (added_speakers hp existing),
     w0 ++ List.concat (speaker_warnings hp <$> existing)
        ++ ((λ e : string * Z, SpeakerAdded e.1 e.2) <$> added_speakers hp existing)).
Proof.
  unfold reconcile_speakers. rewrite update_speakers_spec.
  rewrite (left_id_L ∅ (∪)). rewrite add_speakers_spec. simpl.
  by rewrite <- app_assoc.
Qed.

End Update.

(** ** updateAivmMetadata: the result *)

Section UpdateResult.
Context `{!Platform}.
Implicit Types (hp : HyperParameters.t) (sp : Speaker.t) (st : Style.t).

Lemma check_styles_not_empty_Ok (l : list Speaker.t) :
  check_styles_not_empty l = Ok tt ↔ ∀ sp, sp ∈ l → Speaker.styles sp ≠ [].
Proof.
  unfold check_styles_not_empty. rewrite for_of_unit_Ok.
  split; intros Hl sp Hsp; specialize (Hl sp Hsp).
  - by destruct (Speaker.styles sp).
  - by destruct (Speaker.styles sp).
Qed.

Lemma check_updated_speakers_Ok (l : list Speaker.t) :
  check_updated_speakers l = Ok tt ↔ l ≠ [] ∧ ∀ sp, sp ∈ l → Speaker.styles sp ≠ [].
Proof.
  unfold check_updated_speakers. rewrite <- check_styles_not_empty_Ok.
  destruct l as [|sp l]; simpl; [naive_solver|].
  split; [by intros ? | by intros [_ ?]].
Qed.

(** An empty list of speakers, or a speaker without styles, is an error
    of its own kind, never a warning. *)
Lemma check_updated_speakers_Err (l : list Speaker.t) e :
  check_updated_speakers l = Err e →
  (l = [] ∧ e = UpdatedSpeakersEmpty)
  ∨ ∃ sp, sp ∈ l ∧ Speaker.styles sp = []
          ∧ e = UpdatedStylesEmpty (Speaker.name sp) (Speaker.local_id sp).
Proof.
  unfold check_updated_speakers. destruct l as [|sp0 l0]; simpl.
  - intros [= <-]. by left.
  - intros He. right. unfold check_styles_not_empty in He.
    revert He. generalize (sp0 :: l0) as l. intros l.
    induction l as [|sp l IH]; simpl; [done|].
    destruct (Speaker.styles sp) eqn:E; simpl.
    + intros [= <-]. exists sp. split; [left | done].
    + intros (sp' & ? & ?)%IH. exists sp'. split; [by right | done].
Qed.

(** What a successful update returns. *)
Lemma update_Ok n existing file style_vectors_file md ws :
  updateAivmMetadata n existing file style_vectors_file = Ok (md, ws) →
  let hp := AivmMetadata.hyper_parameters md in
  let speakers := Manifest.speakers (AivmMetadata.manifest existing) in
  StyleBertVITS2HyperParametersSchema_parse file = Some hp
  ∧ spk2id hp ≠ [] ∧ style2id hp ≠ []
  ∧ AivmMetadata.style_vectors md = style_vectors_file
  ∧ AivmMetadata.manifest md =
      Manifest.set_speakers (reconcile_speakers n speakers hp []).1
        (Manifest.set_model_architecture (architecture_of hp)
           (AivmMetadata.manifest existing))
  ∧ ws = (reconcile_speakers n speakers hp []).2
  ∧ check_updated_speakers (reconcile_speakers n speakers hp []).1 = Ok tt.
Proof.
  unfold updateAivmMetadata.
  destruct (loadAndValidateHyperParametersAndStyleVectors _ _ _) as [[hp sv]|] eqn:E;
    [|done].
  apply load_Ok in E as (-> & Hparse & -> & Hspk & Hsty). simpl.
  destruct (reconcile_speakers _ _ _ _) as [updated_speakers warnings] eqn:Hr.
  destruct (check_updated_speakers updated_speakers) as [[]|] eqn:Hc; [|done].
  simpl. intros [= <- <-]. simpl. by rewrite Hr.
Qed.

(** The speakers of a successful update, in closed form. *)
Lemma update_speakers n existing file style_vectors_file md ws :
  updateAivmMetadata n existing file style_vectors_file = Ok (md, ws) →
  let hp := AivmMetadata.hyper_parameters md in
  let speakers := Manifest.speakers (AivmMetadata.manifest existing) in
  Manifest.speakers (AivmMetadata.manifest md) =
    (updated_speaker hp <$> retained_speakers hp speakers)
    ++ imap (λ i e, new_speaker hp (n + i) e) (added_speakers hp speakers).
Proof.
  intros (_ & _ & _ & _ & -> & _ & _)%update_Ok. simpl.
  by rewrite reconcile_speakers_spec.
Qed.

(** C8. The manifest [updateAivmMetadata] returns has at least one
    speaker and every speaker of it has at least one style: the two checks
    after the loops have passed, and a list they reject is rejected by an
    error ([UpdatedSpeakersEmpty], [UpdatedStylesEmpty]), not reported as
    a warning. *)
Theorem update_result_not_empty n existing file style_vectors_file md ws :
  updateAivmMetadata n existing file style_vectors_file = Ok (md, ws) →
  let updated := Manifest.speakers (AivmMetadata.manifest md) in
  updated ≠ []
  ∧ (∀ sp, sp ∈ updated → Speaker.styles sp ≠ [])
  ∧ check_updated_speakers updated = Ok tt
  ∧ check_updated_speakers [] = Err UpdatedSpeakersEmpty
  ∧ ∀ (l : list Speaker.t) sp,
      sp ∈ l → Speaker.styles sp = [] →
      ∃ sp', sp' ∈ l ∧ Speaker.styles sp' = []
             ∧ check_updated_speakers l
               = Err (UpdatedStylesEmpty (Speaker.name sp') (Speaker.local_id sp')).
Proof.
  intros Hup. pose proof Hup as (_ & _ & _ & _ & Hm & _ & Hc)%update_Ok.
  simpl. rewrite Hm. simpl.
  pose proof Hc as [Hne Hst]%check_updated_speakers_Ok.
  repeat split; [done | done | done |].
  intros l sp Hin Hnil.
  destruct (check_updated_speakers l) as [[]|e] eqn:El.
  - apply check_updated_speakers_Ok in El as [_ Hall]. by destruct (Hall sp Hin).
  - apply check_updated_speakers_Err in El as [[-> _]|(sp' & Hin' & Hnil' & ->)].
    + by apply elem_of_nil in Hin.
    + by exists sp'.
Qed.

End UpdateResult.

Section UpdateStyles.
Context `{!Platform}.
Implicit Types (hp : HyperParameters.t) (sp : Speaker.t) (st : Style.t).

Lemma elem_of_updated_styles hp sp st :
  st ∈ updated_styles hp sp ↔
    (st ∈ Speaker.styles sp ∧ Style.local_id st ∈ ids (style2id hp))
    ∨ ∃ e, e ∈ added_styles hp sp ∧ st = created_style (style2id hp) e.1 e.2.
Proof.
  unfold updated_styles, retained_styles.
  rewrite elem_of_app, list_elem_of_filter, list_elem_of_fmap. naive_solver.
Qed.

Lemma elem_of_added_styles hp sp e :
  e ∈ added_styles hp sp ↔
    e ∈ style2id hp ∧ ∀ st, st ∈ Speaker.styles sp → Style.local_id st ≠ e.2.
Proof.
  unfold added_styles, retained_styles.
  rewrite list_elem_of_filter, list_elem_of_fmap.
  split.
  - intros [Hn He]. split; [done|]. intros st Hst Heq. apply Hn.
    exists st. split; [done|]. apply list_elem_of_filter. split; [|done].
    rewrite Heq. unfold ids. apply list_elem_of_fmap. by exists e.
  - intros [He Hn]. split; [|done]. intros (st & Heq & Hst).
    apply list_elem_of_filter in Hst as [_ Hst]. by apply (Hn st).
Qed.

(** The two loops never leave the list of speakers, or the styles of a
    speaker, empty when both maps of the new hyper-parameters have an
    entry: the checks after the loops cannot fail. *)
Lemma reconcile_speakers_not_empty n existing hp w0 :
  spk2id hp ≠ [] → style2id hp ≠ [] →
  check_updated_speakers (reconcile_speakers n existing hp w0).1 = Ok tt.
Proof.
  intros Hspk Hsty. rewrite reconcile_speakers_spec. simpl.
  apply check_updated_speakers_Ok. split.
  - destruct (spk2id hp) as [|e l] eqn:E; [done|].
    destruct (decide (e.2 ∈ Speaker.local_id <$> retained_speakers hp existing)) as [Hin|Hn].
    + destruct (retained_speakers hp existing); [by apply elem_of_nil in Hin | done].
    + unfold added_speakers. rewrite E, filter_cons, decide_True by done.
      simpl. by destruct (updated_speaker hp <$> _).
  - intros sp [Hsp|Hsp]%elem_of_app.
    + apply list_elem_of_fmap in Hsp as (sp0 & -> & _). simpl.
      unfold updated_styles.
      destruct (style2id hp) as [|e l] eqn:E; [done|].
      destruct (decide (e.2 ∈ Style.local_id <$> retained_styles hp sp0)) as [Hin|Hn].
      * destruct (retained_styles hp sp0); [by apply elem_of_nil in Hin | done].
      * unfold added_styles. rewrite E, filter_cons, decide_True by done.
        simpl. by destruct (retained_styles hp sp0).
    + apply elem_of_lookup_imap in Hsp as (i & e & -> & _). simpl.
      by destruct (style2id hp).
Qed.

(** C2. A speaker of the existing manifest whose [local_id] is an
    identifier of the new [spk2id] stays, with its name, icon, uuid and
    [local_id]. Each of its styles whose [local_id] is an identifier of
    the new [style2id] stays as it is (name, icon, [local_id], voice
    samples): the name of the style plays no part. Each of its styles whose
    [local_id] is not an identifier of the new [style2id] is absent from
    the result, and a warning names the speaker and the style. *)
Theorem update_retains_styles_by_local_id n existing file style_vectors_file md ws :
  updateAivmMetadata n existing file style_vectors_file = Ok (md, ws) →
  let hp := AivmMetadata.hyper_parameters md in
  ∀ sp, sp ∈ Manifest.speakers (AivmMetadata.manifest existing) →
        Speaker.local_id sp ∈ ids (spk2id hp) →
  ∃ sp', sp' ∈ Manifest.speakers (AivmMetadata.manifest md)
    ∧ Speaker.uuid sp' = Speaker.uuid sp
    ∧ Speaker.name sp' = Speaker.name sp
    ∧ Speaker.icon sp' = Speaker.icon sp
    ∧ Speaker.local_id sp' = Speaker.local_id sp
    ∧ ∀ st, st ∈ Speaker.styles sp →
        (Style.local_id st ∈ ids (style2id hp) → st ∈ Speaker.styles sp')
        ∧ (Style.local_id st ∉ ids (style2id hp) →
           (st ∉ Speaker.styles sp')
           ∧ (StyleRemoved (Speaker.name sp) (Style.name st) (Style.local_id st) ∈ ws)).
Proof.
  intros Hup hp sp Hsp Hid.
  pose proof Hup as Hspeakers%update_speakers.
  pose proof Hup as (_ & _ & _ & _ & _ & Hws & _)%update_Ok.
  fold hp in Hspeakers, Hws. rewrite reconcile_speakers_spec in Hws. simpl in Hws.
  exists (updated_speaker hp sp). split.
  { rewrite Hspeakers. apply elem_of_app. left. apply list_elem_of_fmap.
    exists sp. split; [done|]. apply list_elem_of_filter. by split. }
  do 4 (split; [done|]).
  intros st Hst. simpl. split.
  - intros Hin. apply elem_of_updated_styles. left. by split.
  - intros Hn. split.
    + intros [[_ ?]|(e & [He _]%elem_of_added_styles & ->)]%elem_of_updated_styles;
        [done|].
      apply Hn. simpl. unfold ids. apply list_elem_of_fmap. by exists e.
    + rewrite Hws. apply elem_of_app. left.
      apply list_elem_of_In, in_concat.
      exists (speaker_warnings hp sp). split.
      * apply list_elem_of_In, list_elem_of_fmap. by exists sp.
      * apply list_elem_of_In. unfold speaker_warnings.
        rewrite decide_True by done. apply elem_of_app. left.
        apply list_elem_of_fmap. exists st. split; [done|].
        apply list_elem_of_filter. by split.
Qed.

End UpdateStyles.

(** ** The name of a created style *)

Section NeutralRule.
Context `{!Platform}.

(** C7. A style that [generateAivmMetadata] or [updateAivmMetadata]
    creates from an entry of [style2id] is named ["ノーマル"] when the
    entry is named ["Neutral"] and no entry of that map is named
    ["ノーマル"]; otherwise it keeps the name of its entry. In a generated
    manifest the styles of every speaker are the entries of [style2id], in
    order; in an updated manifest a style is either a style of the
    existing manifest or one created from an entry of the new [style2id]. *)
Theorem neutral_renamed_unless_normal_taken
    n model_architecture file style_vectors_file md existing md' ws :
  (generateAivmMetadata n model_architecture file style_vectors_file = Ok md →
   ∀ speaker, speaker ∈ Manifest.speakers (AivmMetadata.manifest md) →
   ∀ j style_name,
     Object_keys (style2id (AivmMetadata.hyper_parameters md)) !! j = Some style_name →
     ∃ style, Speaker.styles speaker !! j = Some style
       ∧ Style.name style =
           if decide (style_name = "Neutral"
                      ∧ "ノーマル" ∉ Object_keys (style2id (AivmMetadata.hyper_parameters md)))
           then "ノーマル" else style_name)
  ∧ (updateAivmMetadata n existing file style_vectors_file = Ok (md', ws) →
     ∀ speaker, speaker ∈ Manifest.speakers (AivmMetadata.manifest md') →
     ∀ style, style ∈ Speaker.styles speaker →
       (∃ sp, sp ∈ Manifest.speakers (AivmMetadata.manifest existing)
              ∧ style ∈ Speaker.styles sp)
       ∨ ∃ style_name id,
           (style_name, id) ∈ style2id (AivmMetadata.hyper_parameters md')
           ∧ style =
               {| Style.name :=
                    if decide (style_name = "Neutral"
                               ∧ "ノーマル" ∉ Object_keys
                                    (style2id (AivmMetadata.hyper_parameters md')))
                    then "ノーマル" else style_name;
                  Style.icon := None;
                  Style.local_id := id;
                  Style.voice_samples := [] |}).
Proof.
  split.
  - intros [_ Hsp]%generate_Ok speaker (i & Hi)%list_elem_of_lookup j style_name Hj.
    rewrite Hsp in Hi.
    destruct (Object_keys (spk2id _) !! i) as [speaker_name|]; [|done].
    simpl in Hi. injection Hi as <-. simpl.
    rewrite list_lookup_imap, Hj. simpl. eexists. split; [done|]. simpl.
    apply new_style_name_spec.
  - intros Hup speaker Hspeaker style Hstyle.
    apply update_speakers in Hup. rewrite Hup in Hspeaker.
    set (hp := AivmMetadata.hyper_parameters md') in *.
    assert (∀ e : string * Z, e ∈ style2id hp →
      ∃ style_name id, (style_name, id) ∈ style2id hp
        ∧ created_style (style2id hp) e.1 e.2 =
            {| Style.name :=
                 if decide (style_name = "Neutral" ∧ "ノーマル" ∉ Object_keys (style2id hp))
                 then "ノーマル" else style_name;
               Style.icon := None; Style.local_id := id; Style.voice_samples := [] |})
      as Hcreated.
    { intros [style_name id] He. exists style_name, id. split; [done|].
      unfold created_style. simpl. by rewrite new_style_name_spec. }
    apply elem_of_app in Hspeaker as [Hsp|Hsp].
    + apply list_elem_of_fmap in Hsp as (sp & -> & Hsp).
      apply list_elem_of_filter in Hsp as [_ Hsp]. simpl in Hstyle.
      apply elem_of_updated_styles in Hstyle as [[Hst _]|(e & He & ->)].
      * left. by exists sp.
      * right. apply Hcreated. by apply elem_of_added_styles in He as [He _].
    + apply elem_of_lookup_imap in Hsp as (i & e & -> & _). simpl in Hstyle.
      apply list_elem_of_fmap in Hstyle as ([style_name id] & -> & He).
      right. by apply (Hcreated (style_name, id)).
Qed.

End NeutralRule.

(** ** Runs on the sample platform *)

Module Runs.

Definition value {A} (otherwise : A) (r : Result A) : A :=
  match r with
  | Ok a => a
  | Err _ => otherwise
  end.

Definition generate (file : string) : Result AivmMetadata.t :=
  @generateAivmMetadata Sample.platform 0 "Style-Bert-VITS2" file
    (Some Inputs.style_vectors).

Definition generated_a : AivmMetadata.t :=
  Eval vm_compute in value Inputs.existing (generate Inputs.scenario_a).
Definition generated_b : AivmMetadata.t :=
  Eval vm_compute in value Inputs.existing (generate Inputs.scenario_b).
Definition generated_shifted : AivmMetadata.t :=
  Eval vm_compute in value Inputs.existing (generate Inputs.shifted_ids).

Definition update : Result (AivmMetadata.t * list Warning) :=
  @updateAivmMetadata Sample.platform 10 Inputs.existing Inputs.replacement
    (Some Inputs.style_vectors).

Definition updated : AivmMetadata.t * list Warning :=
  Eval vm_compute in value (Inputs.existing, []) update.

Definition speaker_of (md : AivmMetadata.t) : Speaker.t :=
  default (Inputs.speaker "" "" 0 []) (head (Manifest.speakers (AivmMetadata.manifest md))).

Definition style_names (md : AivmMetadata.t) : list string :=
  Style.name <$> Speaker.styles (speaker_of md).

End Runs.

(** With [spk2id = {"Alice": 5}] and [style2id = {"Neutral": 3}] the
    generated speaker and style both have [local_id] 0. *)
Lemma generate_local_id_is_position_witness :
  Runs.generate Inputs.shifted_ids = Ok Runs.generated_shifted
  ∧ spk2id (AivmMetadata.hyper_parameters Runs.generated_shifted) = [("Alice", 5)]
  ∧ style2id (AivmMetadata.hyper_parameters Runs.generated_shifted) = [("Neutral", 3)]
  ∧ Speaker.local_id (Runs.speaker_of Runs.generated_shifted) = 0
  ∧ Style.local_id <$> Speaker.styles (Runs.speaker_of Runs.generated_shifted) = [0].
Proof.
  assert (Runs.generate Inputs.shifted_ids = Ok Runs.generated_shifted) as Hgen
    by (vm_compute; reflexivity).
  split; [exact Hgen|].
  split; [reflexivity|]. split; [reflexivity|].
  destruct (generate_local_id_is_position (H := Sample.platform)
              0 "Style-Bert-VITS2" Inputs.shifted_ids (Some Inputs.style_vectors)
              Runs.generated_shifted Hgen
              0%nat (Runs.speaker_of Runs.generated_shifted) eq_refl) as (Hid & _ & _).
  split; [exact Hid | reflexivity].
Defined.

(** Scenario A and scenario B. *)
Lemma neutral_renamed_unless_normal_taken_witness :
  Runs.generate Inputs.scenario_a = Ok Runs.generated_a
  ∧ Runs.style_names Runs.generated_a = ["ノーマル"]
  ∧ Runs.generate Inputs.scenario_b = Ok Runs.generated_b
  ∧ Runs.style_names Runs.generated_b = ["Neutral"; "ノーマル"]
  ∧ Runs.update = Ok Runs.updated
  ∧ Runs.style_names Runs.updated.1 = ["ノーマル"; "Happy"; "Angry"]
  ∧ ∃ style, Speaker.styles (Runs.speaker_of Runs.generated_a) !! 0%nat = Some style
             ∧ Style.name style = "ノーマル".
Proof.
  assert (Runs.generate Inputs.scenario_a = Ok Runs.generated_a) as Hgen
    by (vm_compute; reflexivity).
  assert (Runs.update = Ok Runs.updated) as Hup by (vm_compute; reflexivity).
  split; [exact Hgen|]. split; [reflexivity|].
  split; [vm_compute; reflexivity|]. split; [reflexivity|].
  split; [exact Hup|]. split; [reflexivity|].
  destruct (neutral_renamed_unless_normal_taken (H := Sample.platform)
              0 "Style-Bert-VITS2" Inputs.scenario_a (Some Inputs.style_vectors)
              Runs.generated_a Inputs.existing Runs.updated.1 Runs.updated.2)
    as [Hrule _].
  destruct (Hrule Hgen (Runs.speaker_of Runs.generated_a)
              ltac:(vm_compute; left) 0%nat "Neutral" eq_refl)
    as (style & Hstyle & Hname).
  exists style. split; [exact Hstyle|]. rewrite Hname. reflexivity.
Defined.

(** The update of the sample aggregate keeps Alice and her styles 0 and
    1 under their old names, and drops style 2 with a warning. *)
Lemma update_retains_styles_by_local_id_witness :
  Runs.update = Ok Runs.updated
  ∧ Runs.style_names Runs.updated.1 = ["ノーマル"; "Happy"; "Angry"]
  ∧ Runs.updated.2 = [StyleRemoved "Alice" "Sad" 2; StyleAdded "Alice" "Angry" 7]
  ∧ ∃ sp', sp' ∈ Manifest.speakers (AivmMetadata.manifest Runs.updated.1)
      ∧ Speaker.uuid sp' = "4a1a8e9e-0000-4000-8000-000000000002"
      ∧ Speaker.name sp' = "Alice"
      ∧ (Inputs.style "Happy" 1 ∈ Speaker.styles sp')
      ∧ (Inputs.style "Sad" 2 ∉ Speaker.styles sp')
      ∧ (StyleRemoved "Alice" "Sad" 2 ∈ Runs.updated.2).
Proof.
  assert (Runs.update = Ok Runs.updated) as Hup by (vm_compute; reflexivity).
  split; [exact Hup|]. split; [reflexivity|]. split; [reflexivity|].
  destruct (update_retains_styles_by_local_id (H := Sample.platform)
              10 Inputs.existing Inputs.replacement (Some Inputs.style_vectors)
              Runs.updated.1 Runs.updated.2 Hup
              (Runs.speaker_of Inputs.existing)
              ltac:(vm_compute; left) ltac:(vm_compute; left))
    as (sp' & Hin & Huuid & Hname & _ & _ & Hstyles).
  exists sp'. split; [exact Hin|]. split; [exact Huuid|]. split; [exact Hname|].
  destruct (Hstyles (Inputs.style "Happy" 1) ltac:(vm_compute; right; left)) as [Hkeep _].
  destruct (Hstyles (Inputs.style "Sad" 2) ltac:(vm_compute; right; right; left))
    as [_ Hdrop].
  split; [apply Hkeep; vm_compute; right; left|].
  apply Hdrop. vm_compute. intros Hin'.
  repeat (apply elem_of_cons in Hin' as [Heq|Hin']; [discriminate Heq|]).
  by apply elem_of_nil in Hin'.
Defined.

Lemma update_result_not_empty_witness :
  Runs.update = Ok Runs.updated
  ∧ Manifest.speakers (AivmMetadata.manifest Runs.updated.1) ≠ []
  ∧ (∀ sp, sp ∈ Manifest.speakers (AivmMetadata.manifest Runs.updated.1) →
           Speaker.styles sp ≠ [])
  ∧ check_updated_speakers [Inputs.speaker "Alice" "" 0 []]
    = Err (UpdatedStylesEmpty "Alice" 0).
Proof.
  assert (Runs.update = Ok Runs.updated) as Hup by (vm_compute; reflexivity).
  destruct (update_result_not_empty (H := Sample.platform)
              10 Inputs.existing Inputs.replacement (Some Inputs.style_vectors)
              Runs.updated.1 Runs.updated.2 Hup)
    as (Hne & Hstyles & _).
  split; [exact Hup|]. split; [exact Hne|]. split; [exact Hstyles | reflexivity].
Defined.

(** ** The update of the earlier revision *)

Section EarlierUpdate.
Context `{!Platform}.

(** A name is recorded as processed only together with a retained style. *)
Lemma earlier_retain_styles_processed new_style2id existing_speaker warnings :
  (Earlier.retain_styles new_style2id existing_speaker warnings).1.2 = [] →
  (Earlier.retain_styles new_style2id existing_speaker warnings).1.1 = ∅.
Proof.
  unfold Earlier.retain_styles.
  generalize (Speaker.styles existing_speaker) as styles.
  assert (∀ styles (state : gset string * list Earlier.UpdatedStyle.t * list Earlier.Warning),
    (state.1.2 = [] → state.1.1 = ∅) →
    let state' :=
      foldl (λ '(processed_new_style_raw_names, updated_styles, warnings) existing_style,
           let existing_style_name := Style.name existing_style in
           let dropped :=
             (processed_new_style_raw_names, updated_styles,
              warnings ++ [Earlier.StyleRemoved (Speaker.name existing_speaker) existing_style_name]) in
           match Earlier.style_name_raw_in_new new_style2id existing_style_name with
           | Some raw =>
               if Js.has_property raw new_style2id then
                 let new_style_local_id := Js.read raw new_style2id in
                 (processed_new_style_raw_names ∪ {[raw]},
                  updated_styles ++ [Earlier.with_local_id new_style_local_id existing_style],
                  warnings)
               else dropped
           | None => dropped
           end) state styles in
    state'.1.2 = [] → state'.1.1 = ∅) as Hgen.
  { induction styles as [|st styles IH]; intros [[names updated] ws] Hinv; [done|].
    cbn [foldl]. apply IH.
    destruct (Earlier.style_name_raw_in_new _ _) as [raw|]; [|done].
    destruct (Js.has_property raw _); [|done].
    simpl. by intros ?%app_nil_r_inv. }
  intros styles. by apply Hgen.
Qed.


(** Every name of the new [style2id] is either processed or given a
    created style: with one entry or more the styles are not empty. *)
Lemma earlier_add_styles_not_empty new_style2id existing_speaker names updated warnings :
  new_style2id ≠ [] →
  (updated = [] → names = ∅) →
  (Earlier.add_styles new_style2id existing_speaker names updated warnings).1 ≠ [].
Proof.
  unfold Earlier.add_styles, Object_entries.
  assert (∀ entries (state : list Earlier.UpdatedStyle.t * list Earlier.Warning),
    state.1 ≠ [] →
    (foldl (λ '(updated_styles, warnings) '(style_name, new_style_local_id),
           if bool_decide (style_name ∈ names)
           then (updated_styles, warnings)
           else (updated_styles ++ [Earlier.created_style new_style2id style_name new_style_local_id],
                 warnings ++ [Earlier.StyleAdded (Speaker.name existing_speaker)
                                (new_style_name new_style2id style_name)]))
        state entries).1 ≠ []) as Hgrow.
  { induction entries as [|[style_name id] entries IH]; intros [styles ws] Hne; [done|].
    cbn [foldl]. apply IH. case_bool_decide; [done|].
    simpl. by intros ?%app_nil_r_inv. }
  intros Hne Hinv. revert Hne.
  set (step := λ '(updated_styles, warnings) '(style_name, new_style_local_id), _) in *.
  generalize new_style2id as entries.
  intros [|[style_name id] entries] Hne; [done|].
  cbn [foldl]. apply Hgrow. unfold step at 1. case_bool_decide as Hin.
  - simpl. intros ->. rewrite Hinv in Hin by done. set_solver.
  - simpl. by intros ?%app_nil_r_inv.
Qed.

(** What the loop over the existing speakers maintains: every speaker
    kept so far has a style, and an identifier is recorded as processed
    only together with a kept speaker. *)
Definition earlier_update_invariant
    (state : gset Z * list Earlier.UpdatedSpeaker.t * list Earlier.Warning) : Prop :=
  (∀ sp, sp ∈ state.1.2 → Earlier.UpdatedSpeaker.styles sp ≠ [])
  ∧ (state.1.2 = [] → state.1.1 = ∅).

Lemma earlier_update_speaker_invariant hp map state existing_speaker :
  style2id hp ≠ [] →
  earlier_update_invariant state →
  earlier_update_invariant (Earlier.update_speaker hp map state existing_speaker).
Proof.
  intros Hst. destruct state as [[ids speakers] ws]. intros [Hall Hids].
  unfold Earlier.update_speaker.
  destruct (Map_has map _); [|done].
  pose proof (earlier_retain_styles_processed (style2id hp) existing_speaker ws) as Hret.
  destruct (Earlier.retain_styles _ _ _) as [[names styles] ws1].
  pose proof (earlier_add_styles_not_empty (style2id hp) existing_speaker
                names styles ws1 Hst Hret) as Hadd.
  destruct (Earlier.add_styles _ _ _ _ _) as [styles' ws2].
  case_bool_decide; (split; simpl;
    [ intros sp [?| ->%list_elem_of_singleton]%elem_of_app; [by apply Hall | done]
    | by intros ?%app_nil_r_inv ]).
Qed.

Lemma earlier_update_speakers_invariant hp map speakers state :
  style2id hp ≠ [] →
  earlier_update_invariant state →
  earlier_update_invariant (foldl (Earlier.update_speaker hp map) state speakers).
Proof.
  intros Hst. revert state.
  induction speakers as [|sp speakers IH]; intros state Hinv; [done|].
  cbn [foldl]. by apply IH, earlier_update_speaker_invariant.
Qed.

(** The loop over the new [spk2id] adds a speaker with one style for each
    entry of [style2id], for every identifier not processed. *)
Lemma earlier_add_speakers_not_empty hp ids speakers warnings n :
  spk2id hp ≠ [] → style2id hp ≠ [] →
  earlier_update_invariant (ids, speakers, warnings) →
  let updated := (Earlier.add_speakers hp ids (speakers, warnings, n)).1.1 in
  updated ≠ [] ∧ ∀ sp, sp ∈ updated → Earlier.UpdatedSpeaker.styles sp ≠ [].
Proof.
  intros Hsp Hst [Hall Hids]. simpl in Hall, Hids.
  unfold Earlier.add_speakers, Object_entries.
  set (step := λ '(updated_speakers, warnings, n) '(new_speaker_name, new_local_id), _).
  assert (∀ entries (state : list Earlier.UpdatedSpeaker.t * list Earlier.Warning * nat),
    (∀ sp, sp ∈ state.1.1 → Earlier.UpdatedSpeaker.styles sp ≠ []) →
    (∀ sp, sp ∈ (foldl step state entries).1.1 → Earlier.UpdatedSpeaker.styles sp ≠ [])
    ∧ (state.1.1 ≠ [] → (foldl step state entries).1.1 ≠ [])) as Hgrow.
  { induction entries as [|[name id] entries IH]; intros [[sps ws] k] Hsps; [done|].
    cbn [foldl]. unfold step at 2 4. destruct (Set_has ids id).
    - by apply IH.
    - edestruct IH as [IH1 IH2]; [|split; [exact IH1|]].
      + simpl. intros sp [?| ->%list_elem_of_singleton]%elem_of_app; [by apply Hsps|].
        simpl. unfold Object_entries. by destruct (style2id hp).
      + intros _. apply IH2. simpl. by intros ?%app_nil_r_inv. }
  destruct (Hgrow (spk2id hp) (speakers, warnings, n) Hall) as [H1 H2].
  split; [|exact H1].
  destruct (decide (speakers = [])) as [->|Hne]; [|by apply H2].
  destruct (spk2id hp) as [|[name id] entries]; [done|].
  cbn [foldl]. unfold step at 2. unfold Set_has.
  rewrite Hids by done. rewrite bool_decide_eq_false_2 by set_solver.
  apply Hgrow; simpl; [|done].
  intros sp ->%list_elem_of_singleton. simpl. unfold Object_entries.
  by destruct (style2id hp).
Qed.

(** X24. The earlier revision of [updateAivmMetadata] has no check
    after the loops and needs none: what it returns has a speaker, and
    every speaker a style, since the hyper-parameters it accepts have a
    speaker and a style and every entry of the new maps is either matched
    or added. *)
Lemma earlier_update_result_not_empty n existing file style_vectors_file md ws :
  Earlier.updateAivmMetadata n existing file style_vectors_file = Ok (md, ws) →
  Earlier.UpdatedManifest.speakers (Earlier.UpdatedMetadata.manifest md) ≠ []
  ∧ ∀ sp, sp ∈ Earlier.UpdatedManifest.speakers (Earlier.UpdatedMetadata.manifest md) →
          Earlier.UpdatedSpeaker.styles sp ≠ [].
Proof.
  unfold Earlier.updateAivmMetadata.
  destruct (is_style_bert_vits2 _); [|done].
  destruct (Earlier.parse_hyper_parameters_file _ _) as [hp|]; [|done]. simpl.
  destruct style_vectors_file as [sv|]; [|done]. simpl.
  destruct (Earlier.check_speakers_and_styles hp) as [[]|] eqn:Hc; [|done]. simpl.
  assert (spk2id hp ≠ [] ∧ style2id hp ≠ []) as [Hsp Hst].
  { unfold Earlier.check_speakers_and_styles in Hc.
    destruct (require (negb (List.length (Object_keys (spk2id hp)) =? 0)%nat) _)
      as [[]|] eqn:E1; [|done].
    simpl in Hc.
    destruct (require (negb (List.length (Object_keys (style2id hp)) =? 0)%nat) _)
      as [[]|] eqn:E2; [|done].
    apply require_Ok in E1, E2. split; intros E; [rewrite E in E1 | rewrite E in E2]; done. }
  unfold Earlier.reconcile_speakers.
  pose proof (earlier_update_speakers_invariant hp (id_to_name_map (spk2id hp))
    (Manifest.speakers (AivmMetadata.manifest existing)) (∅, [], []) Hst) as Hinv.
  destruct (foldl _ _ _) as [[ids speakers] ws1].
  pose proof (earlier_add_speakers_not_empty hp ids speakers ws1 n Hsp Hst) as Hadd.
  destruct (Earlier.add_speakers _ _ _) as [[updated ws2] k].
  intros [= <- <-]. simpl. apply Hadd, Hinv.
  split; [by intros ? ?%elem_of_nil | done].
Qed.

End EarlierUpdate.

(** The earlier revision on the sample aggregate: the style [Happy] is
    dropped although its [local_id] 1 is an identifier of the new
    [style2id], because no entry of the new map has its name, and the
    entry [Joy] with that identifier comes as a created style. *)
Example earlier_update_matches_styles_by_name :
  match @Earlier.updateAivmMetadata Sample.platform 10 Inputs.existing
          Inputs.replacement (Some Inputs.style_vectors) with
  | Ok (md, ws) =>
      Some ((λ sp, Earlier.UpdatedStyle.name <$> Earlier.UpdatedSpeaker.styles sp)
              <$> Earlier.UpdatedManifest.speakers (Earlier.UpdatedMetadata.manifest md),
            ws)
  | Err _ => None
  end
  = Some ([["ノーマル"; "Joy"; "Angry"]],
          [Earlier.StyleRemoved "Alice" "Happy"; Earlier.StyleRemoved "Alice" "Sad";
           Earlier.StyleAdded "Alice" "Joy"; Earlier.StyleAdded "Alice" "Angry"]).
Proof. vm_compute. reflexivity. Qed.

(** ** applyAivmManifestToHyperParameters *)

Section Apply.
Implicit Types (o : JsObject Z) (entries : list (string * Z)) (p : Z → bool).

(** Whether the rebuilt map takes an entry with this [local_id]: the
    test [if (old_key)] of the source. *)
Definition kept o (local_id : Z) : bool := truthy_string (find_key_of_id o local_id).

(** The loop that rebuilds a map, over the (name, local_id) pairs of the
    manifest in the order the source visits them. *)
Definition rebuild p entries : JsObject Z :=
  foldl (λ new e, if p e.2 then Js.set e.1 e.2 new else new) [] entries.

Definition speaker_entries (m : Manifest.t) : list (string * Z) :=
  (λ sp, (Speaker.name sp, Speaker.local_id sp)) <$> Manifest.speakers m.

Definition style_entries (m : Manifest.t) : list (string * Z) :=
  Manifest.speakers m ≫= λ sp,
    (λ st, (Style.name st, Style.local_id st)) <$> Speaker.styles sp.

Lemma rebuild_spk2id_eq m o : rebuild_spk2id m o = rebuild (kept o) (speaker_entries m).
Proof.
  unfold rebuild_spk2id, rebuild, speaker_entries.
  generalize (@nil (string * Z)) as acc.
  induction (Manifest.speakers m) as [|sp l IH]; intros acc; simpl; [done|].
  by rewrite IH.
Qed.

Lemma rebuild_style2id_eq m o : rebuild_style2id m o = rebuild (kept o) (style_entries m).
Proof.
  unfold rebuild_style2id, rebuild, style_entries.
  generalize (@nil (string * Z)) as acc.
  induction (Manifest.speakers m) as [|sp l IH]; intros acc; simpl; [done|].
  rewrite foldl_app, <- IH. f_equal.
  generalize acc. induction (Speaker.styles sp) as [|st l' IH']; intros acc'; simpl; [done|].
  by rewrite IH'.
Qed.

(** The loop assigns to an object that begins as [{}]: it never has an
    own [__proto__]. *)
Lemma rebuild_no_proto p entries : "__proto__" ∉ Object_keys (rebuild p entries).
Proof.
  unfold rebuild.
  induction entries as [|e entries IH] using rev_ind; [apply not_elem_of_nil|].
  rewrite foldl_app. simpl. destruct (p e.2); [by apply set_keeps_no_proto | done].
Qed.

(** The binding of a name in the rebuilt map: the last pair of that name
    the loop takes. A pair whose name is [__proto__] leaves no property. *)
Definition binding p (k : string) entries : option (string * Z) :=
  List.find (λ e : string * Z, bool_decide (e.1 = k) && assignable e.1 && p e.2)
            (rev entries).

Lemma get_rebuild p entries k :
  Js.get k (rebuild p entries) = snd <$> binding p k entries.
Proof.
  unfold binding.
  induction entries as [|e entries IH] using rev_ind; [done|].
  pose proof (rebuild_no_proto p entries) as Hnone. unfold rebuild in *.
  rewrite foldl_app, rev_app_distr. simpl.
  destruct (p e.2); simpl.
  - rewrite get_set, IH by done. rewrite andb_true_r.
    by destruct (bool_decide (e.1 = k) && assignable e.1).
  - by rewrite andb_false_r.
Qed.

Lemma NoDup_keys_rebuild p entries : NoDup (Object_keys (rebuild p entries)).
Proof.
  unfold rebuild.
  induction entries as [|e entries IH] using rev_ind; [constructor|].
  rewrite foldl_app. simpl. destruct (p e.2); [by apply NoDup_keys_set | done].
Qed.

Lemma binding_Some p k entries e :
  binding p k entries = Some e →
  e ∈ entries ∧ e.1 = k ∧ p e.2 = true ∧ k ≠ "__proto__".
Proof.
  unfold binding. intros [Hin Hp]%find_some.
  apply andb_true_iff in Hp as [[Hk%bool_decide_eq_true Ha%assignable_iff]%andb_true_iff Hp].
  split; [apply list_elem_of_In; by apply in_rev|]. split; [done|]. split; [done|].
  by rewrite <- Hk.
Qed.

Lemma find_key_of_id_Some o id k :
  find_key_of_id o id = Some k → k ∈ Object_keys o ∧ Js.get k o = Some id.
Proof.
  unfold find_key_of_id. intros [Hin Hk%bool_decide_eq_true]%find_some.
  split; [by apply list_elem_of_In | done].
Qed.

Lemma find_key_of_id_None o id k :
  find_key_of_id o id = None → Js.get k o ≠ Some id.
Proof.
  unfold find_key_of_id. intros Hnone Hget.
  assert (k ∈ Object_keys o) as Hin by (apply get_is_Some; eauto).
  apply list_elem_of_In in Hin.
  pose proof (find_none _ _ Hnone k Hin) as Hf. simpl in Hf.
  by rewrite bool_decide_eq_true_2 in Hf.
Qed.

(** When no key is empty, an identifier is kept exactly when the map
    binds some name to it. *)
Lemma kept_iff o id :
  "" ∉ Object_keys o →
  kept o id = true ↔ ∃ k, Js.get k o = Some id.
Proof.
  intros Hne. unfold kept. destruct (find_key_of_id o id) as [k|] eqn:E; simpl.
  - apply find_key_of_id_Some in E as [Hin Hget]. split; [by exists k|].
    intros _. apply negb_true_iff, bool_decide_eq_false. by intros ->.
  - split; [done|]. intros [k Hk]. by apply (find_key_of_id_None _ _ k) in E.
Qed.

Lemma keys_rebuild p entries k :
  k ∈ Object_keys (rebuild p entries) → k ∈ entries.*1.
Proof.
  intros [id Hid]%get_is_Some. rewrite get_rebuild in Hid.
  destruct (binding p k entries) as [e|] eqn:E; [|done].
  apply binding_Some in E as (Hin & <- & _).
  apply list_elem_of_fmap. by exists e.
Qed.

Lemma find_ext_first {A} (f g : A → bool) (l : list A) :
  (∀ x, g x = true → f x = true) →
  (∀ x, List.find f l = Some x → g x = true) →
  List.find g l = List.find f l.
Proof.
  intros Hgf. induction l as [|x l IH]; simpl; [done|].
  intros Hfirst. destruct (f x) eqn:Ef.
  - by rewrite (Hfirst x eq_refl).
  - destruct (g x) eqn:Eg; [by rewrite (Hgf x Eg) in Ef|]. by apply IH.
Qed.

(** Rebuilding from the rebuilt map gives the same bindings. *)
Lemma rebuild_twice_get o entries k :
  "" ∉ entries.*1 →
  Js.get k (rebuild (kept (rebuild (kept o) entries)) entries)
  = Js.get k (rebuild (kept o) entries).
Proof.
  intros Hne. set (once := rebuild (kept o) entries).
  assert ("" ∉ Object_keys once) as Hne'
    by (intros Hin; by apply keys_rebuild in Hin).
  rewrite get_rebuild. unfold once at 2. rewrite get_rebuild.
  unfold binding. f_equal.
  apply find_ext_first.
  - intros [n i]. simpl. intros [Hn Hk]%andb_true_iff. rewrite Hn. simpl.
    apply (kept_iff _ _ Hne') in Hk as [k' Hk'].
    unfold once in Hk'. rewrite get_rebuild in Hk'.
    destruct (binding (kept o) k' entries) as [e|] eqn:E; [|done].
    apply binding_Some in E as (_ & _ & Hp & _). simpl in Hk'. by injection Hk' as <-.
  - intros [n i] Hfind. simpl.
    pose proof Hfind as [_ [Hn Hp]%andb_true_iff]%find_some.
    simpl in Hn. rewrite Hn. simpl.
    apply andb_true_iff in Hn as [Hn%bool_decide_eq_true _]. simpl in Hn.
    apply (kept_iff _ _ Hne'). exists k. unfold once.
    rewrite get_rebuild. unfold binding. by rewrite Hfind.
Qed.

Lemma same_bindings_same_size (o1 o2 : JsObject Z) :
  NoDup (Object_keys o1) → NoDup (Object_keys o2) →
  (∀ k, Js.get k o1 = Js.get k o2) →
  List.length (Object_keys o1) = List.length (Object_keys o2).
Proof.
  intros Hd1 Hd2 Hget. apply Permutation_length, NoDup_Permutation; [done|done|].
  intros k. rewrite <- !get_is_Some. by rewrite Hget.
Qed.

Lemma rebuild_twice_size o entries :
  "" ∉ entries.*1 →
  List.length (Object_keys (rebuild (kept (rebuild (kept o) entries)) entries))
  = List.length (Object_keys (rebuild (kept o) entries)).
Proof.
  intros Hne. apply same_bindings_same_size; try apply NoDup_keys_rebuild.
  intros k. by apply rebuild_twice_get.
Qed.

(** Two loops that agree on the accumulators an invariant admits. *)
Lemma foldl_ext_invariant {A B} (I : A → Prop) (f g : A → B → A) (a : A) (l : list B) :
  I a →
  (∀ a x, I a → x ∈ l → f a x = g a x ∧ I (g a x)) →
  foldl f a l = foldl g a l.
Proof.
  revert a. induction l as [|x l IH]; intros a Ha Hfg; simpl; [done|].
  destruct (Hfg a x Ha ltac:(left)) as [-> Hnext].
  apply IH; [done|]. intros a' x' Ha' Hx'. apply Hfg; [done | by right].
Qed.

(** When a name always comes with the same [local_id], the loop takes
    the same pairs both times, and the rebuilt map is the same, order of
    the keys included. *)
Lemma rebuild_twice_eq o entries :
  "" ∉ entries.*1 →
  (∀ n i j, (n, i) ∈ entries → (n, j) ∈ entries → i = j) →
  rebuild (kept (rebuild (kept o) entries)) entries = rebuild (kept o) entries.
Proof.
  intros Hne Hfun. set (once := rebuild (kept o) entries).
  assert ("" ∉ Object_keys once) as Hne'
    by (intros Hin; by apply keys_rebuild in Hin).
  unfold rebuild at 1. unfold once at 2. unfold rebuild.
  apply (foldl_ext_invariant (λ acc, "__proto__" ∉ Object_keys acc));
    [apply not_elem_of_nil|].
  intros acc [n i] Hacc Hin. simpl.
  split; [|destruct (kept o i); [by apply set_keeps_no_proto | done]].
  destruct (assignable n) eqn:Hn.
  2: { rewrite set_not_assignable by done. by destruct (kept once i), (kept o i). }
  assert (kept once i = kept o i) as ->; [|done].
  destruct (kept o i) eqn:Ek.
  - apply (kept_iff _ _ Hne'). exists n. unfold once. rewrite get_rebuild.
    destruct (binding (kept o) n entries) as [[n' j]|] eqn:E.
    + apply binding_Some in E as (Hin' & Hn' & _). simpl in *. subst n'.
      by rewrite (Hfun n i j Hin Hin').
    + unfold binding in E. apply list_elem_of_In, in_rev in Hin.
      pose proof (find_none _ _ E _ Hin) as Hf. simpl in Hf.
      by rewrite bool_decide_eq_true_2, Hn, Ek in Hf.
  - destruct (kept once i) eqn:Ek'; [|done].
    apply (kept_iff _ _ Hne') in Ek' as [k' Hk'].
    unfold once in Hk'. rewrite get_rebuild in Hk'.
    destruct (binding (kept o) k' entries) as [e|] eqn:E; [|done].
    apply binding_Some in E as (_ & _ & Hp & _). simpl in Hk'. injection Hk' as <-.
    congruence.
Qed.

End Apply.

(** The aggregate as [applyAivmManifestToHyperParameters] leaves it. *)
Definition applied (md : AivmMetadata.t) : AivmMetadata.t :=
  (applyAivmManifestToHyperParameters md).1.

Definition applied_aggregate (md : AivmMetadata.t) : AivmMetadata.t :=
  {| AivmMetadata.manifest := AivmMetadata.manifest md;
     AivmMetadata.hyper_parameters :=
       applied_hyper_parameters (AivmMetadata.manifest md)
         (AivmMetadata.hyper_parameters md);
     AivmMetadata.style_vectors := AivmMetadata.style_vectors md |}.

(** The call changes the aggregate exactly when the architecture is one
    of the two Style-Bert-VITS2 ones and the style vectors are set. *)
Lemma applied_cases md :
  (applied md = md ∧ applied (applied md) = md)
  ∨ (applied md = applied_aggregate md
     ∧ applied (applied md) = applied_aggregate (applied_aggregate md)).
Proof.
  unfold applied, applyAivmManifestToHyperParameters.
  destruct (is_style_bert_vits2 (Manifest.model_architecture (AivmMetadata.manifest md)))
    eqn:Earch; simpl; [|left; by rewrite Earch].
  destruct (AivmMetadata.style_vectors md) as [sv|] eqn:Esv; simpl.
  - right. rewrite Earch. simpl. unfold applied_aggregate. by rewrite Esv.
  - left. by rewrite Earch, Esv.
Qed.

(** Membership in a list of closed terms, by evaluation. *)
Ltac by_evaluation :=
  match goal with
  | |- ?P => apply (bool_decide_unpack P); vm_compute; exact I
  end.

(** C9 (as the code behaves). When no speaker and no style of the
    manifest has an empty name, applying the manifest to the
    hyper-parameters a second time changes nothing but, possibly, the order
    of the keys of [spk2id] and [style2id]: the model name, the two file
    fields, the two counters and every other field are the same, and each
    of the two maps binds the same names to the same identifiers. *)
Theorem apply_twice_same_bindings md :
  "" ∉ (speaker_entries (AivmMetadata.manifest md)).*1 →
  "" ∉ (style_entries (AivmMetadata.manifest md)).*1 →
  let once := AivmMetadata.hyper_parameters (applied md) in
  let twice := AivmMetadata.hyper_parameters (applied (applied md)) in
  AivmMetadata.manifest (applied (applied md)) = AivmMetadata.manifest (applied md)
  ∧ AivmMetadata.style_vectors (applied (applied md))
    = AivmMetadata.style_vectors (applied md)
  ∧ HyperParameters.model_name twice = HyperParameters.model_name once
  ∧ HyperParameters.version twice = HyperParameters.version once
  ∧ HyperParameters.train twice = HyperParameters.train once
  ∧ HyperParameters.model twice = HyperParameters.model once
  ∧ HyperParametersData.use_jp_extra (HyperParameters.data twice)
    = HyperParametersData.use_jp_extra (HyperParameters.data once)
  ∧ HyperParametersData.others (HyperParameters.data twice)
    = HyperParametersData.others (HyperParameters.data once)
  ∧ HyperParametersData.training_files (HyperParameters.data twice)
    = HyperParametersData.training_files (HyperParameters.data once)
  ∧ HyperParametersData.validation_files (HyperParameters.data twice)
    = HyperParametersData.validation_files (HyperParameters.data once)
  ∧ HyperParametersData.n_speakers (HyperParameters.data twice)
    = HyperParametersData.n_speakers (HyperParameters.data once)
  ∧ HyperParametersData.num_styles (HyperParameters.data twice)
    = HyperParametersData.num_styles (HyperParameters.data once)
  ∧ (∀ k, Js.get k (spk2id twice) = Js.get k (spk2id once))
  ∧ (∀ k, Js.get k (style2id twice) = Js.get k (style2id once)).
Proof.
  intros Hspk Hsty.
  destruct (applied_cases md) as [[-> ->]|[-> ->]]; [done|].
  unfold applied_aggregate, spk2id, style2id. simpl.
  rewrite !rebuild_spk2id_eq, !rebuild_style2id_eq.
  rewrite rebuild_twice_size, (rebuild_twice_size _ (style_entries _)) by done.
  repeat split; try done.
  - intros k. by apply rebuild_twice_get.
  - intros k. by apply rebuild_twice_get.
Qed.

Lemma apply_twice_same_bindings_witness :
  AivmMetadata.style_vectors Inputs.existing = Some Inputs.style_vectors
  ∧ spk2id (AivmMetadata.hyper_parameters (applied Inputs.existing)) = [("Alice", 0)]
  ∧ HyperParametersData.n_speakers
      (HyperParameters.data (AivmMetadata.hyper_parameters (applied (applied Inputs.existing))))
    = HyperParametersData.n_speakers
        (HyperParameters.data (AivmMetadata.hyper_parameters (applied Inputs.existing)))
  ∧ ∀ k, Js.get k (style2id (AivmMetadata.hyper_parameters (applied (applied Inputs.existing))))
         = Js.get k (style2id (AivmMetadata.hyper_parameters (applied Inputs.existing))).
Proof.
  split; [reflexivity|]. split; [reflexivity|].
  pose proof (apply_twice_same_bindings Inputs.existing
                ltac:(by_evaluation) ltac:(by_evaluation)) as H.
  split; [apply H | apply H].
Defined.

(** C9, the claim as stated fails. Speakers X (0), Y (1) and X (2): the
    first application rebuilds [spk2id] as X: 2, Y: 1, the key X keeping
    the place of its first assignment; the second finds no key for
    [local_id] 0 and rebuilds it as Y: 1, X: 2. *)
Lemma apply_twice_reorders_keys :
  AivmMetadata.style_vectors Inputs.same_name = Some Inputs.style_vectors
  ∧ spk2id (AivmMetadata.hyper_parameters (applied Inputs.same_name))
    = [("X", 2); ("Y", 1)]
  ∧ spk2id (AivmMetadata.hyper_parameters (applied (applied Inputs.same_name)))
    = [("Y", 1); ("X", 2)]
  ∧ (AivmMetadata.hyper_parameters (applied (applied Inputs.same_name))
     ≠ AivmMetadata.hyper_parameters (applied Inputs.same_name)).
Proof.
  split; [reflexivity|]. split; [reflexivity|]. split; [reflexivity|].
  intros Heq. apply (f_equal spk2id) in Heq. vm_compute in Heq. discriminate Heq.
Qed.

(** A speaker with an empty name is taken the first time and lost the
    second: the key found is the empty string, which is falsy. *)
Lemma apply_twice_loses_empty_name :
  spk2id (AivmMetadata.hyper_parameters (applied Inputs.empty_name)) = [("", 0)]
  ∧ spk2id (AivmMetadata.hyper_parameters (applied (applied Inputs.empty_name))) = []
  ∧ HyperParametersData.n_speakers
      (HyperParameters.data (AivmMetadata.hyper_parameters (applied Inputs.empty_name))) = 1
  ∧ HyperParametersData.n_speakers
      (HyperParameters.data
         (AivmMetadata.hyper_parameters (applied (applied Inputs.empty_name)))) = 0.
Proof. repeat split. Qed.

(** With names that are not empty and that always come with the same
    [local_id], the second application changes nothing at all. *)
Lemma apply_twice_eq md :
  "" ∉ (speaker_entries (AivmMetadata.manifest md)).*1 →
  "" ∉ (style_entries (AivmMetadata.manifest md)).*1 →
  (∀ n i j, (n, i) ∈ speaker_entries (AivmMetadata.manifest md) →
            (n, j) ∈ speaker_entries (AivmMetadata.manifest md) → i = j) →
  (∀ n i j, (n, i) ∈ style_entries (AivmMetadata.manifest md) →
            (n, j) ∈ style_entries (AivmMetadata.manifest md) → i = j) →
  applied (applied md) = applied md.
Proof.
  intros Hspk Hsty Hfs Hft.
  destruct (applied_cases md) as [[-> ->]|[-> ->]]; [done|].
  unfold applied_aggregate, applied_hyper_parameters. simpl.
  rewrite !rebuild_spk2id_eq, !rebuild_style2id_eq.
  by rewrite !rebuild_twice_eq.
Qed.

(** A manifest that passes the refinements of the schema has no empty
    name. *)
Lemma refinements_names_nonempty (m : Manifest.t) :
  AivmManifestSchema_refinements m = true →
  ("" ∉ (speaker_entries m).*1) ∧ ("" ∉ (style_entries m).*1).
Proof.
  unfold AivmManifestSchema_refinements. rewrite !andb_true_iff.
  intros (_ & Hsp). rewrite forallb_forall in Hsp.
  assert (∀ sp, sp ∈ Manifest.speakers m → Speaker_refinements sp = true) as Hsp'
    by (intros sp ?; by apply Hsp, list_elem_of_In).
  unfold speaker_entries, style_entries. split.
  - intros (e & He & (sp & -> & Hin)%list_elem_of_fmap)%list_elem_of_fmap.
    apply Hsp' in Hin. unfold Speaker_refinements in Hin.
    rewrite !andb_true_iff in Hin. destruct Hin as [[Hn _] _].
    unfold nonempty in Hn. simpl in He. rewrite <- He in Hn.
    by rewrite bool_decide_eq_true_2 in Hn.
  - intros (e & He & (sp & Hst & Hin)%list_elem_of_bind)%list_elem_of_fmap.
    apply list_elem_of_fmap in Hst as (st & -> & Hst).
    apply Hsp' in Hin. unfold Speaker_refinements in Hin.
    rewrite !andb_true_iff in Hin. destruct Hin as [_ Hstyles].
    rewrite forallb_forall in Hstyles.
    specialize (Hstyles st ltac:(by apply list_elem_of_In)).
    unfold Style_refinements in Hstyles. rewrite !andb_true_iff in Hstyles.
    destruct Hstyles as [[[Hn _] _] _].
    unfold nonempty in Hn. simpl in He. rewrite <- He in Hn.
    by rewrite bool_decide_eq_true_2 in Hn.
Qed.

(** The earlier revision leaves the counters alone; the rest is the same. *)
Lemma earlier_apply_twice_same_bindings md :
  "" ∉ (speaker_entries (AivmMetadata.manifest md)).*1 →
  "" ∉ (style_entries (AivmMetadata.manifest md)).*1 →
  let once := (Earlier.applyAivmManifestToHyperParameters md).1 in
  let twice := (Earlier.applyAivmManifestToHyperParameters once).1 in
  HyperParametersData.n_speakers (HyperParameters.data (AivmMetadata.hyper_parameters twice))
  = HyperParametersData.n_speakers (HyperParameters.data (AivmMetadata.hyper_parameters md))
  ∧ (∀ k, Js.get k (spk2id (AivmMetadata.hyper_parameters twice))
          = Js.get k (spk2id (AivmMetadata.hyper_parameters once)))
  ∧ (∀ k, Js.get k (style2id (AivmMetadata.hyper_parameters twice))
          = Js.get k (style2id (AivmMetadata.hyper_parameters once))).
Proof.
  intros Hspk Hsty. unfold Earlier.applyAivmManifestToHyperParameters.
  destruct (is_style_bert_vits2 (Manifest.model_architecture (AivmMetadata.manifest md)))
    eqn:Earch; simpl; rewrite ?Earch; simpl; [|done].
  destruct (AivmMetadata.style_vectors md) as [sv|] eqn:Esv;
    simpl; rewrite ?Earch, ?Esv; simpl; rewrite ?Earch, ?Esv; simpl; [|done].
  unfold spk2id, style2id. simpl.
  rewrite !rebuild_spk2id_eq, !rebuild_style2id_eq.
  repeat split; intros k; by apply rebuild_twice_get.
Qed.

(** ** Writing mutates the aggregate *)

Section WriteMutates.
Context `{!Platform}.

Definition with_model_format (model_format : string) (md : AivmMetadata.t)
    : AivmMetadata.t :=
  {| AivmMetadata.manifest :=
       Manifest.set_model_format model_format (AivmMetadata.manifest md);
     AivmMetadata.hyper_parameters := AivmMetadata.hyper_parameters md;
     AivmMetadata.style_vectors := AivmMetadata.style_vectors md |}.

Lemma applied_manifest md : AivmMetadata.manifest (applied md) = AivmMetadata.manifest md.
Proof. by destruct (applied_cases md) as [[-> _]|[-> _]]. Qed.

Lemma applied_style_vectors md :
  AivmMetadata.style_vectors (applied md) = AivmMetadata.style_vectors md.
Proof. by destruct (applied_cases md) as [[-> _]|[-> _]]. Qed.

(** C3 (as the code behaves). [writeAivmMetadata] and
    [writeAivmxMetadata] change the aggregate they are given, whatever the
    outcome of the write: [manifest.model_format] becomes ["Safetensors"]
    or ["ONNX"], and the hyper-parameters become what
    [applyAivmManifestToHyperParameters] makes of them. The other fields of
    the manifest and the style vectors stay as they are. *)
Theorem write_mutates_aggregate (file : bytes) (md : AivmMetadata.t) :
  let aivm := (writeAivmMetadata file md).1 in
  let aivmx := (writeAivmxMetadata file md).1 in
  AivmMetadata.manifest aivm
    = Manifest.set_model_format "Safetensors" (AivmMetadata.manifest md)
  ∧ AivmMetadata.style_vectors aivm = AivmMetadata.style_vectors md
  ∧ AivmMetadata.hyper_parameters aivm
    = AivmMetadata.hyper_parameters (applied (with_model_format "Safetensors" md))
  ∧ AivmMetadata.manifest aivmx
    = Manifest.set_model_format "ONNX" (AivmMetadata.manifest md)
  ∧ AivmMetadata.style_vectors aivmx = AivmMetadata.style_vectors md
  ∧ AivmMetadata.hyper_parameters aivmx
    = AivmMetadata.hyper_parameters (applied (with_model_format "ONNX" md)).
Proof.
  unfold writeAivmMetadata, writeAivmxMetadata.
  fold (with_model_format "Safetensors" md). fold (with_model_format "ONNX" md).
  pose proof (applied_manifest (with_model_format "Safetensors" md)) as Hm1.
  pose proof (applied_style_vectors (with_model_format "Safetensors" md)) as Hs1.
  pose proof (applied_manifest (with_model_format "ONNX" md)) as Hm2.
  pose proof (applied_style_vectors (with_model_format "ONNX" md)) as Hs2.
  unfold applied in *.
  destruct (applyAivmManifestToHyperParameters (with_model_format "Safetensors" md))
    as [md1 r1].
  destruct (applyAivmManifestToHyperParameters (with_model_format "ONNX" md))
    as [md2 r2].
  simpl in *. by rewrite Hm1, Hs1, Hm2, Hs2.
Qed.

End WriteMutates.

(** C3, the claim as stated fails: the sample aggregate, whose format is
    ONNX and whose hyper-parameters name two files of the training
    machine, is another aggregate after [writeAivmMetadata]. *)
Lemma write_changes_sample_aggregate :
  Manifest.model_format (AivmMetadata.manifest Inputs.existing) = "ONNX"
  ∧ Manifest.model_format
      (AivmMetadata.manifest
         (@writeAivmMetadata Sample.platform Inputs.aivm_file Inputs.existing).1)
    = "Safetensors"
  ∧ HyperParametersData.training_files
      (HyperParameters.data
         (AivmMetadata.hyper_parameters
            (@writeAivmMetadata Sample.platform Inputs.aivm_file Inputs.existing).1))
    = Some "train.list"
  ∧ ((@writeAivmMetadata Sample.platform Inputs.aivm_file Inputs.existing).1
     ≠ Inputs.existing)
  ∧ ((@writeAivmxMetadata Sample.platform Inputs.aivm_file Inputs.existing).1
     ≠ Inputs.existing).
Proof.
  split; [reflexivity|]. split; [reflexivity|]. split; [reflexivity|]. split.
  - intros Heq.
    apply (f_equal (λ md, HyperParameters.model_name (AivmMetadata.hyper_parameters md)))
      in Heq.
    vm_compute in Heq. discriminate Heq.
  - intros Heq.
    apply (f_equal (λ md, HyperParameters.model_name (AivmMetadata.hyper_parameters md)))
      in Heq.
    vm_compute in Heq. discriminate Heq.
Qed.

(** ** validateAivmMetadata: the architecture *)

Section ValidateArchitecture.
Context `{!Platform}.

Lemma parsed_manifest_refined text m :
  AivmManifestSchema_parse text = Some m → AivmManifestSchema_refinements m = true.
Proof.
  unfold AivmManifestSchema_parse.
  destruct (decode_manifest text) as [m'|]; simpl; [|done].
  destruct (AivmManifestSchema_refinements m') eqn:E; [|done]. by intros [= <-].
Qed.

Lemma validate_hyper_parameters_Err model_architecture v e :
  validate_hyper_parameters model_architecture v = Err e →
  e = HyperParametersNotFound ∨ ∃ cause, e = HyperParametersInvalid cause.
Proof.
  unfold validate_hyper_parameters. destruct v as [v|]; [|intros [= <-]; by left].
  destruct (truthy (Some v)); [|intros [= <-]; by left].
  destruct (parse_hyper_parameters_of model_architecture v); [done|].
  intros [= <-]. right. by eexists.
Qed.

Definition is_architecture_error (e : AivmError) : bool :=
  match e with
  | HyperParametersArchitectureNotSupported _ => true
  | _ => false
  end.

Definition fails_with_architecture_error {A} (r : Result A) : bool :=
  match r with
  | Err e => is_architecture_error e
  | Ok _ => false
  end.

(** X26. [validateAivmMetadata] never fails with an
    error of its own kind for the architecture. A manifest that
    [AivmManifestSchema] accepts has one of the two architectures the
    validator recognizes, so the branch for any other is not reached; and
    the error that branch throws is thrown inside the [try] block, whose
    [catch] throws the error of the hyper-parameters stage in its place,
    the original as its cause. *)
Theorem validate_never_reports_architecture raw_metadata :
  fails_with_architecture_error (validateAivmMetadata raw_metadata) = false
  ∧ (∀ text m, AivmManifestSchema_parse text = Some m →
       is_style_bert_vits2 (Manifest.model_architecture m) = true)
  ∧ (∀ model_architecture v,
       is_style_bert_vits2 model_architecture = false → truthy (Some v) = true →
       validate_hyper_parameters model_architecture (Some v)
       = Err (HyperParametersInvalid
                (HyperParametersArchitectureNotSupported model_architecture))).
Proof.
  split; [|split].
  - unfold validateAivmMetadata. destruct raw_metadata as [raw|]; [|done].
    destruct (truthy (Some raw)); simpl; [|done].
    destruct (property raw "aivm_manifest") as [manifest_text|e] eqn:Ep; simpl.
    2: { destruct raw; simpl in Ep; by simplify_eq. }
    destruct (truthy manifest_text); simpl; [|done].
    destruct (manifest_text ≫= _) as [m|]; simpl; [|done].
    destruct (property raw "aivm_hyper_parameters") as [hp_text|e] eqn:Eh; simpl.
    2: { destruct raw; simpl in Eh; by simplify_eq. }
    destruct (validate_hyper_parameters _ hp_text) as [hp|e] eqn:Ev; simpl.
    2: { by apply validate_hyper_parameters_Err in Ev as [->|[cause ->]]. }
    destruct (property raw "aivm_style_vectors") as [sv_text|e] eqn:Es; simpl.
    2: { destruct raw; simpl in Es; by simplify_eq. }
    unfold validate_style_vectors.
    destruct sv_text as [v|]; [|done].
    destruct (truthy (Some v)); [|done].
    by destruct (Base64_toUint8Array (text_of v)).
  - intros text m Hm%parsed_manifest_refined.
    unfold AivmManifestSchema_refinements in Hm. rewrite !andb_true_iff in Hm.
    destruct Hm as [[[[[_ Harch] _] _] _] _]. exact Harch.
  - intros model_architecture v Harch Hv.
    unfold validate_hyper_parameters, parse_hyper_parameters_of.
    by rewrite Hv, Harch.
Qed.

End ValidateArchitecture.

(** The two places an architecture outside the list can show. The
    [try] block of the hyper-parameters stage, taken alone, fails with the
    error of that stage, the error for the architecture as its cause; and
    a raw map whose manifest names such an architecture never gets there:
    it fails at the manifest, which the schema refuses. *)
Lemma unknown_architecture_is_hyper_parameters_error :
  @validate_hyper_parameters Sample.platform "VITS" (Some (JStr Inputs.scenario_a))
  = Err (HyperParametersInvalid (HyperParametersArchitectureNotSupported "VITS"))
  ∧ fails_with_architecture_error
      (@validate_hyper_parameters Sample.platform "VITS" (Some (JStr Inputs.scenario_a)))
    = false
  ∧ @validateAivmMetadata Sample.platform
      (Some (dictionary
         [("aivm_manifest",
           Sample.stringify
             (Sample.json_of_manifest
                (Manifest.set_model_architecture "VITS"
                   (AivmMetadata.manifest Inputs.existing))));
          ("aivm_hyper_parameters", Inputs.scenario_a)]))
    = Err ManifestInvalid.
Proof. split; [reflexivity|]. split; [reflexivity|]. vm_compute. reflexivity. Qed.

Lemma validate_never_reports_architecture_witness :
  @AivmManifestSchema_parse Sample.platform
     (Sample.stringify (Sample.json_of_manifest (AivmMetadata.manifest Inputs.existing)))
  = Some (AivmMetadata.manifest Inputs.existing)
  ∧ is_style_bert_vits2
      (Manifest.model_architecture (AivmMetadata.manifest Inputs.existing)) = true
  ∧ is_style_bert_vits2 "VITS" = false.
Proof.
  assert (@AivmManifestSchema_parse Sample.platform
            (Sample.stringify (Sample.json_of_manifest (AivmMetadata.manifest Inputs.existing)))
          = Some (AivmMetadata.manifest Inputs.existing)) as Hparse
    by (vm_compute; reflexivity).
  split; [exact Hparse|]. split; [|reflexivity].
  exact (proj1 (proj2 (validate_never_reports_architecture (H := Sample.platform) None))
           _ _ Hparse).
Defined.

(** ** Bytes of the header length *)

Lemma length_N_to_le k n : List.length (N_to_le k n) = k.
Proof. revert n. induction k as [|k IH]; intros n; simpl; [done | by rewrite IH]. Qed.

Lemma to_N_byte_of_mod n :
  Byte.to_N (default Byte.x00 (Byte.of_N (n mod 256)%N)) = (n mod 256)%N.
Proof.
  destruct (Byte.of_N (n mod 256)%N) as [b|] eqn:E.
  - simpl. by apply Byte.to_of_N.
  - apply Byte.of_N_None_iff in E.
    pose proof (N.mod_upper_bound n 256 ltac:(done)). lia.
Qed.

Lemma le_to_N_to_le k n : le_to_N (N_to_le k n) = (n mod 256 ^ N.of_nat k)%N.
Proof.
  revert n. induction k as [|k IH]; intros n.
  - simpl. by rewrite N.mod_1_r.
  - cbn [N_to_le le_to_N]. rewrite to_N_byte_of_mod, IH.
    rewrite Nat2N.inj_succ, N.pow_succ_r'.
    rewrite (N.Div0.mod_mul_r n 256 (256 ^ N.of_nat k)). lia.
Qed.

Lemma Number_of_BigInt_small x : (x < 2 ^ 53)%N → Number_of_BigInt x = x.
Proof.
  intros Hx. unfold Number_of_BigInt.
  destruct (x <? 2 ^ 53)%N eqn:E; [done|]. apply N.ltb_ge in E. lia.
Qed.

(** Rounding to a double does not bring a large value below [2^53]. *)
Lemma Number_of_BigInt_large x : (2 ^ 53 ≤ x)%N → (2 ^ 53 ≤ Number_of_BigInt x)%N.
Proof.
  intros Hx. unfold Number_of_BigInt.
  destruct (x <? 2 ^ 53)%N eqn:E; [apply N.ltb_lt in E; lia|].
  set (e := (N.log2 x - 52)%N).
  assert (53 ≤ N.log2 x)%N as Hlog.
  { apply N.log2_le_pow2; [lia|]. done. }
  assert (2 ^ 52 ≤ N.shiftr x e)%N as Hq.
  { rewrite N.shiftr_div_pow2.
    pose proof (N.log2_spec x ltac:(lia)) as [Hlo _].
    replace (N.log2 x) with (52 + e)%N in Hlo by (unfold e; lia).
    rewrite N.pow_add_r in Hlo.
    apply N.div_le_lower_bound; [apply N.pow_nonzero; lia|]. lia. }
  assert (2 ≤ 2 ^ e)%N as He.
  { change 2%N with (2 ^ 1)%N at 1. apply N.pow_le_mono_r; [done|]. unfold e. lia. }
  set (q := N.shiftr x e) in *.
  assert (∀ q', (q ≤ q')%N → (2 ^ 53 ≤ N.shiftl q' e)%N) as Hshift.
  { intros q' Hq'. rewrite N.shiftl_mul_pow2.
    change (2 ^ 53)%N with (2 ^ 52 * 2)%N. apply N.mul_le_mono; lia. }
  repeat case_match; apply Hshift; lia.
Qed.

Lemma Number_of_BigInt_exceeds x (len : N) :
  (len < 2 ^ 53)%N → (len < 8 + x)%N → (len < 8 + Number_of_BigInt x)%N.
Proof.
  intros Hlen Hx. destruct (decide (x < 2 ^ 53)%N) as [Hs|Hl].
  - by rewrite Number_of_BigInt_small.
  - pose proof (Number_of_BigInt_large x ltac:(lia)). lia.
Qed.

(** ** Reading the header of an AIVM file *)

(** The header length the first eight bytes announce, and the bytes the
    library takes as the header. *)
Definition header_size (file : bytes) : N := le_to_N (take 8 file).

Definition header_bytes (file : bytes) : bytes :=
  take (N.to_nat (Number_of_BigInt (header_size file))) (drop 8 file).

Section ReadHeader.
Context `{!Platform}.

Lemma getBigUint64_Ok file :
  (8 ≤ List.length file)%nat → getBigUint64 file = Ok (header_size file).
Proof.
  intros Hlen. unfold getBigUint64.
  destruct (List.length file <? 8)%nat eqn:E; [apply Nat.ltb_lt in E; lia | done].
Qed.

Lemma read_header_eq file :
  (8 ≤ List.length file)%nat →
  read_header file =
    if (N.of_nat (List.length file) <? 8 + Number_of_BigInt (header_size file))%N
    then Err AivmFileInvalid
    else match JSON_parse (TextDecoder_decode (header_bytes file)) with
         | Some header_json => Ok header_json
         | None => Err JsSyntaxError
         end.
Proof.
  intros Hlen. unfold read_header. rewrite getBigUint64_Ok by done. simpl.
  by destruct (_ <? _)%N.
Qed.

(** C6 (as the code behaves). On a file of at least eight bytes:
    a header length that exceeds the file makes [readAivmMetadata] fail
    with the error for a file that is not an AIVM file; a header that is
    not JSON makes it fail with the [SyntaxError] of [JSON.parse], which
    nothing catches, whereas [writeAivmMetadata], which parses the same
    bytes inside a [try], fails with the error for a file that is not an
    AIVM file. *)
Theorem read_header_failures file :
  (8 ≤ List.length file)%nat →
  ((N.of_nat (List.length file) < 2 ^ 53)%N →
   (N.of_nat (List.length file) < 8 + header_size file)%N →
   readAivmMetadata file = Err AivmFileInvalid)
  ∧ ((8 + Number_of_BigInt (header_size file) ≤ N.of_nat (List.length file))%N →
     JSON_parse (TextDecoder_decode (header_bytes file)) = None →
     readAivmMetadata file = Err JsSyntaxError
     ∧ ∀ raw_metadata, write_raw_metadata file raw_metadata = Err AivmFileInvalid).
Proof.
  intros Hlen. split.
  - intros Hmax Hsize. unfold readAivmMetadata, read_raw_metadata.
    rewrite read_header_eq by done.
    pose proof (Number_of_BigInt_exceeds _ _ Hmax Hsize) as Hn.
    apply N.ltb_lt in Hn. by rewrite Hn.
  - intros Hsize Hjson. split.
    + unfold readAivmMetadata, read_raw_metadata.
      rewrite read_header_eq by done.
      apply N.ltb_ge in Hsize. by rewrite Hsize, Hjson.
    + intros raw_metadata. unfold write_raw_metadata.
      rewrite getBigUint64_Ok by done. simpl.
      fold (header_bytes file). by rewrite Hjson.
Qed.

End ReadHeader.

(** The header [{x] behind a correct length, and a length of 200 before
    a shorter header. *)
Lemma read_header_failures_witness :
  @readAivmMetadata Sample.platform Inputs.broken_header = Err JsSyntaxError
  ∧ @write_raw_metadata Sample.platform Inputs.broken_header [] = Err AivmFileInvalid
  ∧ @readAivmMetadata Sample.platform Inputs.short_file = Err AivmFileInvalid.
Proof.
  destruct (read_header_failures (H := Sample.platform) Inputs.broken_header
              ltac:(vm_compute; lia)) as [_ Hjson].
  destruct (Hjson ltac:(vm_compute; discriminate) ltac:(vm_compute; reflexivity))
    as [Hread Hwrite].
  destruct (read_header_failures (H := Sample.platform) Inputs.short_file
              ltac:(vm_compute; lia)) as [Hslice _].
  split; [exact Hread|]. split; [exact (Hwrite [])|].
  apply Hslice; vm_compute; reflexivity.
Defined.

(** ** Writing the metadata of an AIVM file and reading it back *)

(** The bytes after the header. *)
Definition payload (file : bytes) : bytes :=
  drop (8 + N.to_nat (header_size file)) file.

(** The entries of [raw_metadata] put over an existing dictionary:
    existing keys overwritten in place, new keys created. *)
Definition merge (raw_metadata : JsObject string) (existing : JsObject JSON)
    : JsObject JSON :=
  foldl (λ acc '(key, value), Js.define key (JStr value) acc) existing raw_metadata.

(** The dictionary a header holds under [__metadata__]: none, or a falsy
    value, counts as the empty one; a truthy value that is not an object
    is no dictionary. *)
Definition metadata_of (v : option JSON) : option (JsObject JSON) :=
  match v with
  | None => Some []
  | Some (JObj props) => Some props
  | Some v => if truthy (Some v) then None else Some []
  end.

Section RoundTrip.
Context `{!Platform}.

Lemma merge_get raw_metadata existing k :
  NoDup (Object_keys raw_metadata) →
  Js.get k (merge raw_metadata existing) =
    match Js.get k raw_metadata with
    | Some v => Some (JStr v)
    | None => Js.get k existing
    end.
Proof.
  unfold merge. revert existing.
  induction raw_metadata as [|[k0 v0] raw IH]; intros existing Hnd; simpl; [done|].
  apply NoDup_cons in Hnd as [Hk0 Hnd]. simpl in Hk0. rewrite IH by done.
  rewrite eqb_decide. case_bool_decide as Hk.
  - subst k0. apply get_None in Hk0. by rewrite Hk0, get_define_eq.
  - rewrite get_define_ne by done. done.
Qed.

Lemma upsert_all_object raw_metadata existing :
  upsert_all raw_metadata (JObj existing) = Ok (JObj (merge raw_metadata existing)).
Proof.
  unfold upsert_all, merge, Object_entries. revert existing.
  induction raw_metadata as [|[k v] raw IH]; intros existing; simpl; [done|].
  apply IH.
Qed.

Lemma read_header_Ok file header_json :
  read_header file = Ok header_json →
  (8 ≤ List.length file)%nat
  ∧ (8 + Number_of_BigInt (header_size file) ≤ N.of_nat (List.length file))%N
  ∧ JSON_parse (TextDecoder_decode (header_bytes file)) = Some header_json.
Proof.
  intros Hread.
  assert (8 ≤ List.length file)%nat as Hlen.
  { unfold read_header, getBigUint64 in Hread.
    destruct (List.length file <? 8)%nat eqn:E; [done|]. by apply Nat.ltb_ge in E. }
  rewrite read_header_eq in Hread by done.
  destruct (_ <? _)%N eqn:E; [done|]. apply N.ltb_ge in E.
  destruct (JSON_parse _) as [j|]; [|done]. by injection Hread as ->.
Qed.

(** The existing dictionary the writer starts from. *)
Lemma existing_metadata_of header old :
  metadata_of (Js.get "__metadata__" header) = Some old →
  match Js.get "__metadata__" header with
  | Some v => if truthy (Some v) then v else JObj []
  | None => JObj []
  end = JObj old.
Proof.
  destruct (Js.get "__metadata__" header) as [v|]; simpl; [|by intros [= <-]].
  destruct v as [|b|n|s|items|props]; simpl; try done.
  - by intros [= <-].
  - destruct b; [done | by intros [= <-]].
  - destruct (n =? 0); simpl; [by intros [= <-] | done].
  - destruct (nonempty s); [done | by intros [= <-]].
  - by intros [= <-].
Qed.


End RoundTrip.


(** ** updateAivmMetadata leaves the existing objects alone *)

Module HeapFacts.
Import Heap.
#[local] Open Scope nat_scope.

(** A computation started on a heap that has the cells below [b] leaves
    these cells as they are. *)
Definition frames (b : nat) {A} (m : M A) : Prop :=
  ∀ h, b ≤ List.length h →
    b ≤ List.length (m h).1 ∧ ∀ l, l < b → (m h).1 !! l = h !! l.

(** The same, for a computation whose result is a new object. *)
Definition allocates (b : nat) (m : M loc) : Prop :=
  frames b m ∧ ∀ h l, b ≤ List.length h → (m h).2 = Ok l → b ≤ l.

Section Rules.
Context (b : nat).

Lemma frames_ret {A} (a : A) : frames b (ret a).
Proof. by intros h Hb. Qed.

Lemma frames_throw {A} e : frames b (@throw A e).
Proof. by intros h Hb. Qed.

Lemma frames_lift {A} (r : Result A) : frames b (lift r).
Proof. by intros h Hb. Qed.

Lemma frames_load l : frames b (load l).
Proof. intros h Hb. unfold load. destruct (h !! l); simpl; by split. Qed.

Lemma frames_store l c : b ≤ l → frames b (store l c).
Proof.
  intros Hl h Hb. unfold store. simpl. rewrite length_insert. split; [done|].
  intros l' Hl'. apply list_lookup_insert_ne. lia.
Qed.

Lemma allocates_alloc c : allocates b (alloc c).
Proof.
  split.
  - intros h Hb. unfold alloc. simpl. rewrite length_app. split; [lia|].
    intros l Hl. apply lookup_app_l. lia.
  - intros h l Hb. unfold alloc. simpl. intros [= <-]. done.
Qed.

Lemma frames_bind {A B} (m : M A) (f : A → M B) :
  frames b m → (∀ a, frames b (f a)) → frames b (m ≫= f).
Proof.
  intros Hm Hf h Hb. unfold mbind, M_bind, bind.
  destruct (Hm h Hb) as [Hlen Hsame]. destruct (m h) as [h1 [a|e]]; simpl in *.
  - destruct (Hf a h1 Hlen) as [Hlen' Hsame']. split; [done|].
    intros l Hl. by rewrite Hsame', Hsame.
  - done.
Qed.

Lemma frames_bind_new {B} (m : M loc) (f : loc → M B) :
  allocates b m → (∀ l, b ≤ l → frames b (f l)) → frames b (m ≫= f).
Proof.
  intros [Hm Hnew] Hf h Hb. unfold mbind, M_bind, bind.
  destruct (Hm h Hb) as [Hlen Hsame]. specialize (Hnew h).
  destruct (m h) as [h1 [l|e]]; simpl in *.
  - destruct (Hf l (Hnew l Hb eq_refl) h1 Hlen) as [Hlen' Hsame']. split; [done|].
    intros l' Hl'. by rewrite Hsame', Hsame.
  - done.
Qed.

Lemma allocates_bind {A} (m : M A) (f : A → M loc) :
  frames b m → (∀ a, allocates b (f a)) → allocates b (m ≫= f).
Proof.
  intros Hm Hf. split.
  - apply frames_bind; [done|]. intros a. apply Hf.
  - intros h l Hb. unfold mbind, M_bind, bind.
    destruct (Hm h Hb) as [Hlen _]. destruct (m h) as [h1 [a|e]]; simpl in *; [|done].
    by apply Hf.
Qed.

Lemma allocates_frames (m : M loc) : allocates b m → frames b m.
Proof. by intros [? _]. Qed.

Lemma frames_for_each {B} (body : B → M unit) (l : list B) :
  (∀ x, frames b (body x)) → frames b (for_each body l).
Proof.
  intros Hbody. induction l as [|x l IH]; simpl; [apply frames_ret|].
  apply frames_bind; [apply Hbody | by intros _].
Qed.

Lemma frames_fold {S B} (body : S → B → M S) (s : S) (l : list B) :
  (∀ s x, frames b (body s x)) → frames b (fold body s l).
Proof.
  intros Hbody. revert s. induction l as [|x l IH]; intros s; simpl; [apply frames_ret|].
  apply frames_bind; [apply Hbody | apply IH].
Qed.

Lemma frames_map_each {B C} (f : B → M C) (l : list B) :
  (∀ x, frames b (f x)) → frames b (map_each f l).
Proof.
  intros Hf. induction l as [|x l IH]; simpl; [apply frames_ret|].
  apply frames_bind; [apply Hf|]. intros c.
  apply frames_bind; [apply IH|]. intros cs. apply frames_ret.
Qed.

End Rules.

(** One step of a proof that a computation frames the old cells. *)
Ltac frames_step :=
  match goal with
  | |- frames _ (ret _) => apply frames_ret
  | |- frames _ (throw _) => apply frames_throw
  | |- frames _ (lift _) => apply frames_lift
  | |- frames _ (load _) => apply frames_load
  | |- frames _ (store _ _) => apply frames_store; assumption
  | |- frames _ (alloc _) => apply allocates_frames, allocates_alloc
  | |- frames _ (alloc _ ≫= _) =>
      apply frames_bind_new; [apply allocates_alloc | intros ? ?]
  | |- frames _ (for_each _ _) => apply frames_for_each; intros ?
  | |- frames _ (fold _ _ _) => apply frames_fold; intros ? ?
  | |- frames _ (map_each _ _) => apply frames_map_each; intros ?
  | |- frames _ (_ ≫= _) => apply frames_bind; [|intros ?]
  | |- allocates _ (alloc _) => apply allocates_alloc
  | |- allocates _ (_ ≫= _) => apply allocates_bind; [|intros ?]
  | |- frames _ (match ?x with _ => _ end) => destruct x
  | |- allocates _ (match ?x with _ => _ end) => destruct x
  | |- frames _ (let '(_, _) := ?x in _) => destruct x
  end.

Ltac frames_auto := repeat frames_step.

Section Access.
Context (b : nat).

Lemma frames_load_array l : frames b (load_array l).
Proof. unfold load_array. frames_auto. Qed.

Lemma frames_load_strings l : frames b (load_strings l).
Proof. unfold load_strings. frames_auto. Qed.

Lemma frames_load_warnings l : frames b (load_warnings l).
Proof. unfold load_warnings. frames_auto. Qed.

Lemma frames_push array x : b ≤ array → frames b (push array x).
Proof.
  intros Harray. unfold push.
  apply frames_bind; [apply frames_load_array|]. intros items. frames_auto.
Qed.

Lemma frames_warn warnings w : b ≤ warnings → frames b (warn warnings w).
Proof.
  intros Hw. unfold warn.
  apply frames_bind; [apply frames_load_warnings|]. intros items. frames_auto.
Qed.

Lemma allocates_new_voice_sample vs : allocates b (new_voice_sample vs).
Proof. unfold new_voice_sample. frames_auto. Qed.

Lemma allocates_new_style st : allocates b (new_style st).
Proof.
  unfold new_style. apply allocates_bind.
  - apply frames_map_each. intros vs. apply allocates_frames, allocates_new_voice_sample.
  - intros samples. frames_auto.
Qed.

Lemma allocates_new_speaker sp : allocates b (new_speaker sp).
Proof.
  unfold new_speaker. apply allocates_bind; [frames_auto|]. intros languages.
  apply allocates_bind.
  - apply frames_map_each. intros st. apply allocates_frames, allocates_new_style.
  - intros items. frames_auto.
Qed.

Lemma allocates_new_manifest m : allocates b (new_manifest m).
Proof.
  unfold new_manifest. apply allocates_bind; [frames_auto|]. intros creators.
  apply allocates_bind.
  - apply frames_map_each. intros sp. apply allocates_frames, allocates_new_speaker.
  - intros items. frames_auto.
Qed.

Lemma frames_get_voice_sample l : frames b (get_voice_sample l).
Proof. unfold get_voice_sample. frames_auto. Qed.

Lemma frames_get_style l : frames b (get_style l).
Proof.
  unfold get_style. apply frames_bind; [frames_auto|]. intros c.
  destruct c; try apply frames_throw.
  apply frames_bind; [apply frames_load_array|]. intros samples.
  apply frames_bind; [|intros ?; apply frames_ret].
  apply frames_map_each. intros x. apply frames_get_voice_sample.
Qed.

Lemma frames_get_speaker l : frames b (get_speaker l).
Proof.
  unfold get_speaker. apply frames_bind; [frames_auto|]. intros c.
  destruct c; try apply frames_throw.
  apply frames_bind; [apply frames_load_strings|]. intros languages.
  apply frames_bind; [apply frames_load_array|]. intros items.
  apply frames_bind; [|intros ?; apply frames_ret].
  apply frames_map_each. intros x. apply frames_get_style.
Qed.

Lemma frames_get_manifest l : frames b (get_manifest l).
Proof.
  unfold get_manifest. apply frames_bind; [frames_auto|]. intros c.
  destruct c; try apply frames_throw.
  apply frames_bind; [apply frames_load_strings|]. intros creators'.
  apply frames_bind; [apply frames_load_array|]. intros items.
  apply frames_bind; [|intros ?; apply frames_ret].
  apply frames_map_each. intros x. apply frames_get_speaker.
Qed.

Lemma allocates_structuredClone_manifest l : allocates b (structuredClone_manifest l).
Proof.
  unfold structuredClone_manifest. apply allocates_bind.
  - apply frames_get_manifest.
  - intros m. apply allocates_new_manifest.
Qed.

End Access.

Section UpdateFrames.
Context `{!Platform} (b : nat).

Lemma frames_new_created_style style2id style_name style_local_id :
  frames b (new_created_style style2id style_name style_local_id).
Proof. unfold new_created_style. frames_auto. Qed.

Lemma frames_retain_styles m warnings updated_styles speaker_name styles :
  b ≤ warnings → b ≤ updated_styles →
  frames b (Heap.retain_styles m warnings updated_styles speaker_name styles).
Proof.
  intros Hw Hu. unfold Heap.retain_styles. apply frames_fold. intros s x.
  apply frames_bind; [apply frames_load|]. intros c.
  destruct c; try apply frames_throw.
  destruct (Map_has m local_id).
  - apply frames_bind; [by apply frames_push | intros _; apply frames_ret].
  - apply frames_bind; [by apply frames_warn | intros _; apply frames_ret].
Qed.

Lemma frames_add_styles new_style2id warnings updated_styles speaker_name processed :
  b ≤ warnings → b ≤ updated_styles →
  frames b (Heap.add_styles new_style2id warnings updated_styles speaker_name processed).
Proof.
  intros Hw Hu. unfold Heap.add_styles. apply frames_for_each. intros [style_name id].
  destruct (Set_has processed id); [apply frames_ret|].
  apply frames_bind; [apply frames_new_created_style|]. intros style.
  apply frames_bind; [by apply frames_push | intros _; by apply frames_warn].
Qed.

Lemma frames_update_speaker hp m1 m2 warnings updated_speakers processed existing_speaker :
  b ≤ warnings → b ≤ updated_speakers →
  frames b (Heap.update_speaker hp m1 m2 warnings updated_speakers processed
              existing_speaker).
Proof.
  intros Hw Hu. unfold Heap.update_speaker.
  apply frames_bind; [apply frames_load|]. intros c.
  destruct c; try apply frames_throw.
  destruct (Map_has m1 local_id).
  - apply frames_bind_new; [apply allocates_alloc|]. intros updated_styles Hus.
    apply frames_bind; [apply frames_load_array|]. intros existing_styles.
    apply frames_bind; [by apply frames_retain_styles|]. intros processed_styles.
    apply frames_bind; [by apply frames_add_styles|]. intros _.
    apply frames_bind; [apply frames_load_strings|]. intros languages.
    apply frames_bind_new; [apply allocates_alloc|]. intros new_languages Hnl.
    apply frames_bind.
    { destruct (bool_decide _); [apply frames_ret|].
      apply frames_bind; [by apply frames_warn | intros _; apply frames_ret]. }
    intros languages'.
    apply frames_bind_new; [apply allocates_alloc|]. intros speaker Hsp.
    apply frames_bind; [by apply frames_push | intros _; apply frames_ret].
  - apply frames_bind; [by apply frames_warn | intros _; apply frames_ret].
Qed.

Lemma frames_add_speakers hp warnings updated_speakers processed n :
  b ≤ warnings → b ≤ updated_speakers →
  frames b (Heap.add_speakers hp warnings updated_speakers processed n).
Proof.
  intros Hw Hu. unfold Heap.add_speakers. apply frames_fold.
  intros n' [new_speaker_name new_local_id].
  destruct (Set_has processed new_local_id); [apply frames_ret|].
  apply frames_bind_new; [apply allocates_alloc|]. intros new_speaker_styles Hns.
  apply frames_bind.
  { apply frames_for_each. intros [style_name id].
    apply frames_bind; [apply frames_new_created_style|]. intros style.
    by apply frames_push. }
  intros _.
  apply frames_bind_new; [apply allocates_alloc|]. intros languages Hl.
  apply frames_bind_new; [apply allocates_alloc|]. intros speaker Hsp.
  apply frames_bind; [by apply frames_push|]. intros _.
  apply frames_bind; [by apply frames_warn | intros _; apply frames_ret].
Qed.

Lemma frames_check_updated_speakers updated_speakers :
  frames b (Heap.check_updated_speakers updated_speakers).
Proof.
  unfold Heap.check_updated_speakers.
  apply frames_bind; [apply frames_load_array|]. intros speakers.
  destruct (_ =? _)%nat; [apply frames_throw|].
  apply frames_for_each. intros speaker.
  apply frames_bind; [apply frames_load|]. intros c.
  destruct c; try apply frames_throw.
  apply frames_bind; [apply frames_load_array|]. intros items.
  destruct (_ =? _)%nat; [apply frames_throw | apply frames_ret].
Qed.

Lemma frames_updateAivmMetadata n existing_metadata file style_vectors_file :
  frames b (Heap.updateAivmMetadata n existing_metadata file style_vectors_file).
Proof.
  unfold Heap.updateAivmMetadata.
  apply frames_bind_new; [apply allocates_alloc|]. intros warnings Hw.
  apply frames_bind; [apply frames_load|]. intros existing.
  destruct existing; try apply frames_throw.
  apply frames_bind; [apply frames_load|]. intros c.
  destruct c; try apply frames_throw.
  apply frames_bind; [apply frames_lift|]. intros [hp sv].
  apply frames_bind_new; [apply allocates_alloc|]. intros hyper_parameters' Hhp.
  apply frames_bind_new; [apply allocates_alloc|]. intros style_vectors' Hsv.
  destruct (is_style_bert_vits2 _); [|apply frames_throw].
  apply frames_bind_new; [apply allocates_structuredClone_manifest|].
  intros manifest' Hm.
  apply frames_bind; [apply frames_load|]. intros c.
  destruct c; try apply frames_throw.
  apply frames_bind; [by apply frames_store|]. intros _.
  apply frames_bind_new; [apply allocates_alloc|]. intros updated_speakers Hus.
  apply frames_bind; [apply frames_load_array|]. intros speakers_now.
  apply frames_bind.
  { apply frames_fold. intros s x. by apply frames_update_speaker. }
  intros processed.
  apply frames_bind; [by apply frames_add_speakers|]. intros _.
  apply frames_bind; [by apply frames_store|]. intros _.
  apply frames_bind; [apply frames_check_updated_speakers|]. intros _.
  apply frames_bind_new; [apply allocates_alloc|]. intros updated_metadata Hum.
  apply frames_ret.
Qed.

End UpdateFrames.

End HeapFacts.

Module HeapReads.
Import Heap.
#[local] Open Scope nat_scope.

(** A computation that only reads: it leaves the heap as it is, and its
    result stays the same on any heap that has the same cells and more. *)
Definition reads {A} (m : M A) : Prop :=
  ∀ h, (m h).1 = h
    ∧ ∀ h' a, (∀ l c, h !! l = Some c → h' !! l = Some c) →
              (m h).2 = Ok a → (m h').2 = Ok a.

Lemma reads_ret {A} (a : A) : reads (ret a).
Proof. by intros h. Qed.

Lemma reads_throw {A} e : reads (@throw A e).
Proof. by intros h. Qed.

Lemma reads_load l : reads (load l).
Proof.
  intros h. unfold load. split; [by destruct (h !! l)|].
  intros h' c Hsub. destruct (h !! l) as [c'|] eqn:E; simpl; [|done].
  intros [= ->]. by rewrite (Hsub _ _ E).
Qed.

Lemma reads_bind {A B} (m : M A) (f : A → M B) :
  reads m → (∀ a, reads (f a)) → reads (m ≫= f).
Proof.
  intros Hm Hf h. unfold mbind, M_bind, bind.
  destruct (Hm h) as [Hh Hr]. destruct (m h) as [h1 [a|e]] eqn:E; simpl in *; subst h1.
  - destruct (Hf a h) as [Hh' Hr']. split; [done|].
    intros h' b Hsub Hb. specialize (Hr h' a Hsub eq_refl).
    destruct (Hm h') as [Hh1 _]. destruct (m h') as [h1' [a'|e']]; simpl in *; [|done].
    injection Hr as ->. subst h1'. by apply Hr'.
  - done.
Qed.

Lemma reads_map_each {B C} (f : B → M C) (l : list B) :
  (∀ x, reads (f x)) → reads (map_each f l).
Proof.
  intros Hf. induction l as [|x l IH]; simpl; [apply reads_ret|].
  apply reads_bind; [apply Hf|]. intros c.
  apply reads_bind; [apply IH|]. intros cs. apply reads_ret.
Qed.

Ltac reads_step :=
  match goal with
  | |- reads (ret _) => apply reads_ret
  | |- reads (throw _) => apply reads_throw
  | |- reads (load _) => apply reads_load
  | |- reads (map_each _ _) => apply reads_map_each; intros ?
  | |- reads (_ ≫= _) => apply reads_bind; [|intros ?]
  | |- reads (match ?x with _ => _ end) => destruct x
  end.

Lemma reads_load_array l : reads (load_array l).
Proof. unfold load_array. repeat reads_step. Qed.

Lemma reads_load_strings l : reads (load_strings l).
Proof. unfold load_strings. repeat reads_step. Qed.

Lemma reads_get_voice_sample l : reads (get_voice_sample l).
Proof. unfold get_voice_sample. repeat reads_step. Qed.

Lemma reads_get_style l : reads (get_style l).
Proof.
  unfold get_style. apply reads_bind; [apply reads_load|]. intros c.
  destruct c; try apply reads_throw.
  apply reads_bind; [apply reads_load_array|]. intros samples.
  apply reads_bind; [|intros ?; apply reads_ret].
  apply reads_map_each. intros x. apply reads_get_voice_sample.
Qed.

Lemma reads_get_speaker l : reads (get_speaker l).
Proof.
  unfold get_speaker. apply reads_bind; [apply reads_load|]. intros c.
  destruct c; try apply reads_throw.
  apply reads_bind; [apply reads_load_strings|]. intros languages.
  apply reads_bind; [apply reads_load_array|]. intros items.
  apply reads_bind; [|intros ?; apply reads_ret].
  apply reads_map_each. intros x. apply reads_get_style.
Qed.

Lemma reads_get_manifest l : reads (get_manifest l).
Proof.
  unfold get_manifest. apply reads_bind; [apply reads_load|]. intros c.
  destruct c; try apply reads_throw.
  apply reads_bind; [apply reads_load_strings|]. intros creators'.
  apply reads_bind; [apply reads_load_array|]. intros items.
  apply reads_bind; [|intros ?; apply reads_ret].
  apply reads_map_each. intros x. apply reads_get_speaker.
Qed.

Lemma reads_get_metadata l : reads (get_metadata l).
Proof.
  unfold get_metadata. apply reads_bind; [apply reads_load|]. intros c.
  destruct c; try apply reads_throw.
  apply reads_bind; [apply reads_get_manifest|]. intros m.
  apply reads_bind; [apply reads_load|]. intros hp.
  apply reads_bind; [destruct hp; (apply reads_ret || apply reads_throw)|]. intros hp'.
  apply reads_bind; [|intros ?; apply reads_ret].
  destruct style_vectors as [sv|]; [|apply reads_ret].
  apply reads_bind; [apply reads_load|]. intros bc.
  destruct bc; (apply reads_ret || apply reads_throw).
Qed.

(** An aggregate read from a heap is read the same from a heap that has
    the same cells and more. *)
Lemma read_metadata_stable (h h' : heap) l md :
  (∀ l c, h !! l = Some c → h' !! l = Some c) →
  read_metadata h l = Some md → read_metadata h' l = Some md.
Proof.
  intros Hsub. unfold read_metadata.
  destruct (reads_get_metadata l h) as [_ Hr]. specialize (Hr h' md Hsub).
  destruct (get_metadata l h) as [h1 [md1|e]]; simpl in *; [|done].
  intros [= ->]. specialize (Hr eq_refl).
  by destruct (get_metadata l h') as [h2 [md2|e]]; simpl in *; simplify_eq.
Qed.

End HeapReads.

(** C10. [updateAivmMetadata] writes to no object that existed before
    the call: whether it returns or throws, every cell of the heap it was
    started on is as it was, and the aggregate [existing_metadata] refers
    to (manifest, hyper-parameters, style vectors) reads the same
    afterwards. What the update writes to are the clone of the manifest
    and the arrays and objects it creates. *)
Theorem update_leaves_existing_unchanged `{!Platform} n (existing_metadata : nat)
    file style_vectors_file (h : list Heap.Cell) :
  let h' := (Heap.updateAivmMetadata n existing_metadata file style_vectors_file h).1 in
  (∀ l c, h !! l = Some c → h' !! l = Some c)
  ∧ ∀ md, Heap.read_metadata h existing_metadata = Some md →
          Heap.read_metadata h' existing_metadata = Some md.
Proof.
  intros h'.
  assert (∀ l c, h !! l = Some c → h' !! l = Some c) as Hsub.
  { intros l c Hl.
    destruct (HeapFacts.frames_updateAivmMetadata (List.length h) n existing_metadata
                file style_vectors_file h ltac:(done)) as [_ Hsame].
    unfold h'. rewrite Hsame; [done|]. by apply lookup_lt_Some in Hl. }
  split; [exact Hsub|]. intros md. by apply HeapReads.read_metadata_stable.
Qed.

(** The sample aggregate as objects, and its update on that heap. *)
Module HeapRuns.

Definition existing_heap : list Heap.Cell :=
  Eval vm_compute in (Heap.new_metadata Inputs.existing []).1.

Definition existing_metadata : nat :=
  Eval vm_compute in Runs.value 0%nat (Heap.new_metadata Inputs.existing []).2.

Definition update : list Heap.Cell * Result (nat * nat) :=
  @Heap.updateAivmMetadata Sample.platform 10 existing_metadata Inputs.replacement
    (Some Inputs.style_vectors) existing_heap.

Definition updated_heap : list Heap.Cell := Eval vm_compute in update.1.

Definition updated_metadata : nat := Eval vm_compute in (Runs.value (0, 0)%nat update.2).1.

Definition warnings : nat := Eval vm_compute in (Runs.value (0, 0)%nat update.2).2.

(** The array of styles of the first speaker of an aggregate. *)
Definition styles_of (h : list Heap.Cell) (metadata : nat) : option (list nat) :=
  match h !! metadata with
  | Some (Heap.MetadataCell manifest _ _) =>
      match h !! manifest with
      | Some (Heap.ManifestCell _ _ _ _ _ _ _ _ _ _ _ speakers) =>
          match h !! speakers with
          | Some (Heap.ArrayCell (speaker :: _)) =>
              match h !! speaker with
              | Some (Heap.SpeakerCell _ _ _ _ _ styles) =>
                  match h !! styles with
                  | Some (Heap.ArrayCell items) => Some items
                  | _ => None
                  end
              | _ => None
              end
          | _ => None
          end
      | _ => None
      end
  | _ => None
  end.

End HeapRuns.

(** On the sample: the existing aggregate reads the same before and
    after; the updated aggregate and the warnings on the heap are those
    the update on values computes. *)
Lemma update_leaves_existing_unchanged_witness :
  Heap.read_metadata HeapRuns.existing_heap HeapRuns.existing_metadata
  = Some Inputs.existing
  ∧ HeapRuns.update = (HeapRuns.updated_heap, Ok (HeapRuns.updated_metadata, HeapRuns.warnings))
  ∧ Heap.read_metadata HeapRuns.updated_heap HeapRuns.existing_metadata
    = Some Inputs.existing
  ∧ Heap.read_metadata HeapRuns.updated_heap HeapRuns.updated_metadata
    = Some Runs.updated.1
  ∧ HeapRuns.updated_heap !! HeapRuns.warnings = Some (Heap.WarningsCell Runs.updated.2).
Proof.
  assert (Heap.read_metadata HeapRuns.existing_heap HeapRuns.existing_metadata
          = Some Inputs.existing) as Hread by (vm_compute; reflexivity).
  assert (HeapRuns.update
          = (HeapRuns.updated_heap, Ok (HeapRuns.updated_metadata, HeapRuns.warnings)))
    as Hup by (vm_compute; reflexivity).
  split; [exact Hread|]. split; [exact Hup|]. split.
  - pose proof (update_leaves_existing_unchanged (H := Sample.platform) 10
                  HeapRuns.existing_metadata Inputs.replacement
                  (Some Inputs.style_vectors) HeapRuns.existing_heap) as [_ Hsame].
    specialize (Hsame Inputs.existing Hread).
    change (@Heap.updateAivmMetadata Sample.platform 10 HeapRuns.existing_metadata
              Inputs.replacement (Some Inputs.style_vectors) HeapRuns.existing_heap)
      with HeapRuns.update in Hsame.
    by rewrite Hup in Hsame.
  - split; vm_compute; reflexivity.
Defined.

(** The styles the update retains are the objects of the existing
    aggregate themselves: the array of the updated speaker holds the
    addresses of the first two styles of the existing speaker, and one new
    address. *)
Lemma update_shares_retained_styles :
  HeapRuns.styles_of HeapRuns.existing_heap HeapRuns.existing_metadata
  = Some [4; 7; 10]%nat
  ∧ HeapRuns.styles_of HeapRuns.updated_heap HeapRuns.updated_metadata
    = Some [4; 7; 39]%nat
  ∧ List.length HeapRuns.existing_heap = 18%nat.
Proof. repeat split. Qed.

(** * Further properties *)

(** ** Loading: what the checks accept and what they report *)

Section LoadingChecks.
Context `{!Platform}.

(** The loop over the entries with the identifiers seen so far. *)
Lemma check_duplicate_ids_from error (names : Z → list string)
    (entries : JsObject Z) (seen0 seen : gset Z) :
  for_of (λ (seen : gset Z) '(name, id),
            if bool_decide (id ∈ seen) then Err (error id (names id))
            else Ok (seen ∪ {[id]}))
         seen0 entries = Ok seen
  ↔ NoDup (ids entries) ∧ (∀ id, id ∈ ids entries → id ∉ seen0)
    ∧ seen = seen0 ∪ list_to_set (ids entries).
Proof.
  unfold ids. revert seen0.
  induction entries as [|[name id] entries IH]; intros seen0; simpl.
  - split.
    + intros [= <-]. split; [constructor|]. split; [by intros ? ?%elem_of_nil | set_solver].
    + intros (_ & _ & ->). f_equal. set_solver.
  - case_bool_decide as Hin; simpl.
    + split; [done|]. intros (_ & Hfresh & _). destruct (Hfresh id); [left | done].
    + rewrite IH, NoDup_cons. split.
      * intros (Hnd & Hfresh & ->). split; [split; [|done]|split].
        -- intros Hid. apply (Hfresh id Hid). set_solver.
        -- intros id' [->|Hid']%elem_of_cons; [done|].
           specialize (Hfresh id' Hid'). set_solver.
        -- set_solver.
      * intros ([Hid Hnd] & Hfresh & ->). split; [done|]. split; [|set_solver].
        intros id' Hid'. specialize (Hfresh id' ltac:(by right)).
        assert (id' ≠ id) by (by intros ->). set_solver.
Qed.

Lemma check_duplicate_ids_Ok error (entries : JsObject Z) (seen : gset Z) :
  check_duplicate_ids error entries = Ok seen
  ↔ NoDup (ids entries) ∧ seen = list_to_set (ids entries).
Proof.
  unfold check_duplicate_ids, Object_entries.
  rewrite (check_duplicate_ids_from error (λ id, names_with_id id entries)).
  split.
  - intros (? & _ & ->). split; [done | set_solver].
  - intros (? & ->). split; [done|]. split; [set_solver | set_solver].
Qed.

Lemma check_style_id_range_Ok (entries : JsObject Z) :
  check_style_id_range entries = Ok tt
  ↔ ∀ name id, (name, id) ∈ entries → 0 ≤ id ≤ 31.
Proof.
  unfold check_style_id_range, Object_entries. rewrite for_of_unit_Ok. split.
  - intros Hall name id Hin. specialize (Hall _ Hin). simpl in Hall.
    destruct (id <? 0) eqn:E1; [done|]. destruct (id >? 31) eqn:E2; [done|].
    apply Z.ltb_ge in E1. rewrite Z.gtb_ltb in E2. apply Z.ltb_ge in E2. lia.
  - intros Hall [name id] Hin. specialize (Hall _ _ Hin).
    assert ((id <? 0) = false) as -> by (apply Z.ltb_ge; lia).
    assert ((id >? 31) = false) as -> by (rewrite Z.gtb_ltb; apply Z.ltb_ge; lia).
    done.
Qed.

Lemma check_speaker_id_range_Ok (entries : JsObject Z) :
  check_speaker_id_range entries = Ok tt
  ↔ ∀ name id, (name, id) ∈ entries → 0 ≤ id.
Proof.
  unfold check_speaker_id_range, Object_entries. rewrite for_of_unit_Ok. split.
  - intros Hall name id Hin. specialize (Hall _ Hin). simpl in Hall.
    destruct (id <? 0) eqn:E1; [done|]. by apply Z.ltb_ge in E1.
  - intros Hall [name id] Hin. specialize (Hall _ _ Hin).
    by assert ((id <? 0) = false) as -> by (apply Z.ltb_ge; lia).
Qed.

(** The hyper-parameters the loader accepts. *)
Definition valid_identifiers (hp : HyperParameters.t) : Prop :=
  spk2id hp ≠ [] ∧ style2id hp ≠ []
  ∧ NoDup (ids (spk2id hp)) ∧ NoDup (ids (style2id hp))
  ∧ (∀ name id, (name, id) ∈ style2id hp → 0 ≤ id ≤ 31)
  ∧ (∀ name id, (name, id) ∈ spk2id hp → 0 ≤ id).

(** What a successful load has checked of the identifiers. *)
Lemma load_Ok_valid model_architecture file style_vectors_file hp sv :
  loadAndValidateHyperParametersAndStyleVectors model_architecture file
    style_vectors_file = Ok (hp, sv) →
  valid_identifiers hp.
Proof.
  intros Hload. pose proof Hload as (Harch & Hparse & _ & Hspk & Hsty)%load_Ok.
  unfold loadAndValidateHyperParametersAndStyleVectors in Hload.
  rewrite Harch, Hparse in Hload. cbn [mbind Result_bind] in Hload.
  unfold require in Hload.
  destruct (spk2id hp) as [|e1 l1] eqn:E1; [done|].
  destruct (style2id hp) as [|e2 l2] eqn:E2; [done|].
  cbn [List.length Object_keys fmap list_fmap Nat.eqb negb mbind Result_bind] in Hload.
  destruct (check_duplicate_ids DuplicateSpeakerId (e1 :: l1)) as [s1|] eqn:D1; [|done].
  destruct (check_duplicate_ids DuplicateStyleId (e2 :: l2)) as [s2|] eqn:D2; [|done].
  destruct (check_style_id_range (e2 :: l2)) as [[]|] eqn:R2; [|done].
  destruct (check_speaker_id_range (e1 :: l1)) as [[]|] eqn:R1; [|done].
  apply check_duplicate_ids_Ok in D1 as [Hnd1 _].
  apply check_duplicate_ids_Ok in D2 as [Hnd2 _].
  unfold valid_identifiers. rewrite E1, E2.
  split; [done|]. split; [done|]. split; [done|]. split; [done|].
  split; [by apply check_style_id_range_Ok | by apply check_speaker_id_range_Ok].
Qed.

(** X1. [loadAndValidateHyperParametersAndStyleVectors] returns exactly
    when the architecture is one of the two Style-Bert-VITS2 ones, the
    file parses, both maps have an entry, no identifier is given twice in
    [spk2id] nor in [style2id], every style identifier is between 0 and
    31, every speaker identifier is not negative, and a style-vectors file
    is given; it then returns the parsed hyper-parameters and the bytes of
    that file. *)
Theorem load_succeeds_iff model_architecture file style_vectors_file hp sv :
  loadAndValidateHyperParametersAndStyleVectors model_architecture file
    style_vectors_file = Ok (hp, sv)
  ↔ is_style_bert_vits2 model_architecture = true
    ∧ StyleBertVITS2HyperParametersSchema_parse file = Some hp
    ∧ valid_identifiers hp
    ∧ style_vectors_file = Some sv.
Proof.
  unfold loadAndValidateHyperParametersAndStyleVectors, valid_identifiers.
  destruct (is_style_bert_vits2 model_architecture); [|naive_solver].
  destruct (StyleBertVITS2HyperParametersSchema_parse file) as [hp'|];
    [|naive_solver].
  cbn [mbind Result_bind]. unfold require.
  destruct (spk2id hp') as [|e1 l1] eqn:E1.
  { simpl. split; [done|]. intros (_ & [= <-] & (Hne & _) & _). by rewrite E1 in Hne. }
  destruct (style2id hp') as [|e2 l2] eqn:E2.
  { simpl. split; [done|]. intros (_ & [= <-] & (_ & Hne & _) & _). by rewrite E2 in Hne. }
  cbn [List.length Object_keys fmap list_fmap Nat.eqb negb mbind Result_bind].
  destruct (check_duplicate_ids DuplicateSpeakerId (e1 :: l1)) as [s1|err] eqn:D1.
  2: { simpl. split; [done|]. intros (_ & [= <-] & (_ & _ & Hnd & _) & _).
       rewrite E1 in Hnd.
       assert (check_duplicate_ids DuplicateSpeakerId (e1 :: l1)
               = Ok (list_to_set (ids (e1 :: l1)))) as Hok
         by (by apply check_duplicate_ids_Ok).
       congruence. }
  apply check_duplicate_ids_Ok in D1 as [Hnd1 _]. cbn [mbind Result_bind].
  destruct (check_duplicate_ids DuplicateStyleId (e2 :: l2)) as [s2|err] eqn:D2.
  2: { simpl. split; [done|]. intros (_ & [= <-] & (_ & _ & _ & Hnd & _) & _).
       rewrite E2 in Hnd.
       assert (check_duplicate_ids DuplicateStyleId (e2 :: l2)
               = Ok (list_to_set (ids (e2 :: l2)))) as Hok
         by (by apply check_duplicate_ids_Ok).
       congruence. }
  apply check_duplicate_ids_Ok in D2 as [Hnd2 _]. cbn [mbind Result_bind].
  destruct (check_style_id_range (e2 :: l2)) as [[]|err] eqn:R2.
  2: { simpl. split; [done|]. intros (_ & [= <-] & (_ & _ & _ & _ & Hr & _) & _).
       rewrite E2 in Hr. apply (proj2 (check_style_id_range_Ok _)) in Hr. congruence. }
  pose proof (proj1 (check_style_id_range_Ok _) R2) as R2'. cbn [mbind Result_bind].
  destruct (check_speaker_id_range (e1 :: l1)) as [[]|err] eqn:R1.
  2: { simpl. split; [done|]. intros (_ & [= <-] & (_ & _ & _ & _ & _ & Hr) & _).
       rewrite E1 in Hr. apply (proj2 (check_speaker_id_range_Ok _)) in Hr. congruence. }
  pose proof (proj1 (check_speaker_id_range_Ok _) R1) as R1'. cbn [mbind Result_bind].
  destruct style_vectors_file as [sv'|]; [|naive_solver].
  split.
  - intros [= <- <-]. rewrite E1, E2. done.
  - intros (_ & [= <-] & _ & [= <-]). done.
Qed.

End LoadingChecks.

Section LoadingErrors.
Context `{!Platform}.

Lemma elem_of_names_with_id id (entries : JsObject Z) name :
  name ∈ names_with_id id entries ↔ (name, id) ∈ entries.
Proof.
  unfold names_with_id. rewrite list_elem_of_fmap. split.
  - intros ([name' id'] & -> & [Hid Hin]%list_elem_of_filter). simpl in *. by subst.
  - intros Hin. exists (name, id). split; [done|]. by apply list_elem_of_filter.
Qed.

(** An identifier met a second time is the identifier of two entries. *)
Lemma check_duplicate_ids_twice error (names : Z → list string)
    (pre entries : JsObject Z) e :
  for_of (λ (seen : gset Z) '(name, id),
            if bool_decide (id ∈ seen) then Err (error id (names id))
            else Ok (seen ∪ {[id]}))
         (list_to_set (ids pre)) entries = Err e →
  ∃ id, e = error id (names id)
        ∧ (2 ≤ List.length (filter (λ e : string * Z, e.2 = id) (pre ++ entries)))%nat.
Proof.
  revert pre. induction entries as [|[name id] entries IH]; intros pre; simpl; [done|].
  case_bool_decide as Hin; simpl.
  - intros [= <-]. exists id. split; [done|].
    rewrite filter_app, filter_cons, decide_True by done.
    rewrite length_app. simpl.
    apply elem_of_list_to_set, list_elem_of_fmap in Hin as ([name' id'] & Hid & Hin).
    simpl in Hid. subst id'.
    assert ((name', id) ∈ filter (λ e : string * Z, e.2 = id) pre) as Hf
      by (by apply list_elem_of_filter).
    destruct (filter _ pre); [by apply elem_of_nil in Hf | simpl; lia].
  - replace (list_to_set (ids pre) ∪ {[id]} : gset Z)
      with (list_to_set (ids (pre ++ [(name, id)])) : gset Z).
    2: { unfold ids. rewrite fmap_app, list_to_set_app_L. simpl. set_solver. }
    intros (id' & -> & Hlen)%IH. exists id'. split; [done|].
    by rewrite <- (assoc_L (++)) in Hlen.
Qed.

Lemma check_duplicate_ids_Err error (entries : JsObject Z) :
  ¬ NoDup (ids entries) →
  ∃ id, check_duplicate_ids error entries = Err (error id (names_with_id id entries))
        ∧ (2 ≤ List.length (names_with_id id entries))%nat.
Proof.
  intros Hdup.
  destruct (check_duplicate_ids error entries) as [seen|e] eqn:E.
  { by apply check_duplicate_ids_Ok in E as [? _]. }
  unfold check_duplicate_ids, Object_entries in E.
  apply (check_duplicate_ids_twice error (λ id, names_with_id id entries) []) in E
    as (id & -> & Hlen).
  exists id. split; [done|]. unfold names_with_id. by rewrite length_fmap.
Qed.

(** A loop over checks fails at the first element that fails. *)
Lemma for_of_unit_first {B} (body : unit → B → Result unit) (pre post : list B) b e :
  (∀ x, x ∈ pre → body tt x = Ok tt) →
  body tt b = Err e →
  for_of body tt (pre ++ b :: post) = Err e.
Proof.
  intros Hpre Hb. induction pre as [|x pre IH]; simpl.
  - by rewrite Hb.
  - rewrite (Hpre x) by left. simpl. apply IH. intros y Hy. apply Hpre. by right.
Qed.

(** X2. When the file parses and both maps have an entry, an identifier
    given to two speakers makes the loader fail, whatever else the input
    holds, with an error that carries the identifier and the names of all
    the speakers that have it, two at least. With the speakers' identifiers
    distinct, the same holds of the styles. *)
Theorem load_reports_duplicate_ids model_architecture file style_vectors_file hp :
  is_style_bert_vits2 model_architecture = true →
  StyleBertVITS2HyperParametersSchema_parse file = Some hp →
  spk2id hp ≠ [] → style2id hp ≠ [] →
  let load :=
    loadAndValidateHyperParametersAndStyleVectors model_architecture file
      style_vectors_file in
  (¬ NoDup (ids (spk2id hp)) →
   ∃ id names,
     load = Err (DuplicateSpeakerId id names)
     ∧ (2 ≤ List.length names)%nat
     ∧ ∀ name, name ∈ names ↔ (name, id) ∈ spk2id hp)
  ∧ (NoDup (ids (spk2id hp)) → ¬ NoDup (ids (style2id hp)) →
     ∃ id names,
       load = Err (DuplicateStyleId id names)
       ∧ (2 ≤ List.length names)%nat
       ∧ ∀ name, name ∈ names ↔ (name, id) ∈ style2id hp).
Proof.
  intros Harch Hparse Hsp Hst load. subst load.
  unfold loadAndValidateHyperParametersAndStyleVectors.
  rewrite Harch, Hparse. cbn [mbind Result_bind]. unfold require.
  destruct (spk2id hp) as [|e1 l1] eqn:E1; [done|].
  destruct (style2id hp) as [|e2 l2] eqn:E2; [done|].
  cbn [List.length Object_keys fmap list_fmap Nat.eqb negb mbind Result_bind].
  split.
  - intros (id & -> & Hlen)%(check_duplicate_ids_Err DuplicateSpeakerId).
    exists id, (names_with_id id (e1 :: l1)). split; [done|]. split; [done|].
    intros name. apply elem_of_names_with_id.
  - intros Hnd (id & Hdup & Hlen)%(check_duplicate_ids_Err DuplicateStyleId).
    assert (check_duplicate_ids DuplicateSpeakerId (e1 :: l1)
            = Ok (list_to_set (ids (e1 :: l1)))) as ->
      by (by apply check_duplicate_ids_Ok).
    cbn [mbind Result_bind]. rewrite Hdup.
    exists id, (names_with_id id (e2 :: l2)). split; [done|]. split; [done|].
    intros name. apply elem_of_names_with_id.
Qed.

(** X3. When the file parses, both maps have an entry and no identifier
    is given twice: the first style whose identifier is below 0 or above 31
    makes the loader fail with an error that names it; with every style in
    range, so does the first speaker whose identifier is negative; and with
    the identifiers all valid, a missing style-vectors file is what the
    loader reports. *)
Theorem load_reports_first_id_out_of_range model_architecture file style_vectors_file hp :
  is_style_bert_vits2 model_architecture = true →
  StyleBertVITS2HyperParametersSchema_parse file = Some hp →
  spk2id hp ≠ [] → style2id hp ≠ [] →
  NoDup (ids (spk2id hp)) → NoDup (ids (style2id hp)) →
  let load :=
    loadAndValidateHyperParametersAndStyleVectors model_architecture file
      style_vectors_file in
  (∀ pre name id post,
     style2id hp = pre ++ (name, id) :: post →
     (∀ n i, (n, i) ∈ pre → 0 ≤ i ≤ 31) → ¬ (0 ≤ id ≤ 31) →
     load = Err (StyleIdOutOfRange name id))
  ∧ ((∀ n i, (n, i) ∈ style2id hp → 0 ≤ i ≤ 31) →
     (∀ pre name id post,
        spk2id hp = pre ++ (name, id) :: post →
        (∀ n i, (n, i) ∈ pre → 0 ≤ i) → id < 0 →
        load = Err (SpeakerIdOutOfRange name id))
     ∧ ((∀ n i, (n, i) ∈ spk2id hp → 0 ≤ i) → style_vectors_file = None →
        load = Err StyleVectorsFileMissing)).
Proof.
  intros Harch Hparse Hsp Hst Hnd1 Hnd2 load. subst load.
  unfold loadAndValidateHyperParametersAndStyleVectors.
  rewrite Harch, Hparse. cbn [mbind Result_bind]. unfold require.
  assert (check_duplicate_ids DuplicateSpeakerId (spk2id hp)
          = Ok (list_to_set (ids (spk2id hp)))) as Hd1
    by (by apply check_duplicate_ids_Ok).
  assert (check_duplicate_ids DuplicateStyleId (style2id hp)
          = Ok (list_to_set (ids (style2id hp)))) as Hd2
    by (by apply check_duplicate_ids_Ok).
  rewrite Hd1, Hd2.
  destruct (spk2id hp) as [|e1 l1] eqn:E1; [done|].
  destruct (style2id hp) as [|e2 l2] eqn:E2; [done|].
  cbn [List.length Object_keys fmap list_fmap Nat.eqb negb mbind Result_bind].
  split.
  - intros pre name id post -> Hpre Hid.
    unfold check_style_id_range, Object_entries.
    rewrite (for_of_unit_first _ pre post (name, id) (StyleIdOutOfRange name id)); [done| |].
    + intros [n i] Hin. specialize (Hpre _ _ Hin). simpl.
      assert ((i <? 0) = false) as -> by (apply Z.ltb_ge; lia).
      by assert ((i >? 31) = false) as -> by (rewrite Z.gtb_ltb; apply Z.ltb_ge; lia).
    + simpl. destruct (id <? 0) eqn:Hlo; [done|]. apply Z.ltb_ge in Hlo.
      assert ((id >? 31) = true) as -> by (rewrite Z.gtb_ltb; apply Z.ltb_lt; lia).
      done.
  - intros Hrange. apply (proj2 (check_style_id_range_Ok _)) in Hrange.
    rewrite Hrange. cbn [mbind Result_bind]. split.
    + intros pre name id post -> Hpre Hid.
      unfold check_speaker_id_range, Object_entries.
      rewrite (for_of_unit_first _ pre post (name, id) (SpeakerIdOutOfRange name id));
        [done| |].
      * intros [n i] Hin. specialize (Hpre _ _ Hin). simpl.
        by assert ((i <? 0) = false) as -> by (apply Z.ltb_ge; lia).
      * simpl. by assert ((id <? 0) = true) as -> by (apply Z.ltb_lt; lia).
    + intros Hpos ->. apply (proj2 (check_speaker_id_range_Ok _)) in Hpos.
      by rewrite Hpos.
Qed.

End LoadingErrors.

(** ** generateAivmMetadata: the manifest it builds *)

Section GenerateResult.
Context `{!Platform}.

Lemma generate_manifest n model_architecture file style_vectors_file md :
  generateAivmMetadata n model_architecture file style_vectors_file = Ok md →
  let hp := AivmMetadata.hyper_parameters md in
  loadAndValidateHyperParametersAndStyleVectors model_architecture file
    style_vectors_file = Ok (hp, default [] (AivmMetadata.style_vectors md))
  ∧ AivmMetadata.style_vectors md = style_vectors_file
  ∧ AivmMetadata.manifest md =
      Manifest.set_speakers
        (imap (λ (speaker_id : nat) (speaker_name : string),
           {| Speaker.name := speaker_name;
              Speaker.icon := DEFAULT_ICON_DATA_URL;
              Speaker.supported_languages := languages_of hp;
              Speaker.uuid := uuid_v4 (S n + speaker_id);
              Speaker.local_id := Z.of_nat speaker_id;
              Speaker.styles :=
                imap (λ (style_id : nat) (style_name : string),
                   {| Style.name := new_style_name (style2id hp) style_name;
                      Style.icon := None;
                      Style.local_id := Z.of_nat style_id;
                      Style.voice_samples := [] |})
                  (Object_keys (style2id hp)) |})
           (Object_keys (spk2id hp)))
        (Manifest.set_uuid (uuid_v4 n)
           (Manifest.set_model_architecture (architecture_of hp)
              (Manifest.set_name (HyperParameters.model_name hp) DefaultAivmManifest))).
Proof.
  unfold generateAivmMetadata.
  destruct (loadAndValidateHyperParametersAndStyleVectors _ _ _) as [[hp sv]|] eqn:E;
    [|done].
  pose proof E as (-> & _ & -> & _)%load_Ok. simpl.
  by intros [= <-].
Qed.

(** X4. The manifest [generateAivmMetadata] returns names the speakers of
    [spk2id], in the order of its keys, each of them with one style per key
    of [style2id], in order, without icon or voice sample, and with the
    languages of the architecture. The architecture written to the manifest
    is decided by [use_jp_extra] of the hyper-parameters, not by the
    architecture the caller passed; the name is the model name of the
    hyper-parameters, the format stays that of the default manifest, and
    the style vectors are the bytes of the file given. *)
Theorem generate_builds_speakers_from_keys n model_architecture file
    style_vectors_file md :
  generateAivmMetadata n model_architecture file style_vectors_file = Ok md →
  let hp := AivmMetadata.hyper_parameters md in
  let manifest := AivmMetadata.manifest md in
  Speaker.name <$> Manifest.speakers manifest = Object_keys (spk2id hp)
  ∧ (∀ sp, sp ∈ Manifest.speakers manifest →
       Style.name <$> Speaker.styles sp
         = new_style_name (style2id hp) <$> Object_keys (style2id hp)
       ∧ Speaker.supported_languages sp = languages_of hp
       ∧ Speaker.icon sp = DEFAULT_ICON_DATA_URL
       ∧ ∀ st, st ∈ Speaker.styles sp →
           Style.icon st = None ∧ Style.voice_samples st = [])
  ∧ Manifest.name manifest = HyperParameters.model_name hp
  ∧ Manifest.model_architecture manifest = architecture_of hp
  ∧ Manifest.model_format manifest = "Safetensors"
  ∧ Manifest.uuid manifest = uuid_v4 n
  ∧ StyleBertVITS2HyperParametersSchema_parse file = Some hp
  ∧ AivmMetadata.style_vectors md = style_vectors_file.
Proof.
  intros Hgen hp manifest.
  pose proof Hgen as (Hload & Hsv & Hm)%generate_manifest.
  apply load_Ok in Hload as (_ & Hparse & _).
  subst manifest. fold hp in Hm. rewrite Hm. simpl.
  split.
  { apply list_eq. intros i. rewrite list_lookup_fmap, list_lookup_imap.
    by destruct (Object_keys (spk2id hp) !! i). }
  split; [|done].
  intros sp (i & name & -> & _)%elem_of_lookup_imap. simpl.
  split.
  { apply list_eq. intros j. rewrite !list_lookup_fmap, list_lookup_imap.
    by destruct (Object_keys (style2id hp) !! j). }
  do 2 (split; [done|]).
  by intros st (j & style_name & -> & _)%elem_of_lookup_imap.
Qed.

(** Pairwise distinct numbers between 0 and 31 are 32 at most. *)
Lemma distinct_ids_at_most_32 (l : list Z) :
  NoDup l → (∀ id, id ∈ l → 0 ≤ id ≤ 31) → (List.length l ≤ 32)%nat.
Proof.
  intros Hnd Hrange.
  assert (l ⊆+ (Z.of_nat <$> seq 0 32)) as Hsub.
  { apply NoDup_submseteq; [done|]. intros id Hid. specialize (Hrange id Hid).
    apply list_elem_of_fmap. exists (Z.to_nat id). split; [lia|].
    apply elem_of_seq. lia. }
  apply submseteq_length in Hsub. by rewrite length_fmap, length_seq in Hsub.
Qed.

Lemma new_style_name_nonempty style2id style_name :
  nonempty style_name = true → nonempty (new_style_name style2id style_name) = true.
Proof.
  intros Hne. unfold new_style_name. by destruct (_ && _).
Qed.

(** X5. The manifest [generateAivmMetadata] returns is within the
    enumerations and the numeric ranges of the manifest schema, so long as
    the model name and the names of the speakers and of the styles in the
    hyper-parameters are not empty: the architecture is one of the two, and
    since the identifiers of [style2id] are distinct numbers between 0 and
    31, the styles are 32 at most and their positions, which become their
    [local_id]s, do not exceed 31. *)
Theorem generate_within_schema_ranges n model_architecture file style_vectors_file md :
  generateAivmMetadata n model_architecture file style_vectors_file = Ok md →
  let hp := AivmMetadata.hyper_parameters md in
  HyperParameters.model_name hp ≠ "" →
  "" ∉ Object_keys (spk2id hp) →
  "" ∉ Object_keys (style2id hp) →
  AivmManifestSchema_refinements (AivmMetadata.manifest md) = true
  ∧ (List.length (Object_keys (style2id hp)) ≤ 32)%nat.
Proof.
  intros Hgen hp Hname Hspk Hsty.
  pose proof Hgen as (Hload & _ & Hm)%generate_manifest. fold hp in Hload, Hm.
  apply load_Ok_valid in Hload as (_ & _ & _ & Hnd & Hrange & _).
  assert (List.length (Object_keys (style2id hp)) ≤ 32)%nat as Hlen.
  { unfold Object_keys. rewrite length_fmap, <- (length_fmap snd).
    apply distinct_ids_at_most_32; [done|].
    intros id ([name id'] & -> & Hin)%list_elem_of_fmap. by apply (Hrange name). }
  split; [|done]. rewrite Hm. unfold AivmManifestSchema_refinements. simpl.
  assert (nonempty (HyperParameters.model_name hp) = true) as ->.
  { unfold nonempty. by rewrite bool_decide_eq_false_2. }
  assert (includes ModelArchitectureSchema (architecture_of hp) = true) as ->.
  { unfold architecture_of. by destruct (use_jp_extra hp). }
  simpl. apply forallb_forall. intros sp Hsp%list_elem_of_In.
  apply elem_of_lookup_imap in Hsp as (i & name & -> & Hi).
  unfold Speaker_refinements. simpl.
  assert (nonempty name = true) as ->.
  { unfold nonempty. rewrite bool_decide_eq_false_2; [done|]. intros ->.
    apply Hspk. by apply list_elem_of_lookup_2 in Hi. }
  assert ((0 <=? Z.of_nat i) = true) as -> by (apply Z.leb_le; lia).
  simpl. apply forallb_forall. intros st Hst%list_elem_of_In.
  apply elem_of_lookup_imap in Hst as (j & style_name & -> & Hj).
  unfold Style_refinements. simpl.
  rewrite new_style_name_nonempty.
  2: { unfold nonempty. rewrite bool_decide_eq_false_2; [done|]. intros ->.
       apply Hsty. by apply list_elem_of_lookup_2 in Hj. }
  apply lookup_lt_Some in Hj.
  assert ((0 <=? Z.of_nat j) = true) as -> by (apply Z.leb_le; lia).
  by assert ((Z.of_nat j <=? 31) = true) as -> by (apply Z.leb_le; lia).
Qed.

End GenerateResult.

(** ** updateAivmMetadata: what the result keeps, drops and adds *)

Section UpdateFacts.
Context `{!Platform}.
Implicit Types (hp : HyperParameters.t) (sp : Speaker.t) (st : Style.t).

(** A successful update has loaded its hyper-parameters. *)
Lemma update_loaded n existing file style_vectors_file md ws :
  updateAivmMetadata n existing file style_vectors_file = Ok (md, ws) →
  ∃ sv, loadAndValidateHyperParametersAndStyleVectors
          (Manifest.model_architecture (AivmMetadata.manifest existing))
          file style_vectors_file = Ok (AivmMetadata.hyper_parameters md, sv).
Proof.
  unfold updateAivmMetadata.
  destruct (loadAndValidateHyperParametersAndStyleVectors _ _ _) as [[hp sv]|] eqn:E;
    [|done].
  pose proof E as (-> & _)%load_Ok. simpl.
  destruct (reconcile_speakers _ _ _ _) as [updated_speakers warnings].
  destruct (check_updated_speakers updated_speakers) as [[]|]; [|done].
  simpl. intros [= <- <-]. by exists sv.
Qed.

(** X6. [updateAivmMetadata] fails exactly when loading the new
    hyper-parameters and style vectors fails, and with the error of the
    loader: the two checks on the updated speakers never fail, since the
    loader has already refused hyper-parameters without a speaker or
    without a style. *)
Theorem update_fails_only_as_load_fails n existing file style_vectors_file e :
  updateAivmMetadata n existing file style_vectors_file = Err e
  ↔ loadAndValidateHyperParametersAndStyleVectors
      (Manifest.model_architecture (AivmMetadata.manifest existing))
      file style_vectors_file = Err e.
Proof.
  unfold updateAivmMetadata.
  destruct (loadAndValidateHyperParametersAndStyleVectors _ _ _) as [[hp sv]|e'] eqn:E;
    [|simpl; split; by intros [= ->]].
  pose proof E as (-> & _ & _ & Hspk & Hsty)%load_Ok. simpl.
  pose proof (reconcile_speakers_not_empty n
    (Manifest.speakers (AivmMetadata.manifest existing)) hp [] Hspk Hsty) as Hc.
  destruct (reconcile_speakers _ _ _ _) as [updated_speakers warnings].
  simpl in Hc. by rewrite Hc.
Qed.

(** X7. What a successful update keeps of the manifest: everything but
    the architecture and the speakers. The name, description, creators,
    license, format, training figures, uuid and version are those of the
    existing manifest (the model name of the new hyper-parameters is not
    taken over); the architecture is the one [use_jp_extra] of the new
    hyper-parameters decides; every speaker of the result supports the
    languages of that architecture; the hyper-parameters and the style
    vectors are the new ones. *)
Theorem update_keeps_manifest_fields n existing file style_vectors_file md ws :
  updateAivmMetadata n existing file style_vectors_file = Ok (md, ws) →
  let hp := AivmMetadata.hyper_parameters md in
  let old := AivmMetadata.manifest existing in
  let new := AivmMetadata.manifest md in
  Manifest.set_speakers (Manifest.speakers old)
    (Manifest.set_model_architecture (Manifest.model_architecture old) new) = old
  ∧ Manifest.model_architecture new = architecture_of hp
  ∧ (∀ sp, sp ∈ Manifest.speakers new → Speaker.supported_languages sp = languages_of hp)
  ∧ StyleBertVITS2HyperParametersSchema_parse file = Some hp
  ∧ AivmMetadata.style_vectors md = style_vectors_file.
Proof.
  intros Hup hp old new.
  pose proof Hup as Hspeakers%update_speakers.
  pose proof Hup as (Hparse & _ & _ & Hsv & Hm & _)%update_Ok.
  subst new. fold hp in Hspeakers, Hm. rewrite Hspeakers. rewrite Hm. simpl.
  split; [unfold old; by destruct (AivmMetadata.manifest existing)|].
  split; [done|]. split; [|done].
  intros sp [(sp0 & -> & _)%list_elem_of_fmap
            |(i & e & -> & _)%elem_of_lookup_imap]%elem_of_app; done.
Qed.

Lemma local_ids_new_speakers hp n (entries : JsObject Z) :
  Speaker.local_id <$> imap (λ i e, new_speaker hp (n + i) e) entries = ids entries.
Proof.
  unfold ids. apply list_eq. intros i.
  rewrite !list_lookup_fmap, list_lookup_imap. by destruct (entries !! i).
Qed.

Lemma local_ids_updated_speakers hp (l : list Speaker.t) :
  Speaker.local_id <$> (updated_speaker hp <$> l) = Speaker.local_id <$> l.
Proof. rewrite <- list_fmap_compose. by apply list_fmap_ext. Qed.

Lemma local_ids_updated_styles hp sp :
  Style.local_id <$> updated_styles hp sp
  = (Style.local_id <$> retained_styles hp sp) ++ ids (added_styles hp sp).
Proof.
  unfold updated_styles, ids. rewrite fmap_app, <- list_fmap_compose. done.
Qed.

Lemma local_ids_new_styles hp :
  Style.local_id <$> Speaker.styles (new_speaker hp 0 ("", 0)) = ids (style2id hp).
Proof.
  simpl. unfold ids. rewrite <- list_fmap_compose. apply list_fmap_ext.
  by intros _ [name id] _.
Qed.

(** X8. After a successful update the [local_id]s of the speakers are
    exactly the identifiers of the new [spk2id], and the [local_id]s of
    the styles of every speaker are exactly the identifiers of the new
    [style2id]. *)
Theorem update_ids_are_the_new_ids n existing file style_vectors_file md ws :
  updateAivmMetadata n existing file style_vectors_file = Ok (md, ws) →
  let hp := AivmMetadata.hyper_parameters md in
  let speakers := Manifest.speakers (AivmMetadata.manifest md) in
  (∀ id, id ∈ Speaker.local_id <$> speakers ↔ id ∈ ids (spk2id hp))
  ∧ ∀ sp, sp ∈ speakers →
      ∀ id, id ∈ Style.local_id <$> Speaker.styles sp ↔ id ∈ ids (style2id hp).
Proof.
  intros Hup hp speakers. subst speakers.
  rewrite (update_speakers _ _ _ _ _ _ Hup). fold hp.
  set (existing_speakers := Manifest.speakers (AivmMetadata.manifest existing)).
  split.
  - intros id. rewrite fmap_app, elem_of_app, local_ids_updated_speakers,
      local_ids_new_speakers.
    unfold ids, added_speakers, retained_speakers.
    rewrite !list_elem_of_fmap. split.
    + intros [(sp & -> & [Hid _]%list_elem_of_filter)
             |(e & -> & [_ He]%list_elem_of_filter)].
      * by apply list_elem_of_fmap in Hid.
      * by exists e.
    + intros (e & -> & He).
      destruct (decide (e.2 ∈ Speaker.local_id <$>
                  filter (λ sp, Speaker.local_id sp ∈ (spk2id hp).*2) existing_speakers))
        as [Hin|Hn].
      * left. by apply list_elem_of_fmap in Hin.
      * right. exists e. split; [done|]. by apply list_elem_of_filter.
  - assert (∀ sp0 id, id ∈ Style.local_id <$> updated_styles hp sp0
                      ↔ id ∈ ids (style2id hp)) as Hupdated.
    { intros sp0 id. rewrite local_ids_updated_styles, elem_of_app.
      unfold ids, added_styles, retained_styles. rewrite !list_elem_of_fmap. split.
      - intros [(st & -> & [Hid _]%list_elem_of_filter)
               |(e & -> & [_ He]%list_elem_of_filter)].
        + by apply list_elem_of_fmap in Hid.
        + by exists e.
      - intros (e & -> & He).
        destruct (decide (e.2 ∈ Style.local_id <$>
                    filter (λ st, Style.local_id st ∈ (style2id hp).*2) (Speaker.styles sp0)))
          as [Hin|Hn].
        + left. by apply list_elem_of_fmap in Hin.
        + right. exists e. split; [done|]. by apply list_elem_of_filter. }
    intros sp [(sp0 & -> & _)%list_elem_of_fmap
              |(i & e & -> & _)%elem_of_lookup_imap]%elem_of_app id.
    + apply Hupdated.
    + by rewrite <- local_ids_new_styles.
Qed.

Lemma NoDup_fmap_filter {A B} (f : A → B) (P : A → Prop) `{!∀ x, Decision (P x)}
    (l : list A) :
  NoDup (f <$> l) → NoDup (f <$> filter P l).
Proof.
  intros Hnd. eapply sublist_NoDup; [done|]. apply fmap_sublist, sublist_filter.
Qed.

(** X9. An update keeps the [local_id]s distinct: when those of the
    existing speakers are pairwise distinct, so are those of the speakers
    of the result; when those of the styles of each existing speaker are
    pairwise distinct, so are those of the styles of each speaker of the
    result. *)
Theorem update_keeps_ids_distinct n existing file style_vectors_file md ws :
  updateAivmMetadata n existing file style_vectors_file = Ok (md, ws) →
  let old := Manifest.speakers (AivmMetadata.manifest existing) in
  let new := Manifest.speakers (AivmMetadata.manifest md) in
  (NoDup (Speaker.local_id <$> old) → NoDup (Speaker.local_id <$> new))
  ∧ ((∀ sp, sp ∈ old → NoDup (Style.local_id <$> Speaker.styles sp)) →
     ∀ sp, sp ∈ new → NoDup (Style.local_id <$> Speaker.styles sp)).
Proof.
  intros Hup old new. subst new.
  pose proof Hup as [sv Hload]%update_loaded.
  apply load_Ok_valid in Hload as (_ & _ & Hnd1 & Hnd2 & _).
  rewrite (update_speakers _ _ _ _ _ _ Hup). fold old.
  set (hp := AivmMetadata.hyper_parameters md) in *.
  split.
  - intros Hold. rewrite fmap_app, local_ids_updated_speakers, local_ids_new_speakers.
    apply NoDup_app. split; [by apply NoDup_fmap_filter|]. split.
    + intros id Hin (e & -> & [He _]%list_elem_of_filter)%list_elem_of_fmap. done.
    + unfold ids, added_speakers. by apply NoDup_fmap_filter.
  - intros Hold sp [(sp0 & -> & [_ Hsp0]%list_elem_of_filter)%list_elem_of_fmap
                   |(i & e & -> & _)%elem_of_lookup_imap]%elem_of_app.
    + simpl. rewrite local_ids_updated_styles. apply NoDup_app.
      split; [by apply NoDup_fmap_filter, Hold|]. split.
      * intros id Hin (e & -> & [He _]%list_elem_of_filter)%list_elem_of_fmap. done.
      * unfold ids, added_styles. by apply NoDup_fmap_filter.
    + by rewrite <- (local_ids_new_styles hp) in Hnd2.
Qed.

(** X10. Speakers that go and speakers that come. An existing speaker
    whose [local_id] is no identifier of the new [spk2id] has no
    counterpart in the result and is reported as removed. An entry of the
    new [spk2id] whose identifier no existing speaker has becomes a
    speaker with the entry's name and identifier, the default icon, a
    uuid drawn during the call and one created style per entry of the new
    [style2id], and is reported as added. *)
Theorem update_removes_and_adds_speakers n existing file style_vectors_file md ws :
  updateAivmMetadata n existing file style_vectors_file = Ok (md, ws) →
  let hp := AivmMetadata.hyper_parameters md in
  let old := Manifest.speakers (AivmMetadata.manifest existing) in
  let new := Manifest.speakers (AivmMetadata.manifest md) in
  (∀ sp, sp ∈ old → Speaker.local_id sp ∉ ids (spk2id hp) →
     (∀ sp', sp' ∈ new → Speaker.local_id sp' ≠ Speaker.local_id sp)
     ∧ SpeakerRemoved (Speaker.name sp) (Speaker.local_id sp) ∈ ws)
  ∧ (∀ name id, (name, id) ∈ spk2id hp → id ∉ Speaker.local_id <$> old →
       SpeakerAdded name id ∈ ws
       ∧ ∃ sp' i, sp' ∈ new
           ∧ Speaker.name sp' = name ∧ Speaker.local_id sp' = id
           ∧ Speaker.icon sp' = DEFAULT_ICON_DATA_URL
           ∧ Speaker.uuid sp' = uuid_v4 (n + i)
           ∧ Speaker.styles sp'
             = (λ e : string * Z, created_style (style2id hp) e.1 e.2) <$> style2id hp).
Proof.
  intros Hup hp old new.
  pose proof Hup as Hspeakers%update_speakers.
  pose proof Hup as (_ & _ & _ & _ & _ & Hws & _)%update_Ok.
  fold hp old in Hspeakers, Hws. rewrite reconcile_speakers_spec in Hws.
  simpl in Hws. subst new. split.
  - intros sp Hsp Hid. split.
    + intros sp' Hsp' Heq. apply Hid. rewrite <- Heq. rewrite Hspeakers in Hsp'.
      apply elem_of_app in Hsp' as [(sp0 & -> & [Hsp0 _]%list_elem_of_filter)%list_elem_of_fmap
                                   |(i & e & -> & Hi)%elem_of_lookup_imap]; [done|].
      apply list_elem_of_lookup_2, list_elem_of_filter in Hi as [_ He]. simpl.
      apply list_elem_of_fmap. by exists e.
    + rewrite Hws. apply elem_of_app. left. apply list_elem_of_In, in_concat.
      exists (speaker_warnings hp sp). split.
      * apply list_elem_of_In, list_elem_of_fmap. by exists sp.
      * apply list_elem_of_In. unfold speaker_warnings.
        rewrite decide_False by done. left.
  - intros name id He Hid.
    assert ((name, id) ∈ added_speakers hp old) as Hadded.
    { apply list_elem_of_filter. split; [|done]. simpl.
      intros (sp & Heq & [_ Hsp]%list_elem_of_filter)%list_elem_of_fmap.
      apply Hid. apply list_elem_of_fmap. by exists sp. }
    split.
    + rewrite Hws. apply elem_of_app. right.
      apply list_elem_of_fmap. by exists (name, id).
    + apply list_elem_of_lookup in Hadded as [i Hi].
      exists (new_speaker hp (n + i) (name, id)), i.
      split; [|repeat split].
      * rewrite Hspeakers. apply elem_of_app. right.
        apply elem_of_lookup_imap. by exists i, (name, id).
      * simpl. apply list_fmap_ext. by intros _ [? ?] _.
Qed.

End UpdateFacts.

Section UpdateSilent.
Context `{!Platform}.
Implicit Types (hp : HyperParameters.t) (sp : Speaker.t) (st : Style.t).

Lemma filter_nil_iff {A} (P : A → Prop) `{!∀ x, Decision (P x)} (l : list A) :
  filter P l = [] ↔ ∀ x, x ∈ l → ¬ P x.
Proof.
  split.
  - intros Hnil x Hin Hp. by apply (filter_nil_not_elem_of P l x).
  - intros Hall. induction l as [|x l IH]; [done|].
    rewrite filter_cons_False by (apply Hall; left).
    apply IH. intros y Hy. apply Hall. by right.
Qed.

Lemma filter_all {A} (P : A → Prop) `{!∀ x, Decision (P x)} (l : list A) :
  (∀ x, x ∈ l → P x) → filter P l = l.
Proof.
  intros Hall. induction l as [|x l IH]; [done|].
  rewrite filter_cons_True by (apply Hall; left).
  f_equal. apply IH. intros y Hy. apply Hall. by right.
Qed.

Lemma concat_nil_iff {A} (ls : list (list A)) :
  List.concat ls = [] ↔ ∀ l, l ∈ ls → l = [].
Proof.
  induction ls as [|l ls IH]; simpl.
  - split; [by intros _ ? ?%elem_of_nil | done].
  - split.
    + intros [-> Hls]%app_eq_nil l' [->|Hin]%elem_of_cons; [done|]. by apply IH.
    + intros Hall. rewrite (Hall l) by left. simpl. apply IH.
      intros l' Hl'. apply Hall. by right.
Qed.

(** The new hyper-parameters describe the existing speakers as they
    are: same speaker identifiers, and for every speaker the same style
    identifiers and the languages of the architecture. *)
Definition describes hp (existing : list Speaker.t) : Prop :=
  (∀ sp, sp ∈ existing →
     Speaker.local_id sp ∈ ids (spk2id hp)
     ∧ Speaker.supported_languages sp = languages_of hp
     ∧ (∀ st, st ∈ Speaker.styles sp → Style.local_id st ∈ ids (style2id hp))
     ∧ (∀ id, id ∈ ids (style2id hp) → id ∈ Style.local_id <$> Speaker.styles sp))
  ∧ ∀ id, id ∈ ids (spk2id hp) → id ∈ Speaker.local_id <$> existing.

Lemma speaker_warnings_nil hp sp :
  speaker_warnings hp sp = [] ↔
    Speaker.local_id sp ∈ ids (spk2id hp)
    ∧ Speaker.supported_languages sp = languages_of hp
    ∧ (∀ st, st ∈ Speaker.styles sp → Style.local_id st ∈ ids (style2id hp))
    ∧ (∀ id, id ∈ ids (style2id hp) → id ∈ Style.local_id <$> Speaker.styles sp).
Proof.
  unfold speaker_warnings.
  destruct (decide (Speaker.local_id sp ∈ ids (spk2id hp))) as [Hid|Hid];
    [|naive_solver].
  destruct (decide (Speaker.supported_languages sp = languages_of hp)) as [Hl|Hl].
  2: { split; [|naive_solver].
       by intros [_ [_ ?]%app_eq_nil]%app_eq_nil. }
  rewrite app_nil_r. unfold removed_styles, added_styles. split.
  - intros [Hrem%fmap_nil_inv Hadd%fmap_nil_inv]%app_eq_nil.
    pose proof (proj1 (filter_nil_iff _ _) Hrem) as Hrem'.
    pose proof (proj1 (filter_nil_iff _ _) Hadd) as Hadd'. simpl in Hrem', Hadd'.
    split; [done|]. split; [done|].
    assert (∀ st, st ∈ Speaker.styles sp → Style.local_id st ∈ ids (style2id hp))
      as Hall.
    { intros st Hst. destruct (decide (Style.local_id st ∈ ids (style2id hp)));
        [done|]. by destruct (Hrem' st Hst). }
    split; [done|].
    intros id ([name id'] & -> & He)%list_elem_of_fmap.
    specialize (Hadd' _ He). simpl in Hadd'.
    unfold retained_styles in Hadd'. rewrite filter_all in Hadd' by done.
    destruct (decide (id' ∈ Style.local_id <$> Speaker.styles sp)); [done|].
    by destruct Hadd'.
  - intros (_ & _ & Hall & Hcover).
    rewrite (proj2 (filter_nil_iff _ (Speaker.styles sp))).
    2: { intros st Hst Hn. by apply Hn, Hall. }
    rewrite (proj2 (filter_nil_iff _ (style2id hp))); [done|].
    intros e He Hn. apply Hn. unfold retained_styles.
    rewrite filter_all by done. apply Hcover.
    unfold ids. apply list_elem_of_fmap. by exists e.
Qed.

Lemma updated_speaker_same hp sp :
  speaker_warnings hp sp = [] → updated_speaker hp sp = sp.
Proof.
  intros Hnil. pose proof Hnil as (_ & Hl & Hall & _)%speaker_warnings_nil.
  unfold speaker_warnings in Hnil.
  destruct (decide (Speaker.local_id sp ∈ ids (spk2id hp))); [|done].
  apply app_eq_nil in Hnil as [_ [Hadd%fmap_nil_inv _]%app_eq_nil].
  unfold updated_speaker, updated_styles, Speaker.with_languages_and_styles.
  rewrite Hadd, <- Hl. simpl. rewrite app_nil_r.
  unfold retained_styles. rewrite filter_all by done. by destruct sp.
Qed.

(** X11. An update reports no warning exactly when the new
    hyper-parameters describe the existing speakers as they are: the same
    speaker identifiers, and for each speaker the same style identifiers
    and the languages of the new architecture. It then returns the
    existing manifest, with the architecture set from the new
    hyper-parameters and the speakers and their styles untouched, names
    included: a speaker or a style renamed in the hyper-parameters alone
    is not renamed in the manifest. *)
Theorem update_without_warnings_changes_nothing n existing file style_vectors_file md ws :
  updateAivmMetadata n existing file style_vectors_file = Ok (md, ws) →
  let hp := AivmMetadata.hyper_parameters md in
  let old := AivmMetadata.manifest existing in
  (ws = [] ↔ describes hp (Manifest.speakers old))
  ∧ (ws = [] →
     AivmMetadata.manifest md = Manifest.set_model_architecture (architecture_of hp) old).
Proof.
  intros Hup hp old.
  pose proof Hup as Hspeakers%update_speakers.
  pose proof Hup as (_ & _ & _ & _ & Hm & Hws & _)%update_Ok.
  fold hp old in Hspeakers, Hws, Hm. rewrite reconcile_speakers_spec in Hws.
  simpl in Hws.
  assert (ws = [] ↔
          (∀ sp, sp ∈ Manifest.speakers old → speaker_warnings hp sp = [])
          ∧ added_speakers hp (Manifest.speakers old) = []) as Hnil.
  { rewrite Hws. split.
    - intros [Hc Ha%fmap_nil_inv]%app_eq_nil. split; [|done].
      intros sp Hsp. apply (proj1 (concat_nil_iff _) Hc).
      apply list_elem_of_fmap. by exists sp.
    - intros [Hall Hadd]. rewrite Hadd. simpl. rewrite app_nil_r.
      apply concat_nil_iff. intros l (sp & -> & Hsp)%list_elem_of_fmap.
      by apply Hall. }
  assert ((∀ sp, sp ∈ Manifest.speakers old → speaker_warnings hp sp = []) →
          retained_speakers hp (Manifest.speakers old) = Manifest.speakers old)
    as Hretained.
  { intros Hall. apply filter_all. intros sp Hsp.
    by apply Hall, speaker_warnings_nil in Hsp as (? & _). }
  split.
  - etrans; [exact Hnil|]. unfold describes. split.
    + intros [Hall Hadd]. split.
      * intros sp Hsp. by apply speaker_warnings_nil, Hall.
      * intros id ([name id'] & -> & He)%list_elem_of_fmap.
        unfold added_speakers in Hadd. rewrite Hretained in Hadd by done.
        destruct (decide (id' ∈ Speaker.local_id <$> Manifest.speakers old)); [done|].
        by destruct (proj1 (filter_nil_iff _ _) Hadd _ He).
    + intros [Hall Hcover].
      assert (∀ sp, sp ∈ Manifest.speakers old → speaker_warnings hp sp = []) as Hall'
        by (intros sp Hsp; by apply speaker_warnings_nil, Hall).
      split; [done|]. unfold added_speakers. rewrite Hretained by done.
      apply filter_nil_iff. intros e He Hn. apply Hn, Hcover.
      unfold ids. apply list_elem_of_fmap. by exists e.
  - intros [Hall Hadd]%Hnil.
    assert (Manifest.speakers (AivmMetadata.manifest md) = Manifest.speakers old) as Hsame.
    { rewrite Hspeakers, Hadd, Hretained by done. simpl. rewrite app_nil_r.
      rewrite <- (list_fmap_id (Manifest.speakers old)) at 2.
      apply list_fmap_ext. intros _ sp Hsp%list_elem_of_lookup_2.
      by apply updated_speaker_same, Hall. }
    rewrite Hm in Hsame |- *. simpl in Hsame. unfold Manifest.set_speakers.
    simpl. rewrite Hsame. unfold old. by destruct (AivmMetadata.manifest existing).
Qed.

End UpdateSilent.

(** ** applyAivmManifestToHyperParameters: what the rebuilt maps hold *)

Section ApplyFacts.
Implicit Types (o : JsObject Z) (entries : list (string * Z)) (p : Z → bool).

Lemma get_Some_elem {V} (o : JsObject V) k v : Js.get k o = Some v → (k, v) ∈ o.
Proof.
  induction o as [|[k' v'] o IH]; simpl; [done|].
  rewrite eqb_decide. case_bool_decide as Hk.
  - intros [= ->]. subst. left.
  - intros ?%IH. by right.
Qed.

Lemma elem_get_Some {V} (o : JsObject V) k v :
  NoDup (Object_keys o) → (k, v) ∈ o → Js.get k o = Some v.
Proof.
  induction o as [|[k' v'] o IH]; simpl; [by intros _ ?%elem_of_nil|].
  intros [Hk' Hnd]%NoDup_cons [[= -> ->]|Hin]%elem_of_cons.
  - by rewrite String.eqb_refl.
  - rewrite eqb_decide. case_bool_decide as Hk; [|by apply IH].
    subst k'. destruct Hk'. apply list_elem_of_fmap. by exists (k, v).
Qed.

(** An identifier the loop keeps is an identifier of the old map. *)
Lemma kept_known o id : kept o id = true → id ∈ ids o.
Proof.
  unfold kept. destruct (find_key_of_id o id) as [k|] eqn:E; [|done].
  intros _. apply find_key_of_id_Some in E as [_ Hget%get_Some_elem].
  unfold ids. apply list_elem_of_fmap. by exists (k, id).
Qed.

Lemma known_kept o id :
  "" ∉ Object_keys o → NoDup (Object_keys o) → id ∈ ids o → kept o id = true.
Proof.
  intros Hne Hnd ([k id'] & -> & Hin)%list_elem_of_fmap.
  apply kept_iff; [done|]. exists k. by apply elem_get_Some.
Qed.

(** What the rebuilt map binds: names of the entries to their
    identifiers, for identifiers the loop keeps. *)
Lemma get_rebuild_Some p entries k id :
  Js.get k (rebuild p entries) = Some id → (k, id) ∈ entries ∧ p id = true.
Proof.
  rewrite get_rebuild. destruct (binding p k entries) as [[k' id']|] eqn:E; [|done].
  intros [= <-]. by apply binding_Some in E as (Hin & <- & Hp & _).
Qed.

(** No assignment creates a property [__proto__]. *)
Lemma get_rebuild_proto p entries : Js.get "__proto__" (rebuild p entries) = None.
Proof. apply get_None, rebuild_no_proto. Qed.

(** When a name comes with one identifier only, the rebuilt map binds it
    to that identifier. *)
Lemma get_rebuild_entry p entries k id :
  k ≠ "__proto__" →
  (∀ i j, (k, i) ∈ entries → (k, j) ∈ entries → i = j) →
  (k, id) ∈ entries → p id = true →
  Js.get k (rebuild p entries) = Some id.
Proof.
  intros Hk%assignable_iff Hone Hin Hp. rewrite get_rebuild.
  destruct (binding p k entries) as [[k' id']|] eqn:E.
  - apply binding_Some in E as (Hin' & Hk' & _). simpl in Hk'. subst k'.
    simpl. f_equal. by apply Hone.
  - unfold binding in E.
    assert (In (k, id) (rev entries)) as Hrev
      by (by apply in_rev; rewrite rev_involutive; apply list_elem_of_In).
    pose proof (find_none _ _ E _ Hrev) as Hf. simpl in Hf.
    by rewrite bool_decide_eq_true_2, Hk, Hp in Hf.
Qed.

(** X12. For an aggregate of a Style-Bert-VITS2 architecture with style
    vectors, [applyAivmManifestToHyperParameters] succeeds and leaves
    hyper-parameters whose [spk2id] binds a name to an identifier only if
    a speaker of the manifest has that name and that [local_id] and the
    identifier was an identifier of the old [spk2id]: the call renames, it
    never brings in an identifier the hyper-parameters did not have, and it
    drops the speakers whose [local_id] the old map does not have. The
    same holds of [style2id] and the styles. [n_speakers] and [num_styles]
    are the numbers of keys of the new maps, the model name is the name
    of the manifest, and the two file lists are the fixed names. *)
Theorem apply_binds_names_to_known_ids md sv :
  is_style_bert_vits2 (Manifest.model_architecture (AivmMetadata.manifest md)) = true →
  AivmMetadata.style_vectors md = Some sv →
  let m := AivmMetadata.manifest md in
  let old := AivmMetadata.hyper_parameters md in
  let new := AivmMetadata.hyper_parameters (applyAivmManifestToHyperParameters md).1 in
  (applyAivmManifestToHyperParameters md).2 = Ok tt
  ∧ (∀ name id, Js.get name (spk2id new) = Some id →
       id ∈ ids (spk2id old)
       ∧ ∃ sp, sp ∈ Manifest.speakers m ∧ Speaker.name sp = name
               ∧ Speaker.local_id sp = id)
  ∧ (∀ name id, Js.get name (style2id new) = Some id →
       id ∈ ids (style2id old)
       ∧ ∃ sp st, sp ∈ Manifest.speakers m ∧ st ∈ Speaker.styles sp
                  ∧ Style.name st = name ∧ Style.local_id st = id)
  ∧ NoDup (Object_keys (spk2id new)) ∧ NoDup (Object_keys (style2id new))
  ∧ HyperParametersData.n_speakers (HyperParameters.data new)
    = Z.of_nat (List.length (Object_keys (spk2id new)))
  ∧ HyperParametersData.num_styles (HyperParameters.data new)
    = Z.of_nat (List.length (Object_keys (style2id new)))
  ∧ HyperParameters.model_name new = Manifest.name m
  ∧ HyperParametersData.training_files (HyperParameters.data new) = Some "train.list"
  ∧ HyperParametersData.validation_files (HyperParameters.data new) = Some "val.list".
Proof.
  intros Harch Hsv m old new. subst new.
  unfold applyAivmManifestToHyperParameters. rewrite Harch, Hsv. simpl.
  split; [done|]. unfold spk2id, style2id. simpl.
  rewrite rebuild_spk2id_eq, rebuild_style2id_eq.
  split; [|split].
  - intros name id [Hin Hkept]%get_rebuild_Some. split; [by apply kept_known|].
    apply list_elem_of_fmap in Hin as (sp & [= -> ->] & Hsp). by exists sp.
  - intros name id [Hin Hkept]%get_rebuild_Some. split; [by apply kept_known|].
    unfold style_entries in Hin.
    apply list_elem_of_bind in Hin as (sp & Hin & Hsp).
    apply list_elem_of_fmap in Hin as (st & [= -> ->] & Hst). by exists sp, st.
  - split; [apply NoDup_keys_rebuild|]. split; [apply NoDup_keys_rebuild|]. done.
Qed.

End ApplyFacts.

(** ** An update followed by the application of the manifest *)

Section UpdateThenApply.
Context `{!Platform}.

(** The identifiers of an updated manifest are identifiers of the new
    hyper-parameters. *)
Lemma updated_ids_known n existing file style_vectors_file md ws :
  updateAivmMetadata n existing file style_vectors_file = Ok (md, ws) →
  let hp := AivmMetadata.hyper_parameters md in
  ∀ sp, sp ∈ Manifest.speakers (AivmMetadata.manifest md) →
    Speaker.local_id sp ∈ ids (spk2id hp)
    ∧ ∀ st, st ∈ Speaker.styles sp → Style.local_id st ∈ ids (style2id hp).
Proof.
  intros Hup hp sp. rewrite (update_speakers _ _ _ _ _ _ Hup). fold hp.
  intros [(sp0 & -> & [Hid _]%list_elem_of_filter)%list_elem_of_fmap
         |(i & e & -> & Hi)%elem_of_lookup_imap]%elem_of_app.
  - split; [done|]. simpl.
    intros st [[_ ?]|(e & [He _]%elem_of_added_styles & ->)]%elem_of_updated_styles;
      [done|].
    simpl. unfold ids. apply list_elem_of_fmap. by exists e.
  - apply list_elem_of_lookup_2, list_elem_of_filter in Hi as [_ He]. split.
    + simpl. unfold ids. apply list_elem_of_fmap. by exists e.
    + simpl. intros st ([name id] & -> & Hin)%list_elem_of_fmap. simpl.
      unfold ids. apply list_elem_of_fmap. by exists (name, id).
Qed.

(** X13. After a successful update, applying the manifest to the new
    hyper-parameters succeeds and makes [spk2id] bind the name of every
    speaker of the manifest to the speaker's [local_id], and [style2id]
    the name of every style to the style's [local_id], provided the name
    is not used with another identifier in the manifest and no key of the
    new maps is the empty string: the names the manifest kept from the
    existing aggregate replace those of the new hyper-parameters. The one
    exception is a speaker or a style called [__proto__]: the assignment
    under that name creates no property, and the rebuilt map has no such
    key. *)
Theorem update_then_apply_reflects_names n existing file style_vectors_file md ws :
  updateAivmMetadata n existing file style_vectors_file = Ok (md, ws) →
  let hp := AivmMetadata.hyper_parameters md in
  let speakers := Manifest.speakers (AivmMetadata.manifest md) in
  let new := AivmMetadata.hyper_parameters (applyAivmManifestToHyperParameters md).1 in
  "" ∉ Object_keys (spk2id hp) → NoDup (Object_keys (spk2id hp)) →
  "" ∉ Object_keys (style2id hp) → NoDup (Object_keys (style2id hp)) →
  (applyAivmManifestToHyperParameters md).2 = Ok tt
  ∧ Js.get "__proto__" (spk2id new) = None
  ∧ Js.get "__proto__" (style2id new) = None
  ∧ (∀ sp, sp ∈ speakers → Speaker.name sp ≠ "__proto__" →
       (∀ sp', sp' ∈ speakers → Speaker.name sp' = Speaker.name sp →
               Speaker.local_id sp' = Speaker.local_id sp) →
       Js.get (Speaker.name sp) (spk2id new) = Some (Speaker.local_id sp))
  ∧ (∀ sp st, sp ∈ speakers → st ∈ Speaker.styles sp → Style.name st ≠ "__proto__" →
       (∀ sp' st', sp' ∈ speakers → st' ∈ Speaker.styles sp' →
                   Style.name st' = Style.name st →
                   Style.local_id st' = Style.local_id st) →
       Js.get (Style.name st) (style2id new) = Some (Style.local_id st)).
Proof.
  intros Hup hp speakers new Hne1 Hnd1 Hne2 Hnd2. subst new speakers.
  pose proof (updated_ids_known _ _ _ _ _ _ Hup) as Hknown.
  pose proof Hup as (_ & _ & _ & Hsv & Hm & _)%update_Ok.
  pose proof Hup as [sv (_ & _ & -> & _)%load_Ok]%update_loaded.
  fold hp in Hknown, Hm.
  assert (is_style_bert_vits2
            (Manifest.model_architecture (AivmMetadata.manifest md)) = true) as Harch.
  { rewrite Hm. simpl. unfold architecture_of. by destruct (use_jp_extra hp). }
  unfold applyAivmManifestToHyperParameters. rewrite Harch, Hsv. simpl.
  split; [done|]. unfold spk2id, style2id. simpl.
  rewrite rebuild_spk2id_eq, rebuild_style2id_eq.
  split; [apply get_rebuild_proto|]. split; [apply get_rebuild_proto|].
  split.
  - intros sp Hsp Hname Hone. apply get_rebuild_entry; [done|..].
    + intros i j (sp1 & [= Hn1 ->] & Hsp1)%list_elem_of_fmap
                 (sp2 & [= Hn2 ->] & Hsp2)%list_elem_of_fmap.
      rewrite (Hone sp1), (Hone sp2) by done. done.
    + apply list_elem_of_fmap. by exists sp.
    + apply known_kept; [done..|]. by apply Hknown.
  - intros sp st Hsp Hst Hname Hone. apply get_rebuild_entry; [done|..].
    + unfold style_entries.
      intros i j (sp1 & (st1 & [= Hn1 ->] & Hst1)%list_elem_of_fmap & Hsp1)%list_elem_of_bind
                 (sp2 & (st2 & [= Hn2 ->] & Hst2)%list_elem_of_fmap & Hsp2)%list_elem_of_bind.
      rewrite (Hone sp1 st1), (Hone sp2 st2) by done. done.
    + unfold style_entries. apply list_elem_of_bind. exists sp. split; [|done].
      apply list_elem_of_fmap. by exists st.
    + apply known_kept; [done..|]. by apply (Hknown sp).
Qed.

End UpdateThenApply.

(** ** Serializing and validating *)

Section SerializeValidate.
Context `{!Platform}.

Lemma get_dictionary (raw_metadata : JsObject string) k :
  Js.get k (prod_map id JStr <$> raw_metadata) = JStr <$> Js.get k raw_metadata.
Proof.
  induction raw_metadata as [|[k' v'] o IH]; simpl; [done|].
  by destruct (String.eqb k k').
Qed.

(** The three entries of a serialized aggregate. *)
Lemma serialize_get md :
  let raw_metadata := serializeAivmMetadata md in
  Js.get "aivm_manifest" raw_metadata
    = Some (stringify_manifest (AivmMetadata.manifest md))
  ∧ Js.get "aivm_hyper_parameters" raw_metadata
    = Some (stringify_hyper_parameters (AivmMetadata.hyper_parameters md))
  ∧ Js.get "aivm_style_vectors" raw_metadata
    = Base64_fromUint8Array <$> AivmMetadata.style_vectors md.
Proof.
  unfold serializeAivmMetadata.
  destruct (AivmMetadata.style_vectors md) as [sv|]; repeat split; reflexivity.
Qed.

Lemma validate_Ok_refined raw_metadata md :
  validateAivmMetadata raw_metadata = Ok md →
  AivmManifestSchema_refinements (AivmMetadata.manifest md) = true.
Proof.
  unfold validateAivmMetadata.
  destruct raw_metadata as [raw|]; [|done].
  destruct (negb (truthy (Some raw))); [done|].
  destruct (property raw "aivm_manifest") as [manifest_text|]; [|done].
  cbn [mbind Result_bind].
  destruct (negb (truthy manifest_text)); [done|].
  destruct (manifest_text ≫= _) as [m'|] eqn:Hparse; [|done].
  cbn [mbind Result_bind].
  destruct (property raw "aivm_hyper_parameters") as [hp_text|]; [|done].
  cbn [mbind Result_bind].
  destruct (validate_hyper_parameters _ _) as [hp'|]; [|done].
  cbn [mbind Result_bind].
  destruct (property raw "aivm_style_vectors") as [sv_text|]; [|done].
  cbn [mbind Result_bind].
  destruct (validate_style_vectors _) as [sv'|]; [|done].
  cbn [mbind Result_bind]. intros [= <-]. simpl.
  destruct manifest_text as [v|]; [|done]. simpl in Hparse.
  by apply parsed_manifest_refined in Hparse.
Qed.

Lemma refined_architecture (m : Manifest.t) :
  AivmManifestSchema_refinements m = true →
  is_style_bert_vits2 (Manifest.model_architecture m) = true.
Proof.
  unfold AivmManifestSchema_refinements. rewrite !andb_true_iff.
  intros (((((_ & Harch) & _) & _) & _) & _). exact Harch.
Qed.

(** The aggregate as validation gives it back: style vectors whose
    Base64 text is empty count as absent. *)
Definition validated (md : AivmMetadata.t) : AivmMetadata.t :=
  {| AivmMetadata.manifest := AivmMetadata.manifest md;
     AivmMetadata.hyper_parameters := AivmMetadata.hyper_parameters md;
     AivmMetadata.style_vectors :=
       match AivmMetadata.style_vectors md with
       | Some sv => if nonempty (Base64_fromUint8Array sv) then Some sv else None
       | None => None
       end |}.

(** X14. Validating what [serializeAivmMetadata] produced gives the
    aggregate back, when the manifest is one the manifest schema accepts
    from its own JSON text, the hyper-parameters are ones their schema
    accepts from theirs, and Base64 decoding reads back the encoded style
    vectors. One thing is lost: style vectors of no byte at all, whose
    Base64 text is the empty string, are serialized under their key and
    come back as absent. *)
Theorem validate_after_serialize md :
  let m := AivmMetadata.manifest md in
  let hp := AivmMetadata.hyper_parameters md in
  AivmManifestSchema_parse (stringify_manifest m) = Some m →
  StyleBertVITS2HyperParametersSchema_parse (stringify_hyper_parameters hp) = Some hp →
  stringify_manifest m ≠ "" → stringify_hyper_parameters hp ≠ "" →
  (∀ sv, AivmMetadata.style_vectors md = Some sv →
         Base64_toUint8Array (Base64_fromUint8Array sv) = Some sv) →
  validateAivmMetadata (Some (dictionary (serializeAivmMetadata md))) = Ok (validated md).
Proof.
  intros m hp Hm Hhp Hne1 Hne2 Hsv.
  pose proof (serialize_get md) as (G1 & G2 & G3).
  unfold validateAivmMetadata, dictionary.
  cbn [truthy negb property mbind Result_bind].
  rewrite !get_dictionary, G1, G2, G3. fold m hp.
  cbn [fmap option_fmap option_map truthy mbind option_bind text_of].
  assert (nonempty (stringify_manifest m) = true) as ->
    by (unfold nonempty; by rewrite bool_decide_eq_false_2).
  cbn [negb]. rewrite Hm. cbn [mbind Result_bind].
  unfold validate_hyper_parameters. cbn [truthy].
  assert (nonempty (stringify_hyper_parameters hp) = true) as ->
    by (unfold nonempty; by rewrite bool_decide_eq_false_2).
  unfold parse_hyper_parameters_of. cbn [text_of].
  assert (is_style_bert_vits2 (Manifest.model_architecture m) = true) as ->.
  { by apply refined_architecture, (parsed_manifest_refined (stringify_manifest m)). }
  rewrite Hhp. cbn [mbind Result_bind].
  unfold validate_style_vectors, validated.
  destruct (AivmMetadata.style_vectors md) as [sv|] eqn:E; simpl; [|done].
  destruct (nonempty (Base64_fromUint8Array sv)); [|done].
  by rewrite (Hsv sv).
Qed.

(** X15. What validation guarantees of an aggregate it returns, and so
    of every aggregate read from an AIVM or AIVMX file: the architecture
    is one of the two Style-Bert-VITS2 ones and the format one of the two
    formats; the model name, the speaker names and the style names are
    not empty; speaker identifiers are not negative and style identifiers
    lie between 0 and 31. *)
Theorem validated_aggregate_is_within_schema raw_metadata aivm_file aivmx_file md :
  validateAivmMetadata raw_metadata = Ok md
  ∨ readAivmMetadata aivm_file = Ok md
  ∨ readAivmxMetadata aivmx_file = Ok md →
  let m := AivmMetadata.manifest md in
  Manifest.model_architecture m ∈ ModelArchitectureSchema
  ∧ Manifest.model_format m ∈ ModelFormatSchema
  ∧ Manifest.name m ≠ ""
  ∧ ∀ sp, sp ∈ Manifest.speakers m →
      Speaker.name sp ≠ "" ∧ 0 ≤ Speaker.local_id sp
      ∧ ∀ st, st ∈ Speaker.styles sp →
          Style.name st ≠ "" ∧ 0 ≤ Style.local_id st ≤ 31.
Proof.
  intros Hread m.
  assert (AivmManifestSchema_refinements m = true) as Href.
  { destruct Hread as [Hv|[Hr|Hr]].
    - by apply (validate_Ok_refined raw_metadata).
    - unfold readAivmMetadata in Hr.
      destruct (read_raw_metadata aivm_file) as [raw|]; [|done].
      by apply (validate_Ok_refined raw).
    - unfold readAivmxMetadata in Hr.
      destruct (ModelProto_decode aivmx_file) as [model|]; [|done].
      cbn [mbind Result_bind] in Hr. by apply validate_Ok_refined in Hr. }
  unfold AivmManifestSchema_refinements in Href. rewrite !andb_true_iff in Href.
  destruct Href as ((((((((_ & Hname) & _) & _) & Harch) & Hformat) & _) & _) & Hsp).
  unfold includes in Harch, Hformat.
  apply bool_decide_eq_true in Harch, Hformat.
  split; [done|]. split; [done|].
  unfold nonempty in Hname. apply negb_true_iff, bool_decide_eq_false in Hname.
  split; [done|].
  rewrite forallb_forall in Hsp. intros sp Hin%list_elem_of_In.
  specialize (Hsp sp Hin). unfold Speaker_refinements in Hsp.
  rewrite !andb_true_iff in Hsp. destruct Hsp as ((Hn & Hid) & Hst).
  unfold nonempty in Hn. apply negb_true_iff, bool_decide_eq_false in Hn.
  apply Z.leb_le in Hid. split; [done|]. split; [done|].
  rewrite forallb_forall in Hst. intros st Hin'%list_elem_of_In.
  specialize (Hst st Hin'). unfold Style_refinements in Hst.
  rewrite !andb_true_iff in Hst. destruct Hst as (((Hn' & Hlo) & Hhi) & _).
  unfold nonempty in Hn'. apply negb_true_iff, bool_decide_eq_false in Hn'.
  apply Z.leb_le in Hlo, Hhi. done.
Qed.

(** X16. An aggregate that validation returned without style vectors
    (the metadata had none, or an empty entry) cannot be written back:
    whatever the file, both writers fail with the error of
    [applyAivmManifestToHyperParameters] for missing style vectors, since
    the architecture of a validated manifest is always a Style-Bert-VITS2
    one. *)
Theorem validated_without_style_vectors_is_not_writable raw_metadata md :
  validateAivmMetadata raw_metadata = Ok md →
  AivmMetadata.style_vectors md = None →
  ∀ file,
    (writeAivmMetadata file md).2 = Err StyleVectorsNotSet
    ∧ (writeAivmxMetadata file md).2 = Err StyleVectorsNotSet.
Proof.
  intros Hvalid Hsv file.
  pose proof (refined_architecture _ (validate_Ok_refined _ _ Hvalid)) as Harch.
  unfold writeAivmMetadata, writeAivmxMetadata, applyAivmManifestToHyperParameters.
  simpl. rewrite Harch, Hsv. done.
Qed.

End SerializeValidate.

(** ** AIVM files: what reading reports, and reading what was written *)

Section AivmFiles.
Context `{!Platform}.

(** Validation looks at three entries of the dictionary only. *)
Lemma validate_ext (a b : JsObject JSON) :
  Js.get "aivm_manifest" a = Js.get "aivm_manifest" b →
  Js.get "aivm_hyper_parameters" a = Js.get "aivm_hyper_parameters" b →
  Js.get "aivm_style_vectors" a = Js.get "aivm_style_vectors" b →
  validateAivmMetadata (Some (JObj a)) = validateAivmMetadata (Some (JObj b)).
Proof.
  intros H1 H2 H3. unfold validateAivmMetadata.
  cbn [truthy negb property mbind Result_bind]. by rewrite H1, H2, H3.
Qed.

(** X17. Files [readAivmMetadata] refuses for want of a manifest: a
    Safetensors file whose header has no [__metadata__], or has one that
    is a dictionary without [aivm_manifest] (as any Safetensors file that
    is not an AIVM file), is reported as having no AIVM manifest. A header
    that is the JSON value [null] is not: reading a property of it throws
    a [TypeError] that nothing catches. *)
Theorem read_reports_missing_manifest file header_json :
  read_header file = Ok header_json →
  (∀ header, header_json = JObj header →
     Js.get "__metadata__" header = None
     ∨ (∃ metadata, Js.get "__metadata__" header = Some (JObj metadata)
                    ∧ Js.get "aivm_manifest" metadata = None) →
     readAivmMetadata file = Err ManifestNotFound)
  ∧ (header_json = JNull → readAivmMetadata file = Err JsTypeError).
Proof.
  intros Hread. unfold readAivmMetadata, read_raw_metadata. rewrite Hread.
  cbn [mbind Result_bind]. split.
  - intros header -> [Hnone|(metadata & Hsome & Hnone)]; simpl.
    + by rewrite Hnone.
    + rewrite Hsome. simpl. by rewrite Hnone.
  - by intros ->.
Qed.

(** X18. A file of fewer than eight bytes, the empty file included,
    makes both the reader and the writer fail with the [RangeError] of
    [getBigUint64], which neither catches, not with the error for a file
    that is not an AIVM file. *)
Theorem short_file_is_a_range_error file :
  (List.length file < 8)%nat →
  readAivmMetadata file = Err JsRangeError
  ∧ ∀ raw_metadata, write_raw_metadata file raw_metadata = Err JsRangeError.
Proof.
  intros Hlen%Nat.ltb_lt.
  unfold readAivmMetadata, read_raw_metadata, read_header, write_raw_metadata,
    getBigUint64.
  by rewrite Hlen.
Qed.

(** The writer's new file, and the dictionary the reader finds in it. *)
Lemma write_raw_metadata_read_back file header old raw_metadata :
  let merged := merge raw_metadata old in
  let new_header := JObj (Js.set "__metadata__" (JObj merged) header) in
  let new_header_bytes := TextEncoder_encode (JSON_stringify new_header) in
  (N.of_nat (List.length file) < 2 ^ 53)%N →
  read_header file = Ok (JObj header) →
  metadata_of (Js.get "__metadata__" header) = Some old →
  (N.of_nat (List.length new_header_bytes) < 2 ^ 53)%N →
  JSON_parse (TextDecoder_decode new_header_bytes) = Some new_header →
  ∃ written,
    write_raw_metadata file raw_metadata = Ok written
    ∧ read_raw_metadata written = Ok (Some (JObj merged)).
Proof.
  intros merged new_header new_header_bytes Hmax Hread Hold Hnew Hcodec.
  apply read_header_Ok in Hread as (Hlen & Hsize & Hjson).
  assert (Number_of_BigInt (header_size file) = header_size file) as Hexact.
  { apply Number_of_BigInt_small.
    destruct (decide (header_size file < 2 ^ 53)%N) as [|Hbig]; [done|].
    pose proof (Number_of_BigInt_large (header_size file) ltac:(lia)). lia. }
  set (size := N.of_nat (List.length new_header_bytes)) in *.
  assert ((size mod 2 ^ 64)%N = size) as Hmod.
  { apply N.mod_small. change (2 ^ 64)%N with (2 ^ 53 * 2048)%N. lia. }
  exists (N_to_le 8 size ++ new_header_bytes
            ++ drop (8 + N.to_nat (header_size file)) file).
  split.
  - unfold write_raw_metadata. rewrite getBigUint64_Ok by done.
    cbn [mbind Result_bind].
    fold (header_bytes file). rewrite Hjson. cbn [mbind Result_bind property].
    rewrite (existing_metadata_of _ _ Hold), upsert_all_object.
    cbn [mbind Result_bind assign].
    rewrite <- (set_assignable _ "__metadata__") by done.
    fold merged. fold new_header. fold new_header_bytes. fold size.
    apply N.ltb_ge in Hsize. by rewrite Hsize, Hmod, Hexact.
  - set (rest := drop _ file).
    assert (header_size (N_to_le 8 size ++ new_header_bytes ++ rest) = size) as Hn.
    { unfold header_size.
      rewrite take_app_length' by (by rewrite length_N_to_le).
      rewrite le_to_N_to_le. change (256 ^ N.of_nat 8)%N with (2 ^ 64)%N. done. }
    unfold read_raw_metadata. rewrite read_header_eq.
    2: { rewrite length_app, length_N_to_le. lia. }
    rewrite Hn, Number_of_BigInt_small by done.
    assert ((N.of_nat (List.length (N_to_le 8 size ++ new_header_bytes ++ rest))
             <? 8 + size)%N = false) as ->.
    { apply N.ltb_ge. unfold size. rewrite !length_app, length_N_to_le. lia. }
    unfold header_bytes. rewrite Hn, Number_of_BigInt_small by done.
    rewrite drop_app_length' by (by rewrite length_N_to_le).
    unfold size. rewrite Nat2N.id, take_app_length.
    rewrite Hcodec. simpl. by rewrite get_set_eq by done.
Qed.

Lemma NoDup_keys_serialize md : NoDup (Object_keys (serializeAivmMetadata md)).
Proof.
  unfold serializeAivmMetadata.
  destruct (AivmMetadata.style_vectors md); repeat apply NoDup_keys_set; constructor.
Qed.

(** A successful write, step by step. *)
Lemma write_aivm_Ok file md md' written :
  writeAivmMetadata file md = (md', Ok written) →
  md' = applied (with_model_format "Safetensors" md)
  ∧ (applyAivmManifestToHyperParameters (with_model_format "Safetensors" md)).2 = Ok tt
  ∧ (∃ checked,
       validateAivmMetadata (Some (dictionary (serializeAivmMetadata md'))) = Ok checked)
  ∧ write_raw_metadata file (serializeAivmMetadata md') = Ok written.
Proof.
  unfold writeAivmMetadata. fold (with_model_format "Safetensors" md). unfold applied.
  destruct (applyAivmManifestToHyperParameters _) as [md1 [[]|]];
    cbn [mbind Result_bind]; [|done].
  destruct (validateAivmMetadata _) as [checked|] eqn:Hvalid;
    cbn [mbind Result_bind]; [|done].
  intros [= -> Hresult]. simpl. eauto.
Qed.

(** An aggregate of a Style-Bert-VITS2 architecture to which the
    manifest was applied has style vectors. *)
Lemma applied_Ok_style_vectors md :
  is_style_bert_vits2 (Manifest.model_architecture (AivmMetadata.manifest md)) = true →
  (applyAivmManifestToHyperParameters md).2 = Ok tt →
  ∃ sv, AivmMetadata.style_vectors (applied md) = Some sv.
Proof.
  intros Harch. rewrite applied_style_vectors.
  unfold applyAivmManifestToHyperParameters. rewrite Harch.
  destruct (AivmMetadata.style_vectors md) as [sv|]; [by exists sv | done].
Qed.

(** Validation of a dictionary into which the serialized aggregate was
    merged sees the serialized aggregate only. *)
Lemma validate_merged md sv (old : JsObject JSON) :
  AivmMetadata.style_vectors md = Some sv →
  validateAivmMetadata (Some (JObj (merge (serializeAivmMetadata md) old)))
  = validateAivmMetadata (Some (dictionary (serializeAivmMetadata md))).
Proof.
  intros Hsv. pose proof (serialize_get md) as (G1 & G2 & G3). rewrite Hsv in G3.
  unfold dictionary. apply validate_ext;
    rewrite merge_get, get_dictionary by apply NoDup_keys_serialize;
    by rewrite ?G1, ?G2, ?G3.
Qed.

(** X19. What [readAivmMetadata] finds in a file [writeAivmMetadata]
    wrote is what the writer validated before writing: the aggregate as
    the writer left it (format set, manifest applied to the
    hyper-parameters), serialized and validated. The entries the old file
    had under other keys of [__metadata__] play no part. The file is one
    below [2^53] bytes whose header is a JSON object with a dictionary, or
    nothing, under [__metadata__]; the platform's text and JSON codecs are
    assumed to read back the new header. *)
Theorem write_then_read_metadata file header old md md' written :
  is_style_bert_vits2 (Manifest.model_architecture (AivmMetadata.manifest md)) = true →
  (N.of_nat (List.length file) < 2 ^ 53)%N →
  read_header file = Ok (JObj header) →
  metadata_of (Js.get "__metadata__" header) = Some old →
  writeAivmMetadata file md = (md', Ok written) →
  let new_header :=
    JObj (Js.set "__metadata__" (JObj (merge (serializeAivmMetadata md') old)) header) in
  let new_header_bytes := TextEncoder_encode (JSON_stringify new_header) in
  (N.of_nat (List.length new_header_bytes) < 2 ^ 53)%N →
  JSON_parse (TextDecoder_decode new_header_bytes) = Some new_header →
  readAivmMetadata written
    = validateAivmMetadata (Some (dictionary (serializeAivmMetadata md')))
  ∧ (∃ read, readAivmMetadata written = Ok read)
  ∧ Manifest.model_format (AivmMetadata.manifest md') = "Safetensors".
Proof.
  intros Harch Hmax Hread Hold Hwrite new_header new_header_bytes Hnew Hcodec.
  apply write_aivm_Ok in Hwrite as (Hmd' & Happlied & [checked Hvalid] & Hraw).
  destruct (applied_Ok_style_vectors (with_model_format "Safetensors" md) Harch Happlied)
    as [sv Hsv].
  rewrite <- Hmd' in Hsv.
  destruct (write_raw_metadata_read_back file header old (serializeAivmMetadata md')
              Hmax Hread Hold Hnew Hcodec) as (written' & Hw & Hr).
  rewrite Hw in Hraw. injection Hraw as ->.
  assert (readAivmMetadata written
          = validateAivmMetadata (Some (dictionary (serializeAivmMetadata md')))) as Heq.
  { unfold readAivmMetadata. rewrite Hr. cbn [mbind Result_bind].
    by apply (validate_merged md' sv). }
  split; [exact Heq|]. split; [exists checked; by rewrite Heq|].
  by rewrite Hmd', applied_manifest.
Qed.

End AivmFiles.

(** ** AIVMX files: the metadata properties of the ONNX model *)

(** The dictionary [readAivmxMetadata] builds from the metadata
    properties of the model. *)
Definition metadata_props_dictionary (props : list (string * string)) : JsObject string :=
  foldl (λ (raw_metadata : JsObject string) '(key, value),
           if nonempty key && nonempty value
           then Js.set key value raw_metadata else raw_metadata)
        [] props.

(** The metadata properties [writeAivmxMetadata] leaves in the model. *)
Definition upserted_props (raw_metadata : JsObject string)
    (props : list (string * string)) : list (string * string) :=
  foldl (λ props '(key, value), set_metadata_prop key value props)
        props (Object_entries raw_metadata).

Section AivmxFiles.
Context `{!Platform}.

(** The dictionary begins as [{}] and is filled by assignments: it has
    no own [__proto__]. *)
Lemma metadata_props_dictionary_no_proto props :
  "__proto__" ∉ Object_keys (metadata_props_dictionary props).
Proof.
  unfold metadata_props_dictionary.
  induction props as [|[key value] props IH] using rev_ind; [apply not_elem_of_nil|].
  rewrite foldl_app. simpl.
  destruct (nonempty key && nonempty value); [by apply set_keeps_no_proto | done].
Qed.

(** The dictionary binds a key to the value of the last property of
    that key, among the properties with a key and a value; a property
    whose key is [__proto__] leaves nothing. *)
Lemma get_metadata_props_dictionary props k :
  Js.get k (metadata_props_dictionary props)
  = snd <$> List.find (λ e : string * string,
                         bool_decide (e.1 = k) && assignable e.1
                         && (nonempty e.1 && nonempty e.2))
                      (rev props).
Proof.
  induction props as [|[key value] props IH] using rev_ind; [done|].
  pose proof (metadata_props_dictionary_no_proto props) as Hnone.
  unfold metadata_props_dictionary in *.
  rewrite foldl_app, rev_app_distr. simpl.
  destruct (nonempty key && nonempty value); simpl.
  - rewrite get_set, IH by done. rewrite andb_true_r.
    by destruct (bool_decide (key = k) && assignable key).
  - by rewrite andb_false_r.
Qed.

Lemma get_metadata_props_dictionary_NoDup props k :
  NoDup props.*1 → k ≠ "__proto__" →
  Js.get k (metadata_props_dictionary props)
  = match Js.get k props with
    | Some v => if nonempty k && nonempty v then Some v else None
    | None => None
    end.
Proof.
  intros Hnd Hk%assignable_iff. rewrite get_metadata_props_dictionary.
  destruct (Js.get k props) as [v|] eqn:Hget.
  - apply get_Some_elem in Hget.
    destruct (List.find _ (rev props)) as [[k' v']|] eqn:Hfind; simpl.
    + apply find_some in Hfind as [Hin Hp].
      apply andb_true_iff in Hp as [[Hk'%bool_decide_eq_true _]%andb_true_iff Hne].
      simpl in Hk', Hne.
      subst k'. apply in_rev, list_elem_of_In in Hin.
      assert (v' = v) as ->.
      { apply (elem_get_Some _ _ _ Hnd) in Hin, Hget. congruence. }
      by rewrite Hne.
    + destruct (nonempty k && nonempty v) eqn:Hne; [|done].
      assert (In (k, v) (rev props)) as Hin
        by (by apply in_rev; rewrite rev_involutive; apply list_elem_of_In).
      pose proof (find_none _ _ Hfind _ Hin) as Hf. simpl in Hf.
      by rewrite bool_decide_eq_true_2, Hk, Hne in Hf.
  - destruct (List.find _ (rev props)) as [[k' v']|] eqn:Hfind; [|done].
    apply find_some in Hfind as [Hin Hp].
    apply andb_true_iff in Hp as [[Hk'%bool_decide_eq_true _]%andb_true_iff _].
    simpl in Hk'. subst k'.
    apply in_rev, list_elem_of_In in Hin. apply get_None in Hget.
    destruct Hget. apply list_elem_of_fmap. by exists (k, v').
Qed.

Lemma get_set_metadata_prop key value props k :
  Js.get k (set_metadata_prop key value props)
  = if decide (k = key) then Some value else Js.get k props.
Proof.
  induction props as [|[k' v'] props IH]; simpl.
  - rewrite eqb_decide. case_bool_decide; by case_decide.
  - rewrite (eqb_decide k' key). case_bool_decide as Hk'; simpl.
    + subst k'. rewrite eqb_decide. case_bool_decide; by case_decide.
    + rewrite IH, eqb_decide. case_bool_decide as Hk; [|done].
      subst k'. by rewrite decide_False by (by intros ->).
Qed.

Lemma keys_set_metadata_prop key value props :
  (set_metadata_prop key value props).*1
  = if decide (key ∈ props.*1) then props.*1 else props.*1 ++ [key].
Proof.
  induction props as [|[k' v'] props IH].
  - done.
  - cbn [set_metadata_prop]. rewrite eqb_decide. case_bool_decide as Hk'.
    + subst k'. rewrite decide_True by (simpl; left). done.
    + rewrite fmap_cons, IH. destruct (decide (key ∈ props.*1)) as [Hin|Hin].
      * by rewrite decide_True by (by right).
      * rewrite decide_False; [done|]. simpl. intros [->|?]%elem_of_cons; done.
Qed.

Lemma get_upserted_props raw_metadata props k :
  NoDup (Object_keys raw_metadata) →
  Js.get k (upserted_props raw_metadata props)
  = match Js.get k raw_metadata with
    | Some v => Some v
    | None => Js.get k props
    end.
Proof.
  unfold upserted_props, Object_entries. revert props.
  induction raw_metadata as [|[k0 v0] raw IH]; intros props Hnd; simpl; [done|].
  apply NoDup_cons in Hnd as [Hk0 Hnd]. simpl in Hk0. rewrite IH by done.
  rewrite eqb_decide. case_bool_decide as Hk.
  - subst k0. apply get_None in Hk0. rewrite Hk0, get_set_metadata_prop.
    by rewrite decide_True.
  - rewrite get_set_metadata_prop. by rewrite decide_False by (by intros ->).
Qed.

Lemma keys_upserted_props raw_metadata props :
  props.*1 `prefix_of` (upserted_props raw_metadata props).*1
  ∧ (NoDup props.*1 → NoDup (upserted_props raw_metadata props).*1).
Proof.
  unfold upserted_props, Object_entries. revert props.
  induction raw_metadata as [|[k0 v0] raw IH]; intros props; simpl; [done|].
  destruct (IH (set_metadata_prop k0 v0 props)) as [Hpre Hnd].
  rewrite keys_set_metadata_prop in Hpre, Hnd.
  destruct (decide (k0 ∈ props.*1)) as [Hin|Hin]; [done|]. split.
  - etrans; [|exact Hpre]. by apply prefix_app_r.
  - intros Hnd'. apply Hnd. apply NoDup_app. split; [done|].
    split; [|apply NoDup_singleton].
    by intros ? ? ->%list_elem_of_singleton.
Qed.

(** A successful write, step by step. *)
Lemma write_aivmx_Ok file md md' written :
  writeAivmxMetadata file md = (md', Ok written) →
  md' = applied (with_model_format "ONNX" md)
  ∧ (applyAivmManifestToHyperParameters (with_model_format "ONNX" md)).2 = Ok tt
  ∧ (∃ checked,
       validateAivmMetadata (Some (dictionary (serializeAivmMetadata md'))) = Ok checked)
  ∧ ∃ props rest,
      ModelProto_decode file = Some (props, rest)
      ∧ written = ModelProto_encode (upserted_props (serializeAivmMetadata md') props, rest).
Proof.
  unfold writeAivmxMetadata. fold (with_model_format "ONNX" md). unfold applied.
  destruct (applyAivmManifestToHyperParameters _) as [md1 [[]|]];
    cbn [mbind Result_bind]; [|done].
  destruct (ModelProto_decode file) as [[props rest]|];
    cbn [mbind Result_bind]; [|done].
  destruct (validateAivmMetadata _) as [checked|] eqn:Hvalid;
    cbn [mbind Result_bind]; [|done].
  intros [= -> <-]. simpl. eauto 10.
Qed.

(** X20. What [writeAivmxMetadata] writes: the model it decoded, with
    its metadata properties updated and everything else as it was. Every
    key of the serialized aggregate has its serialized value, every other
    property keeps its value, the properties that were there keep their
    order, and new keys come after them. *)
Theorem write_aivmx_updates_metadata_props file md md' written :
  writeAivmxMetadata file md = (md', Ok written) →
  ∃ props rest new_props,
    ModelProto_decode file = Some (props, rest)
    ∧ written = ModelProto_encode (new_props, rest)
    ∧ (∀ k, Js.get k new_props
            = match Js.get k (serializeAivmMetadata md') with
              | Some v => Some v
              | None => Js.get k props
              end)
    ∧ props.*1 `prefix_of` new_props.*1
    ∧ (NoDup props.*1 → NoDup new_props.*1)
    ∧ Manifest.model_format (AivmMetadata.manifest md') = "ONNX".
Proof.
  intros (Hmd' & _ & _ & props & rest & Hdecode & ->)%write_aivmx_Ok.
  exists props, rest, (upserted_props (serializeAivmMetadata md') props).
  split; [done|]. split; [done|].
  split; [intros k; apply get_upserted_props, NoDup_keys_serialize|].
  split; [apply keys_upserted_props|]. split; [apply keys_upserted_props|].
  by rewrite Hmd', applied_manifest.
Qed.

Lemma validate_hyper_parameters_falsy model_architecture v :
  truthy v = false →
  validate_hyper_parameters model_architecture v = Err HyperParametersNotFound.
Proof.
  intros Hv. unfold validate_hyper_parameters. destruct v as [v|]; [|done].
  by rewrite Hv.
Qed.

Lemma validate_style_vectors_falsy v :
  truthy v = false → validate_style_vectors v = Ok None.
Proof.
  intros Hv. unfold validate_style_vectors. destruct v as [v|]; [|done].
  by rewrite Hv.
Qed.

(** Validation looks at an entry of the dictionary only if it is
    truthy: an entry that is the empty string counts as absent. *)
Lemma validate_ext_truthy (a b : JsObject JSON) :
  (∀ k, k ∈ ["aivm_manifest"; "aivm_hyper_parameters"; "aivm_style_vectors"] →
        Js.get k a = Js.get k b
        ∨ (truthy (Js.get k a) = false ∧ truthy (Js.get k b) = false)) →
  validateAivmMetadata (Some (JObj a)) = validateAivmMetadata (Some (JObj b)).
Proof.
  intros Hsame.
  pose proof (Hsame "aivm_manifest" ltac:(set_solver)) as H1.
  pose proof (Hsame "aivm_hyper_parameters" ltac:(set_solver)) as H2.
  pose proof (Hsame "aivm_style_vectors" ltac:(set_solver)) as H3.
  assert (∀ arch, validate_hyper_parameters arch (Js.get "aivm_hyper_parameters" a)
                  = validate_hyper_parameters arch (Js.get "aivm_hyper_parameters" b))
    as Hhp.
  { intros arch. destruct H2 as [->|[F1 F2]]; [done|].
    by rewrite !validate_hyper_parameters_falsy. }
  assert (validate_style_vectors (Js.get "aivm_style_vectors" a)
          = validate_style_vectors (Js.get "aivm_style_vectors" b)) as Hsv.
  { destruct H3 as [->|[F1 F2]]; [done|]. by rewrite !validate_style_vectors_falsy. }
  unfold validateAivmMetadata.
  cbn [truthy negb property mbind Result_bind].
  destruct H1 as [->|[F1 F2]]; [|by rewrite F1, F2].
  destruct (negb (truthy (Js.get "aivm_manifest" b))); [done|].
  destruct (Js.get "aivm_manifest" b ≫= _) as [m|]; [|done].
  cbn [mbind Result_bind]. by rewrite Hhp, Hsv.
Qed.

(** X21. What [readAivmxMetadata] finds in a file [writeAivmxMetadata]
    wrote is what the writer validated before writing, provided no two
    metadata properties of the model that was written to have the same
    key: the writer updates the first property of a key, the reader takes
    the last. The ONNX codec is assumed to decode the model it encoded. *)
Theorem write_then_read_aivmx file props rest md md' written :
  is_style_bert_vits2 (Manifest.model_architecture (AivmMetadata.manifest md)) = true →
  ModelProto_decode file = Some (props, rest) →
  NoDup props.*1 →
  writeAivmxMetadata file md = (md', Ok written) →
  ModelProto_decode written
    = Some (upserted_props (serializeAivmMetadata md') props, rest) →
  readAivmxMetadata written
    = validateAivmMetadata (Some (dictionary (serializeAivmMetadata md')))
  ∧ (∃ read, readAivmxMetadata written = Ok read)
  ∧ Manifest.model_format (AivmMetadata.manifest md') = "ONNX".
Proof.
  intros Harch Hdecode Hnd Hwrite Hcodec.
  apply write_aivmx_Ok in Hwrite
    as (Hmd' & Happlied & [checked Hvalid] & props' & rest' & Hdecode' & Hwritten).
  destruct (applied_Ok_style_vectors (with_model_format "ONNX" md) Harch Happlied)
    as [sv Hsv].
  rewrite <- Hmd' in Hsv.
  assert (readAivmxMetadata written
          = validateAivmMetadata (Some (dictionary (serializeAivmMetadata md')))) as Heq.
  { unfold readAivmxMetadata. rewrite Hcodec. cbn [mbind Result_bind fst].
    fold (metadata_props_dictionary (upserted_props (serializeAivmMetadata md') props)).
    unfold dictionary. apply validate_ext_truthy. intros k Hk.
    rewrite !get_dictionary.
    rewrite get_metadata_props_dictionary_NoDup.
    2: { by apply keys_upserted_props. }
    2: { intros ->. repeat (apply elem_of_cons in Hk as [Hk|Hk]; [discriminate Hk|]).
         by apply elem_of_nil in Hk. }
    rewrite get_upserted_props by apply NoDup_keys_serialize.
    pose proof (serialize_get md') as (G1 & G2 & G3). rewrite Hsv in G3.
    assert (∃ v, Js.get k (serializeAivmMetadata md') = Some v ∧ nonempty k = true)
      as (v & -> & ->).
    { repeat (apply elem_of_cons in Hk as [->|Hk]; [eauto|]).
      by apply elem_of_nil in Hk. }
    cbn [andb]. destruct (nonempty v) eqn:Hv; [by left | right].
    split; [done | exact Hv]. }
  split; [exact Heq|]. split; [exists checked; by rewrite Heq|].
  by rewrite Hmd', applied_manifest.
Qed.

(** X22. Files [readAivmxMetadata] refuses: bytes the ONNX codec does
    not decode are reported as not being an AIVMX file; a model none of
    whose metadata properties is an [aivm_manifest] with a value is
    reported as having no AIVM manifest. *)
Theorem read_aivmx_reports_missing_manifest file :
  (ModelProto_decode file = None → readAivmxMetadata file = Err AivmxFileInvalid)
  ∧ ∀ props rest,
      ModelProto_decode file = Some (props, rest) →
      (∀ value, ("aivm_manifest", value) ∈ props → value = "") →
      readAivmxMetadata file = Err ManifestNotFound.
Proof.
  unfold readAivmxMetadata. split; [by intros ->|].
  intros props rest -> Hnone. cbn [mbind Result_bind fst].
  fold (metadata_props_dictionary props).
  unfold validateAivmMetadata, dictionary.
  cbn [truthy negb property mbind Result_bind].
  rewrite get_dictionary, get_metadata_props_dictionary.
  destruct (List.find _ (rev props)) as [[k v]|] eqn:Hfind; [|done].
  apply find_some in Hfind as [Hin Hp].
  apply andb_true_iff
    in Hp as [[Hk%bool_decide_eq_true _]%andb_true_iff [_ Hv]%andb_true_iff].
  simpl in Hk, Hv. subst k. apply in_rev, list_elem_of_In in Hin.
  by rewrite (Hnone v Hin) in Hv.
Qed.

End AivmxFiles.

(** ** Sample runs of the properties above *)

Module Cases.
Import Sample.

(** Two speakers with the identifier 0. *)
Definition twice_zero : HyperParameters.t :=
  Inputs.hyper_parameters true [("Alice", 0); ("Bob", 1); ("Carol", 0)] [("Neutral", 0)].

(** A style identifier above 31, then one below 0. *)
Definition style_40 : HyperParameters.t :=
  Inputs.hyper_parameters true [("Alice", 0)] [("Neutral", 0); ("Loud", 40); ("Low", -1)].

(** Hyper-parameters that describe the existing aggregate as it is,
    under other names. *)
Definition renamed : HyperParameters.t :=
  Inputs.hyper_parameters true [("Alicia", 0)] [("Neutral", 0); ("Merry", 1); ("Blue", 2)].

(** A second speaker, unknown to the existing aggregate. *)
Definition with_bob : HyperParameters.t :=
  Inputs.hyper_parameters true [("Alice", 0); ("Bob", 3)] [("Neutral", 0); ("Happy", 1); ("Sad", 2)].

(** A speaker other than the existing one. *)
Definition only_bob : HyperParameters.t :=
  Inputs.hyper_parameters true [("Bob", 3)] [("Neutral", 0); ("Happy", 1); ("Sad", 2)].

(** An ONNX model with one metadata property. *)
Definition aivmx_file : bytes :=
  model_proto_encode ([("producer", "pytorch")], Inputs.payload).

End Cases.

(** A hypothesis about every element of a list of closed terms. *)
Ltac for_each_element H :=
  repeat (apply elem_of_cons in H as [H|H];
          [first [ injection H as -> -> | subst ]; first [lia | done | by_evaluation] |]);
  by apply elem_of_nil in H.

(** Two speakers share the identifier 0: the error names both. *)
Lemma load_reports_duplicate_ids_witness :
  @loadAndValidateHyperParametersAndStyleVectors Sample.platform "Style-Bert-VITS2"
     (Inputs.file_of Cases.twice_zero) None
  = Err (DuplicateSpeakerId 0 ["Alice"; "Carol"])
  ∧ ∃ id names,
      @loadAndValidateHyperParametersAndStyleVectors Sample.platform "Style-Bert-VITS2"
         (Inputs.file_of Cases.twice_zero) None
      = Err (DuplicateSpeakerId id names)
      ∧ (2 ≤ List.length names)%nat.
Proof.
  split; [vm_compute; reflexivity|].
  destruct (load_reports_duplicate_ids (H := Sample.platform) "Style-Bert-VITS2"
              (Inputs.file_of Cases.twice_zero) None Cases.twice_zero
              eq_refl ltac:(vm_compute; reflexivity)
              ltac:(discriminate) ltac:(discriminate)) as [Hdup _].
  destruct (Hdup ltac:(by_evaluation)) as (id & names & Hload & Hlen & _).
  exists id, names. split; [exact Hload | exact Hlen].
Defined.

(** The style of identifier 40 is reported, not the later one of
    identifier -1, nor the missing style vectors. *)
Lemma load_reports_first_id_out_of_range_witness :
  @loadAndValidateHyperParametersAndStyleVectors Sample.platform "Style-Bert-VITS2"
     (Inputs.file_of Cases.style_40) None
  = Err (StyleIdOutOfRange "Loud" 40)
  ∧ @loadAndValidateHyperParametersAndStyleVectors Sample.platform "Style-Bert-VITS2"
      Inputs.scenario_a None
    = Err StyleVectorsFileMissing.
Proof.
  split.
  - destruct (load_reports_first_id_out_of_range (H := Sample.platform) "Style-Bert-VITS2"
                (Inputs.file_of Cases.style_40) None Cases.style_40
                eq_refl ltac:(vm_compute; reflexivity)
                ltac:(discriminate) ltac:(discriminate)
                ltac:(by_evaluation) ltac:(by_evaluation)) as [Hstyle _].
    apply (Hstyle [("Neutral", 0)] "Loud" 40 [("Low", -1)] eq_refl); [|lia].
    intros n i Hin. for_each_element Hin.
  - destruct (load_reports_first_id_out_of_range (H := Sample.platform) "Style-Bert-VITS2"
                Inputs.scenario_a None
                (Inputs.hyper_parameters true [("Alice", 0)] [("Neutral", 0)])
                eq_refl ltac:(vm_compute; reflexivity)
                ltac:(discriminate) ltac:(discriminate)
                ltac:(by_evaluation) ltac:(by_evaluation)) as [_ Hrest].
    apply Hrest; [| |reflexivity].
    + intros n i Hin. for_each_element Hin.
    + intros n i Hin. for_each_element Hin.
Defined.

(** Scenario B: two styles per speaker, the architecture from
    [use_jp_extra]. *)
Lemma generate_builds_speakers_from_keys_witness :
  Runs.generate Inputs.scenario_b = Ok Runs.generated_b
  ∧ Speaker.name <$> Manifest.speakers (AivmMetadata.manifest Runs.generated_b) = ["Alice"]
  ∧ Manifest.model_architecture (AivmMetadata.manifest Runs.generated_b)
    = "Style-Bert-VITS2 (JP-Extra)"
  ∧ Manifest.name (AivmMetadata.manifest Runs.generated_b) = "Sample Model".
Proof.
  assert (Runs.generate Inputs.scenario_b = Ok Runs.generated_b) as Hgen
    by (vm_compute; reflexivity).
  split; [exact Hgen|].
  destruct (generate_builds_speakers_from_keys (H := Sample.platform)
              0 "Style-Bert-VITS2" Inputs.scenario_b (Some Inputs.style_vectors)
              Runs.generated_b Hgen) as (Hnames & _ & Hname & Harch & _).
  split; [exact Hnames|]. split; [exact Harch | exact Hname].
Defined.

Lemma generate_within_schema_ranges_witness :
  Runs.generate Inputs.scenario_b = Ok Runs.generated_b
  ∧ AivmManifestSchema_refinements (AivmMetadata.manifest Runs.generated_b) = true.
Proof.
  assert (Runs.generate Inputs.scenario_b = Ok Runs.generated_b) as Hgen
    by (vm_compute; reflexivity).
  split; [exact Hgen|].
  exact (proj1 (generate_within_schema_ranges (H := Sample.platform)
                  0 "Style-Bert-VITS2" Inputs.scenario_b (Some Inputs.style_vectors)
                  Runs.generated_b Hgen
                  ltac:(discriminate) ltac:(by_evaluation) ltac:(by_evaluation))).
Defined.

Module MoreRuns.

Definition update_with (hp : HyperParameters.t) : Result (AivmMetadata.t * list Warning) :=
  @updateAivmMetadata Sample.platform 10 Inputs.existing (Inputs.file_of hp)
    (Some Inputs.style_vectors).

Definition renamed : AivmMetadata.t * list Warning :=
  Eval vm_compute in Runs.value (Inputs.existing, []) (update_with Cases.renamed).

Definition with_bob : AivmMetadata.t * list Warning :=
  Eval vm_compute in Runs.value (Inputs.existing, []) (update_with Cases.with_bob).

Definition only_bob : AivmMetadata.t * list Warning :=
  Eval vm_compute in Runs.value (Inputs.existing, []) (update_with Cases.only_bob).

End MoreRuns.

(** The update of the sample aggregate keeps the name, the uuid and
    the format of the manifest. *)
Lemma update_keeps_manifest_fields_witness :
  Runs.update = Ok Runs.updated
  ∧ Manifest.name (AivmMetadata.manifest Runs.updated.1) = "Existing Model"
  ∧ Manifest.uuid (AivmMetadata.manifest Runs.updated.1)
    = "4a1a8e9e-0000-4000-8000-000000000001"
  ∧ Manifest.set_speakers (Manifest.speakers (AivmMetadata.manifest Inputs.existing))
      (Manifest.set_model_architecture "Style-Bert-VITS2 (JP-Extra)"
         (AivmMetadata.manifest Runs.updated.1))
    = AivmMetadata.manifest Inputs.existing.
Proof.
  assert (Runs.update = Ok Runs.updated) as Hup by (vm_compute; reflexivity).
  split; [exact Hup|]. split; [reflexivity|]. split; [reflexivity|].
  exact (proj1 (update_keeps_manifest_fields (H := Sample.platform)
                  10 Inputs.existing Inputs.replacement (Some Inputs.style_vectors)
                  Runs.updated.1 Runs.updated.2 Hup)).
Defined.

(** After the update of the sample aggregate the styles of Alice have
    the identifiers 0, 1 and 7 of the new [style2id]. *)
Lemma update_ids_are_the_new_ids_witness :
  Runs.update = Ok Runs.updated
  ∧ Style.local_id <$> Speaker.styles (Runs.speaker_of Runs.updated.1) = [0; 1; 7]
  ∧ ∀ id, id ∈ Style.local_id <$> Speaker.styles (Runs.speaker_of Runs.updated.1)
          ↔ id ∈ ids (style2id (AivmMetadata.hyper_parameters Runs.updated.1)).
Proof.
  assert (Runs.update = Ok Runs.updated) as Hup by (vm_compute; reflexivity).
  split; [exact Hup|]. split; [reflexivity|].
  destruct (update_ids_are_the_new_ids (H := Sample.platform)
              10 Inputs.existing Inputs.replacement (Some Inputs.style_vectors)
              Runs.updated.1 Runs.updated.2 Hup) as [_ Hstyles].
  apply Hstyles. vm_compute. left.
Defined.

Lemma update_keeps_ids_distinct_witness :
  Runs.update = Ok Runs.updated
  ∧ NoDup (Speaker.local_id <$> Manifest.speakers (AivmMetadata.manifest Runs.updated.1))
  ∧ NoDup (Style.local_id <$> Speaker.styles (Runs.speaker_of Runs.updated.1)).
Proof.
  assert (Runs.update = Ok Runs.updated) as Hup by (vm_compute; reflexivity).
  split; [exact Hup|].
  destruct (update_keeps_ids_distinct (H := Sample.platform)
              10 Inputs.existing Inputs.replacement (Some Inputs.style_vectors)
              Runs.updated.1 Runs.updated.2 Hup) as [Hspeakers Hstyles].
  split; [apply Hspeakers; by_evaluation|].
  apply Hstyles; [|vm_compute; left].
  intros sp Hsp. for_each_element Hsp.
Defined.

(** Alice goes and Bob comes: the new hyper-parameters know the
    identifier 3 only. *)
Lemma update_removes_and_adds_speakers_witness :
  MoreRuns.update_with Cases.only_bob = Ok MoreRuns.only_bob
  ∧ Speaker.name <$> Manifest.speakers (AivmMetadata.manifest MoreRuns.only_bob.1) = ["Bob"]
  ∧ MoreRuns.only_bob.2 = [SpeakerRemoved "Alice" 0; SpeakerAdded "Bob" 3]
  ∧ SpeakerRemoved "Alice" 0 ∈ MoreRuns.only_bob.2
  ∧ SpeakerAdded "Bob" 3 ∈ MoreRuns.only_bob.2.
Proof.
  assert (MoreRuns.update_with Cases.only_bob = Ok MoreRuns.only_bob) as Hup
    by (vm_compute; reflexivity).
  split; [exact Hup|]. split; [reflexivity|]. split; [reflexivity|].
  destruct (update_removes_and_adds_speakers (H := Sample.platform)
              10 Inputs.existing (Inputs.file_of Cases.only_bob) (Some Inputs.style_vectors)
              MoreRuns.only_bob.1 MoreRuns.only_bob.2 Hup) as [Hremoved Hadded].
  split.
  - exact (proj2 (Hremoved (Runs.speaker_of Inputs.existing)
                    ltac:(vm_compute; left) ltac:(by_evaluation))).
  - exact (proj1 (Hadded "Bob" 3 ltac:(vm_compute; left) ltac:(by_evaluation))).
Defined.

(** New names for the same identifiers: no warning, and the manifest
    keeps the old names. *)
Lemma update_without_warnings_changes_nothing_witness :
  MoreRuns.update_with Cases.renamed = Ok MoreRuns.renamed
  ∧ MoreRuns.renamed.2 = []
  ∧ AivmMetadata.manifest MoreRuns.renamed.1 = AivmMetadata.manifest Inputs.existing
  ∧ spk2id (AivmMetadata.hyper_parameters MoreRuns.renamed.1) = [("Alicia", 0)].
Proof.
  assert (MoreRuns.update_with Cases.renamed = Ok MoreRuns.renamed) as Hup
    by (vm_compute; reflexivity).
  split; [exact Hup|]. split; [reflexivity|].
  destruct (update_without_warnings_changes_nothing (H := Sample.platform)
              10 Inputs.existing (Inputs.file_of Cases.renamed) (Some Inputs.style_vectors)
              MoreRuns.renamed.1 MoreRuns.renamed.2 Hup) as [_ Hsame].
  split; [exact (Hsame eq_refl) | reflexivity].
Defined.

(** The sample aggregate: Alice is bound to 0 and the three styles to
    their identifiers, under the names of the manifest. *)
Lemma apply_binds_names_to_known_ids_witness :
  (applyAivmManifestToHyperParameters Inputs.existing).2 = Ok tt
  ∧ style2id (AivmMetadata.hyper_parameters
                (applyAivmManifestToHyperParameters Inputs.existing).1)
    = [("ノーマル", 0); ("Happy", 1); ("Sad", 2)]
  ∧ HyperParameters.model_name
      (AivmMetadata.hyper_parameters (applyAivmManifestToHyperParameters Inputs.existing).1)
    = "Existing Model".
Proof.
  destruct (apply_binds_names_to_known_ids Inputs.existing Inputs.style_vectors
              eq_refl eq_refl) as (Hok & _ & _ & _ & _ & _ & _ & Hname & _).
  split; [exact Hok|]. split; [reflexivity | exact Hname].
Defined.

(** After the update with new names, applying the manifest writes the
    old names back into the hyper-parameters. *)
Lemma update_then_apply_reflects_names_witness :
  MoreRuns.update_with Cases.renamed = Ok MoreRuns.renamed
  ∧ spk2id (AivmMetadata.hyper_parameters MoreRuns.renamed.1) = [("Alicia", 0)]
  ∧ Js.get "Alice"
      (spk2id (AivmMetadata.hyper_parameters
                 (applyAivmManifestToHyperParameters MoreRuns.renamed.1).1))
    = Some 0.
Proof.
  assert (MoreRuns.update_with Cases.renamed = Ok MoreRuns.renamed) as Hup
    by (vm_compute; reflexivity).
  split; [exact Hup|]. split; [reflexivity|].
  destruct (update_then_apply_reflects_names (H := Sample.platform)
              10 Inputs.existing (Inputs.file_of Cases.renamed) (Some Inputs.style_vectors)
              MoreRuns.renamed.1 MoreRuns.renamed.2 Hup
              ltac:(by_evaluation) ltac:(by_evaluation)
              ltac:(by_evaluation) ltac:(by_evaluation)) as (_ & _ & _ & Hspeakers & _).
  apply (Hspeakers (Runs.speaker_of MoreRuns.renamed.1));
    [vm_compute; left | by vm_compute |].
  intros sp' Hsp' _. for_each_element Hsp'.
Defined.

(** A speaker called [__proto__], a name the manifest schema accepts: the
    assignment [new_spk2id[speaker.name] = local_id] creates no property,
    the rebuilt [spk2id] is empty and [n_speakers] is 0. *)
Example apply_skips_proto_name :
  let md :=
    {| AivmMetadata.manifest :=
         Inputs.manifest
           [Inputs.speaker "__proto__" "4a1a8e9e-0000-4000-8000-000000000002" 0
              [Inputs.style "ノーマル" 0]];
       AivmMetadata.hyper_parameters :=
         Inputs.hyper_parameters true [("Alice", 0)] [("Neutral", 0)];
       AivmMetadata.style_vectors := Some Inputs.style_vectors |} in
  let new := AivmMetadata.hyper_parameters (applyAivmManifestToHyperParameters md).1 in
  (applyAivmManifestToHyperParameters md).2 = Ok tt
  ∧ spk2id new = []
  ∧ HyperParametersData.n_speakers (HyperParameters.data new) = 0
  ∧ style2id new = [("ノーマル", 0)].
Proof. repeat split. Qed.

Module FileRuns.

Definition serialized : JsObject string :=
  @serializeAivmMetadata Sample.platform Inputs.existing.

(** The sample aggregate without its style vectors. *)
Definition without_style_vectors : AivmMetadata.t :=
  {| AivmMetadata.manifest := AivmMetadata.manifest Inputs.existing;
     AivmMetadata.hyper_parameters := AivmMetadata.hyper_parameters Inputs.existing;
     AivmMetadata.style_vectors := None |}.

Definition write_aivm : AivmMetadata.t * Result bytes :=
  @writeAivmMetadata Sample.platform Inputs.aivm_file Inputs.existing.

Definition written_aivm : AivmMetadata.t * bytes :=
  Eval vm_compute in (write_aivm.1, Runs.value [] write_aivm.2).

Definition write_aivmx : AivmMetadata.t * Result bytes :=
  @writeAivmxMetadata Sample.platform Cases.aivmx_file Inputs.existing.

Definition written_aivmx : AivmMetadata.t * bytes :=
  Eval vm_compute in (write_aivmx.1, Runs.value [] write_aivmx.2).

End FileRuns.

(** The sample aggregate comes back from its serialized form. *)
Lemma validate_after_serialize_witness :
  @validateAivmMetadata Sample.platform (Some (dictionary FileRuns.serialized))
  = Ok Inputs.existing.
Proof.
  apply (validate_after_serialize (H := Sample.platform) Inputs.existing).
  - vm_compute. reflexivity.
  - vm_compute. reflexivity.
  - vm_compute. discriminate.
  - vm_compute. discriminate.
  - intros sv [= <-]. vm_compute. reflexivity.
Defined.

Lemma validated_aggregate_is_within_schema_witness :
  @validateAivmMetadata Sample.platform (Some (dictionary FileRuns.serialized))
  = Ok Inputs.existing
  ∧ Manifest.model_architecture (AivmMetadata.manifest Inputs.existing)
    ∈ ModelArchitectureSchema.
Proof.
  assert (@validateAivmMetadata Sample.platform (Some (dictionary FileRuns.serialized))
          = Ok Inputs.existing) as Hvalid by (vm_compute; reflexivity).
  split; [exact Hvalid|].
  exact (proj1 (validated_aggregate_is_within_schema (H := Sample.platform)
                  (Some (dictionary FileRuns.serialized)) [] [] Inputs.existing
                  (or_introl Hvalid))).
Defined.

(** Metadata without style vectors is valid, and cannot be written. *)
Lemma validated_without_style_vectors_is_not_writable_witness :
  @validateAivmMetadata Sample.platform
     (Some (dictionary (@serializeAivmMetadata Sample.platform
                          FileRuns.without_style_vectors)))
  = Ok FileRuns.without_style_vectors
  ∧ (@writeAivmMetadata Sample.platform Inputs.aivm_file
       FileRuns.without_style_vectors).2 = Err StyleVectorsNotSet.
Proof.
  assert (@validateAivmMetadata Sample.platform
            (Some (dictionary (@serializeAivmMetadata Sample.platform
                                 FileRuns.without_style_vectors)))
          = Ok FileRuns.without_style_vectors) as Hvalid by (vm_compute; reflexivity).
  split; [exact Hvalid|].
  exact (proj1 (validated_without_style_vectors_is_not_writable (H := Sample.platform)
                  _ _ Hvalid eq_refl Inputs.aivm_file)).
Defined.

(** The sample file is a Safetensors file with a [format] entry only. *)
Lemma read_reports_missing_manifest_witness :
  @readAivmMetadata Sample.platform Inputs.aivm_file = Err ManifestNotFound.
Proof.
  destruct (read_reports_missing_manifest (H := Sample.platform) Inputs.aivm_file
              Inputs.header ltac:(vm_compute; reflexivity)) as [Hmissing _].
  apply (Hmissing _ eq_refl). right.
  exists [("format", JStr "pt")]. split; reflexivity.
Defined.

Lemma short_file_is_a_range_error_witness :
  @readAivmMetadata Sample.platform [] = Err JsRangeError
  ∧ @readAivmMetadata Sample.platform [Byte.x10; Byte.x00; Byte.x00] = Err JsRangeError.
Proof.
  split.
  - exact (proj1 (short_file_is_a_range_error (H := Sample.platform) []
                    ltac:(simpl; lia))).
  - exact (proj1 (short_file_is_a_range_error (H := Sample.platform)
                    [Byte.x10; Byte.x00; Byte.x00] ltac:(simpl; lia))).
Defined.

(** The sample aggregate written to the sample file and read back. *)
Lemma write_then_read_metadata_witness :
  FileRuns.write_aivm = (FileRuns.written_aivm.1, Ok FileRuns.written_aivm.2)
  ∧ @readAivmMetadata Sample.platform FileRuns.written_aivm.2
    = @validateAivmMetadata Sample.platform
        (Some (dictionary (@serializeAivmMetadata Sample.platform FileRuns.written_aivm.1)))
  ∧ Manifest.model_format (AivmMetadata.manifest FileRuns.written_aivm.1) = "Safetensors".
Proof.
  assert (FileRuns.write_aivm = (FileRuns.written_aivm.1, Ok FileRuns.written_aivm.2))
    as Hwrite by (vm_compute; reflexivity).
  split; [exact Hwrite|].
  destruct (write_then_read_metadata (H := Sample.platform) Inputs.aivm_file
              [("__metadata__", JObj [("format", JStr "pt")]);
               ("weight", JObj [("dtype", JStr "F32"); ("shape", JArr [JNum 2]);
                                ("data_offsets", JArr [JNum 0; JNum 8])])]
              [("format", JStr "pt")]
              Inputs.existing FileRuns.written_aivm.1 FileRuns.written_aivm.2
              eq_refl
              ltac:(vm_compute; reflexivity)
              ltac:(vm_compute; reflexivity)
              ltac:(reflexivity)
              Hwrite
              ltac:(vm_compute; reflexivity)
              ltac:(vm_compute; reflexivity))
    as (Hread & _ & Hformat).
  split; [exact Hread | exact Hformat].
Defined.

(** The sample aggregate written to an ONNX model with one property. *)
Lemma write_aivmx_updates_metadata_props_witness :
  FileRuns.write_aivmx = (FileRuns.written_aivmx.1, Ok FileRuns.written_aivmx.2)
  ∧ ∃ props rest new_props,
      @ModelProto_decode Sample.platform Cases.aivmx_file = Some (props, rest)
      ∧ FileRuns.written_aivmx.2 = @ModelProto_encode Sample.platform (new_props, rest)
      ∧ props.*1 `prefix_of` new_props.*1.
Proof.
  assert (FileRuns.write_aivmx = (FileRuns.written_aivmx.1, Ok FileRuns.written_aivmx.2))
    as Hwrite by (vm_compute; reflexivity).
  split; [exact Hwrite|].
  destruct (write_aivmx_updates_metadata_props (H := Sample.platform) Cases.aivmx_file
              Inputs.existing FileRuns.written_aivmx.1 FileRuns.written_aivmx.2 Hwrite)
    as (props & rest & new_props & Hdecode & Hwritten & _ & Hprefix & _).
  exists props, rest, new_props. split; [exact Hdecode|]. split; [exact Hwritten|].
  exact Hprefix.
Defined.

Lemma write_then_read_aivmx_witness :
  FileRuns.write_aivmx = (FileRuns.written_aivmx.1, Ok FileRuns.written_aivmx.2)
  ∧ @readAivmxMetadata Sample.platform FileRuns.written_aivmx.2
    = @validateAivmMetadata Sample.platform
        (Some (dictionary (@serializeAivmMetadata Sample.platform FileRuns.written_aivmx.1)))
  ∧ Manifest.model_format (AivmMetadata.manifest FileRuns.written_aivmx.1) = "ONNX".
Proof.
  assert (FileRuns.write_aivmx = (FileRuns.written_aivmx.1, Ok FileRuns.written_aivmx.2))
    as Hwrite by (vm_compute; reflexivity).
  split; [exact Hwrite|].
  destruct (write_then_read_aivmx (H := Sample.platform) Cases.aivmx_file
              [("producer", "pytorch")] Inputs.payload
              Inputs.existing FileRuns.written_aivmx.1 FileRuns.written_aivmx.2
              eq_refl
              ltac:(vm_compute; reflexivity)
              ltac:(by_evaluation)
              Hwrite
              ltac:(vm_compute; reflexivity))
    as (Hread & _ & Hformat).
  split; [exact Hread | exact Hformat].
Defined.

(** ** The earlier revision: styles matched by name *)

Section EarlierStyles.
Context `{!Platform}.













End EarlierStyles.

Module EarlierRuns.

(** What a run that threw is replaced by. *)
Definition nothing : Earlier.UpdatedMetadata.t * list Earlier.Warning :=
  ({| Earlier.UpdatedMetadata.manifest :=
        Earlier.with_speakers [] (AivmMetadata.manifest Inputs.existing);
      Earlier.UpdatedMetadata.hyper_parameters :=
        AivmMetadata.hyper_parameters Inputs.existing;
      Earlier.UpdatedMetadata.style_vectors := None |}, []).

Definition update : Result (Earlier.UpdatedMetadata.t * list Earlier.Warning) :=
  @Earlier.updateAivmMetadata Sample.platform 10 Inputs.existing Inputs.replacement
    (Some Inputs.style_vectors).

Definition updated : Earlier.UpdatedMetadata.t * list Earlier.Warning :=
  Eval vm_compute in Runs.value nothing update.







End EarlierRuns.


(** The earlier revision on the sample aggregate and replacement. *)
Lemma earlier_update_result_not_empty_witness :
  EarlierRuns.update = Ok EarlierRuns.updated
  ∧ Earlier.UpdatedManifest.speakers
      (Earlier.UpdatedMetadata.manifest EarlierRuns.updated.1) ≠ []
  ∧ ∀ sp, sp ∈ Earlier.UpdatedManifest.speakers
                 (Earlier.UpdatedMetadata.manifest EarlierRuns.updated.1) →
          Earlier.UpdatedSpeaker.styles sp ≠ [].
Proof.
  assert (EarlierRuns.update = Ok EarlierRuns.updated) as Hup by (vm_compute; reflexivity).
  split; [exact Hup|].
  exact (earlier_update_result_not_empty (H := Sample.platform)
           10 Inputs.existing Inputs.replacement (Some Inputs.style_vectors)
           EarlierRuns.updated.1 EarlierRuns.updated.2 Hup).
Defined.

(** ** updateAivmMetadata shares the style objects it keeps *)

Module HeapSharing.
Import Heap.
#[local] Open Scope nat_scope.

(** How a cell may change while the loops of the update run: an array
    gets elements appended, the warnings get longer, and any other object
    stays as it is. *)
Definition cell_le (c c' : Cell) : Prop :=
  match c, c' with
  | ArrayCell items, ArrayCell items' => items `prefix_of` items'
  | WarningsCell _, WarningsCell _ => True
  | _, _ => c = c'
  end.

Lemma cell_le_refl c : cell_le c c.
Proof. destruct c; simpl; first [done | reflexivity]. Qed.

Lemma cell_le_trans c1 c2 c3 : cell_le c1 c2 → cell_le c2 c3 → cell_le c1 c3.
Proof.
  destruct c1, c2; simpl; try done; try (by intros <-); try (by intros [= <-]).
  - destruct c3; simpl; try done. intros ? ?. by etrans.
  - by destruct c3.
Qed.

(** A computation under which every cell only changes that way. *)
Definition grows {A} (m : M A) : Prop :=
  ∀ h l c, h !! l = Some c → ∃ c', (m h).1 !! l = Some c' ∧ cell_le c c'.

Section Rules.

Lemma grows_ret {A} (a : A) : grows (ret a).
Proof. intros h l c Hl. exists c. split; [done | apply cell_le_refl]. Qed.

Lemma grows_throw {A} e : grows (@throw A e).
Proof. intros h l c Hl. exists c. split; [done | apply cell_le_refl]. Qed.

Lemma grows_lift {A} (r : Result A) : grows (lift r).
Proof. intros h l c Hl. exists c. split; [done | apply cell_le_refl]. Qed.

Lemma grows_load l : grows (load l).
Proof.
  intros h l' c Hl. exists c. split; [|apply cell_le_refl].
  unfold load. by destruct (h !! l).
Qed.

Lemma grows_alloc c : grows (alloc c).
Proof.
  intros h l c' Hl. exists c'. split; [|apply cell_le_refl].
  unfold alloc. simpl. apply lookup_app_l_Some. done.
Qed.

Lemma grows_bind {A B} (m : M A) (f : A → M B) :
  grows m → (∀ a, grows (f a)) → grows (m ≫= f).
Proof.
  intros Hm Hf h l c Hl. unfold mbind, M_bind, bind.
  destruct (Hm h l c Hl) as (c1 & Hl1 & Hle1).
  destruct (m h) as [h1 [a|e]]; simpl in *.
  - destruct (Hf a h1 l c1 Hl1) as (c2 & Hl2 & Hle2).
    exists c2. split; [done|]. by eapply cell_le_trans.
  - by exists c1.
Qed.

Lemma grows_for_each {B} (body : B → M unit) (l : list B) :
  (∀ x, grows (body x)) → grows (for_each body l).
Proof.
  intros Hbody. induction l as [|x l IH]; simpl; [apply grows_ret|].
  apply grows_bind; [apply Hbody | by intros _].
Qed.

Lemma grows_fold {S B} (body : S → B → M S) (s : S) (l : list B) :
  (∀ s x, grows (body s x)) → grows (fold body s l).
Proof.
  intros Hbody. revert s. induction l as [|x l IH]; intros s; simpl; [apply grows_ret|].
  apply grows_bind; [apply Hbody | apply IH].
Qed.

Lemma grows_load_array l : grows (load_array l).
Proof.
  unfold load_array. apply grows_bind; [apply grows_load|].
  intros []; first [apply grows_ret | apply grows_throw].
Qed.

Lemma grows_load_strings l : grows (load_strings l).
Proof.
  unfold load_strings. apply grows_bind; [apply grows_load|].
  intros []; first [apply grows_ret | apply grows_throw].
Qed.

(** [push] appends to an array, whichever it is. *)
Lemma grows_push array x : grows (push array x).
Proof.
  intros h l c Hl. unfold push, load_array, load, mbind, M_bind, bind, store.
  destruct (h !! array) as [[]|] eqn:E; simpl;
    try (exists c; split; [done | apply cell_le_refl]).
  destruct (decide (l = array)) as [->|Hne].
  - rewrite E in Hl. injection Hl as <-. eexists. split.
    + apply list_lookup_insert_eq. by apply lookup_lt_Some in E.
    + simpl. by apply prefix_app_r.
  - exists c. split; [|apply cell_le_refl]. by rewrite list_lookup_insert_ne.
Qed.

Lemma grows_warn warnings w : grows (warn warnings w).
Proof.
  intros h l c Hl. unfold warn, load_warnings, load, mbind, M_bind, bind, store.
  destruct (h !! warnings) as [[]|] eqn:E; simpl;
    try (exists c; split; [done | apply cell_le_refl]).
  destruct (decide (l = warnings)) as [->|Hne].
  - rewrite E in Hl. injection Hl as <-. eexists. split.
    + apply list_lookup_insert_eq. by apply lookup_lt_Some in E.
    + done.
  - exists c. split; [|apply cell_le_refl]. by rewrite list_lookup_insert_ne.
Qed.

End Rules.

Ltac grows_step :=
  match goal with
  | |- grows (ret _) => apply grows_ret
  | |- grows (throw _) => apply grows_throw
  | |- grows (lift _) => apply grows_lift
  | |- grows (load _) => apply grows_load
  | |- grows (alloc _) => apply grows_alloc
  | |- grows (push _ _) => apply grows_push
  | |- grows (warn _ _) => apply grows_warn
  | |- grows (load_array _) => apply grows_load_array
  | |- grows (load_strings _) => apply grows_load_strings
  | |- grows (for_each _ _) => apply grows_for_each; intros ?
  | |- grows (fold _ _ _) => apply grows_fold; intros ? ?
  | |- grows (_ ≫= _) => apply grows_bind; [|intros ?]
  | |- grows (match ?x with _ => _ end) => destruct x
  | |- grows (let '(_, _) := ?x in _) => destruct x
  end.

Ltac grows_auto := repeat grows_step.

(** *** A computation that returned *)

Lemma bind_Ok {A B} (m : M A) (f : A → M B) h h' b :
  (m ≫= f) h = (h', Ok b) → ∃ h1 a, m h = (h1, Ok a) ∧ f a h1 = (h', Ok b).
Proof.
  unfold mbind, M_bind, bind. destruct (m h) as [h1 [a|e]]; [|done].
  intros Hf. by exists h1, a.
Qed.

Lemma load_cell_Ok l h h' c : load l h = (h', Ok c) → h' = h ∧ h !! l = Some c.
Proof. unfold load. destruct (h !! l); [|done]. by intros [= <- <-]. Qed.

Lemma load_array_Ok l h h' items :
  load_array l h = (h', Ok items) → h' = h ∧ h !! l = Some (ArrayCell items).
Proof.
  intros (h1 & c & [-> Hl]%load_cell_Ok & Hc)%bind_Ok.
  destruct c; try done. by injection Hc as <- <-.
Qed.

Lemma load_strings_Ok l h h' items :
  load_strings l h = (h', Ok items) → h' = h ∧ h !! l = Some (StringsCell items).
Proof.
  intros (h1 & c & [-> Hl]%load_cell_Ok & Hc)%bind_Ok.
  destruct c; try done. by injection Hc as <- <-.
Qed.

Lemma push_Ok array x h h' :
  push array x h = (h', Ok tt) →
  ∃ items, h !! array = Some (ArrayCell items)
           ∧ h' = <[array := ArrayCell (items ++ [x])]> h.
Proof.
  intros (h1 & items & [-> Hl]%load_array_Ok & Hstore)%bind_Ok.
  exists items. split; [done|]. unfold store in Hstore. by injection Hstore as <-.
Qed.

(** What [grows] says of one run. *)
Lemma grows_array {A} (m : M A) h h' r l items :
  grows m → m h = (h', r) → h !! l = Some (ArrayCell items) →
  ∃ items', h' !! l = Some (ArrayCell items') ∧ items `prefix_of` items'.
Proof.
  intros Hm Hrun Hl. destruct (Hm h l _ Hl) as (c' & Hl' & Hle).
  rewrite Hrun in Hl'. simpl in Hl'. destruct c'; try done. by eexists.
Qed.

(** An object that is neither an array nor the warnings. *)
Definition plain (c : Cell) : Prop :=
  match c with
  | ArrayCell _ | WarningsCell _ => False
  | _ => True
  end.

Lemma grows_plain {A} (m : M A) h h' r l c :
  grows m → m h = (h', r) → h !! l = Some c → plain c → h' !! l = Some c.
Proof.
  intros Hm Hrun Hl Hplain. destruct (Hm h l _ Hl) as (c' & Hl' & Hle).
  rewrite Hrun in Hl'. simpl in Hl'. destruct c; try done; simpl in Hle; by subst.
Qed.

(** Whether the style object at an address stays, by its [local_id]. *)
Definition kept_at (map : gmap Z string) (h : heap) (s : loc) : bool :=
  match h !! s with
  | Some (StyleCell _ _ local_id _) => Map_has map local_id
  | _ => false
  end.

Lemma kept_at_grows {A} (m : M A) h h' r map s :
  grows m → m h = (h', r) → kept_at map h s = true → kept_at map h' s = true.
Proof.
  unfold kept_at. intros Hm Hrun.
  destruct (h !! s) as [c|] eqn:E; [|done]. destruct c; try done.
  by rewrite (grows_plain m h h' r s _ Hm Hrun E I).
Qed.


Lemma grows_map_each {B C} (f : B → M C) (l : list B) :
  (∀ x, grows (f x)) → grows (map_each f l).
Proof.
  intros Hf. induction l as [|x l IH]; simpl; [apply grows_ret|].
  apply grows_bind; [apply Hf|]. intros c.
  apply grows_bind; [apply IH|]. intros cs. apply grows_ret.
Qed.

Lemma grows_structuredClone_manifest l : grows (structuredClone_manifest l).
Proof.
  unfold structuredClone_manifest, get_manifest, new_manifest.
  apply grows_bind.
  { apply grows_bind; [apply grows_load|]. intros c. destruct c; try apply grows_throw.
    apply grows_bind; [apply grows_load_strings|]. intros creators'.
    apply grows_bind; [apply grows_load_array|]. intros items.
    apply grows_bind; [|intros ?; apply grows_ret].
    apply grows_map_each. intros sp. unfold get_speaker.
    apply grows_bind; [apply grows_load|]. intros c. destruct c; try apply grows_throw.
    apply grows_bind; [apply grows_load_strings|]. intros languages.
    apply grows_bind; [apply grows_load_array|]. intros styles'.
    apply grows_bind; [|intros ?; apply grows_ret].
    apply grows_map_each. intros st. unfold get_style.
    apply grows_bind; [apply grows_load|]. intros c. destruct c; try apply grows_throw.
    apply grows_bind; [apply grows_load_array|]. intros samples.
    apply grows_bind; [|intros ?; apply grows_ret].
    apply grows_map_each. intros vs. unfold get_voice_sample.
    apply grows_bind; [apply grows_load|]. intros c.
    destruct c; first [apply grows_ret | apply grows_throw]. }
  intros m.
  apply grows_bind; [apply grows_alloc|]. intros creators'.
  apply grows_bind; [|intros ?; apply grows_bind; [apply grows_alloc | intros ?; apply grows_alloc]].
  apply grows_map_each. intros sp. unfold new_speaker.
  apply grows_bind; [apply grows_alloc|]. intros languages.
  apply grows_bind; [|intros ?; apply grows_bind; [apply grows_alloc | intros ?; apply grows_alloc]].
  apply grows_map_each. intros st. unfold new_style.
  apply grows_bind; [|intros ?; apply grows_bind; [apply grows_alloc | intros ?; apply grows_alloc]].
  apply grows_map_each. intros vs. apply grows_alloc.
Qed.

Lemma kept_at_app map h c s : kept_at map h s = true → kept_at map (h ++ [c]) s = true.
Proof.
  unfold kept_at. destruct (h !! s) as [c'|] eqn:E; [|done].
  by rewrite (lookup_app_l_Some _ _ _ _ E).
Qed.

(** The fact [grows] of the computation a hypothesis runs. *)
Ltac grows_of H :=
  let Hg := fresh "Hgrows" in
  match type of H with
  | ?m _ = _ => assert (grows m) as Hg by grows_auto
  end.


(** The array of speakers a manifest object refers to. *)
Definition speakers_at (h : heap) (manifest : loc) : option loc :=
  match h !! manifest with
  | Some (ManifestCell _ _ _ _ _ _ _ _ _ _ _ speakers) => Some speakers
  | _ => None
  end.

Definition is_manifest (c : Cell) : bool :=
  match c with
  | ManifestCell _ _ _ _ _ _ _ _ _ _ _ _ => true
  | _ => false
  end.

(** Writing a manifest object where a manifest object is leaves every
    object of another kind where it is. *)
Lemma lookup_store_manifest (h : heap) (manifest : loc) c0 c (l : loc) c' :
  h !! manifest = Some c0 → is_manifest c0 = true →
  h !! l = Some c' → is_manifest c' = false →
  <[manifest := c]> h !! l = Some c'.
Proof.
  intros Hm H0 Hl Hc'. rewrite list_lookup_insert_ne; [done|].
  intros <-. rewrite Hm in Hl. injection Hl as <-. by rewrite H0 in Hc'.
Qed.

Section Update.
Context `{!Platform}.

Lemma grows_new_created_style style2id style_name style_local_id :
  grows (new_created_style style2id style_name style_local_id).
Proof. unfold new_created_style. grows_auto. Qed.

Lemma grows_retain_styles map warnings updated_styles speaker_name styles :
  grows (retain_styles map warnings updated_styles speaker_name styles).
Proof. unfold retain_styles. grows_auto. Qed.

Lemma grows_add_styles new_style2id warnings updated_styles speaker_name processed :
  grows (add_styles new_style2id warnings updated_styles speaker_name processed).
Proof.
  unfold add_styles. apply grows_for_each. intros [style_name style_local_id].
  destruct (Set_has _ _); [apply grows_ret|].
  apply grows_bind; [apply grows_new_created_style|]. intros style. grows_auto.
Qed.

Lemma grows_update_speaker hp map1 map2 warnings updated_speakers processed existing_speaker :
  grows (update_speaker hp map1 map2 warnings updated_speakers processed existing_speaker).
Proof.
  unfold update_speaker. apply grows_bind; [apply grows_load|]. intros c.
  destruct c; try apply grows_throw.
  destruct (Map_has _ _); [|grows_auto].
  apply grows_bind; [apply grows_alloc|]. intros updated_styles.
  apply grows_bind; [apply grows_load_array|]. intros existing_styles.
  apply grows_bind; [apply grows_retain_styles|]. intros processed'.
  apply grows_bind; [apply grows_add_styles|]. intros _.
  grows_auto.
Qed.

Lemma grows_add_speakers hp warnings updated_speakers processed n :
  grows (add_speakers hp warnings updated_speakers processed n).
Proof.
  unfold add_speakers. apply grows_fold. intros k [new_speaker_name new_local_id].
  destruct (Set_has _ _); [apply grows_ret|].
  apply grows_bind; [apply grows_alloc|]. intros new_speaker_styles.
  apply grows_bind.
  { apply grows_for_each. intros [style_name style_local_id].
    apply grows_bind; [apply grows_new_created_style|]. intros style. grows_auto. }
  intros _. grows_auto.
Qed.

Lemma grows_check_updated_speakers updated_speakers :
  grows (check_updated_speakers updated_speakers).
Proof. unfold check_updated_speakers. grows_auto. Qed.


(** The first inner loop pushes the address of every style that
    stays: the array of updated styles ends up holding it. *)
Lemma retain_styles_pushes map warnings updated_styles speaker_name styles :
  ∀ (processed0 : gset Z) h h' processed items,
    fold (λ (processed_new_style_local_ids : gset Z) existing_style,
            c ← load existing_style;
            match c with
            | StyleCell name _ style_local_id _ =>
                if Map_has map style_local_id then
                  _ ← push updated_styles existing_style;
                  ret (processed_new_style_local_ids ∪ {[style_local_id]})
                else
                  _ ← warn warnings (StyleRemoved speaker_name name style_local_id);
                  ret processed_new_style_local_ids
            | _ => throw JsTypeError
            end)
         processed0 styles h = (h', Ok processed) →
    h !! updated_styles = Some (ArrayCell items) →
    ∃ items', h' !! updated_styles = Some (ArrayCell items')
              ∧ items `prefix_of` items'
              ∧ ∀ s, s ∈ styles → kept_at map h s = true → s ∈ items'.
Proof.
  induction styles as [|s0 styles IH]; intros processed0 h h' processed items Hrun Hu.
  { simpl in Hrun. injection Hrun as <- _. exists items.
    split; [done|]. split; [done|]. by intros s ?%elem_of_nil. }
  cbn [fold] in Hrun. apply bind_Ok in Hrun as (h1 & p1 & Hbody & Hrest).
  assert (grows (c ← load s0;
                 match c with
                 | StyleCell name _ style_local_id _ =>
                     if Map_has map style_local_id then
                       _ ← push updated_styles s0;
                       ret (processed0 ∪ {[style_local_id]})
                     else
                       _ ← warn warnings (StyleRemoved speaker_name name style_local_id);
                       ret processed0
                 | _ => throw JsTypeError
                 end)) as Hgrows by grows_auto.
  destruct (grows_array _ _ _ _ _ _ Hgrows Hbody Hu) as (items1 & Hu1 & Hpre1).
  destruct (IH p1 h1 h' processed items1 Hrest Hu1) as (items' & Hu' & Hpre' & Hall).
  exists items'. split; [done|]. split; [by etrans|].
  intros s [->|Hs]%elem_of_cons Hkept.
  - unfold kept_at in Hkept.
    destruct (h !! s0) as [c|] eqn:E; [|done]. destruct c; try done.
    apply bind_Ok in Hbody as (h0 & c & [-> Hl]%load_cell_Ok & Hc).
    rewrite E in Hl. injection Hl as <-. rewrite Hkept in Hc.
    apply bind_Ok in Hc as (h2 & [] & (items0 & Hu0 & ->)%push_Ok & Hret).
    injection Hret as <- _. rewrite Hu in Hu0. injection Hu0 as <-.
    rewrite list_lookup_insert_eq in Hu1 by (by apply lookup_lt_Some in Hu).
    injection Hu1 as <-.
    apply (elem_of_prefix (items ++ [s0])); [|done]. set_solver.
  - apply Hall; [done|]. by apply (kept_at_grows _ _ _ _ _ _ Hgrows Hbody).
Qed.


(** A speaker that stays: a new speaker object with the same name, icon,
    uuid and [local_id] is pushed, and its array of styles holds the
    address of every existing style that stays. *)
Lemma update_speaker_retains hp map1 map2 warnings updated_speakers processed
    existing_speaker h h' processed' name icon languages uuid local_id styles
    existing_styles speakers :
  update_speaker hp map1 map2 warnings updated_speakers processed existing_speaker h
    = (h', Ok processed') →
  h !! existing_speaker = Some (SpeakerCell name icon languages uuid local_id styles) →
  Map_has map1 local_id = true →
  h !! styles = Some (ArrayCell existing_styles) →
  h !! updated_speakers = Some (ArrayCell speakers) →
  ∃ speaker languages' updated_styles items speakers',
    h' !! updated_speakers = Some (ArrayCell speakers') ∧ speaker ∈ speakers'
    ∧ h' !! speaker
      = Some (SpeakerCell name icon languages' uuid local_id updated_styles)
    ∧ h' !! updated_styles = Some (ArrayCell items)
    ∧ ∀ s, s ∈ existing_styles → kept_at map2 h s = true → s ∈ items.
Proof.
  intros Hrun He Hhas Hst Hus. unfold update_speaker in Hrun.
  apply bind_Ok in Hrun as (h0 & c & [-> Hl]%load_cell_Ok & Hrun).
  rewrite He in Hl. injection Hl as <-. rewrite Hhas in Hrun.
  apply bind_Ok in Hrun as (h1 & u & Halloc & Hrun).
  unfold alloc in Halloc. injection Halloc as <- <-.
  apply bind_Ok in Hrun as (h0 & existing & [-> Hl]%load_array_Ok & Hrun).
  rewrite (lookup_app_l_Some _ _ _ _ Hst) in Hl. injection Hl as <-.
  apply bind_Ok in Hrun as (h2 & processed_styles & Hretain & Hrun).
  unfold retain_styles in Hretain.
  apply retain_styles_pushes with (items := []) in Hretain
    as (items2 & Hu2 & _ & Hall2); [|by apply list_lookup_middle].
  apply bind_Ok in Hrun as (h3 & [] & Hadd & Hrun).
  destruct (grows_array _ _ _ _ _ _ (grows_add_styles _ _ _ _ _) Hadd Hu2)
    as (items3 & Hu3 & Hpre3).
  apply bind_Ok in Hrun as (h0 & supported & [-> Hl]%load_strings_Ok & Hrun).
  apply bind_Ok in Hrun as (h4 & new_languages & Halloc & Hrun).
  unfold alloc in Halloc. injection Halloc as <- <-.
  apply bind_Ok in Hrun as (h5 & languages' & Hlang & Hrun).
  grows_of Hlang.
  destruct (grows_array _ _ _ _ _ _ Hgrows Hlang (lookup_app_l_Some _ _ _ _ Hu3))
    as (items5 & Hu5 & Hpre5).
  apply bind_Ok in Hrun as (h6 & speaker & Halloc & Hrun).
  unfold alloc in Halloc. injection Halloc as <- <-.
  apply bind_Ok in Hrun as (h7 & [] & (items_us & Hus6 & ->)%push_Ok & Hret).
  injection Hret as <- _.
  assert (updated_speakers < length h) as Hlt by by apply lookup_lt_Some in Hus.
  exists (length h5), languages', (length h), items5, (items_us ++ [length h5]).
  split; [apply list_lookup_insert_eq; by apply lookup_lt_Some in Hus6|].
  split; [set_solver|].
  split.
  { rewrite list_lookup_insert_ne.
    - by apply list_lookup_middle.
    - intros ->. by rewrite list_lookup_middle in Hus6. }
  split.
  { rewrite list_lookup_insert_ne by lia. by apply lookup_app_l_Some. }
  intros s Hs Hkept.
  apply (elem_of_prefix items3); [|done].
  apply (elem_of_prefix items2); [|done].
  apply Hall2; [done|]. by apply kept_at_app.
Qed.

(** The loop over the existing speakers. *)
Lemma update_speakers_retain hp map1 map2 warnings updated_speakers existing_speakers :
  ∀ processed h h' processed' speakers,
    fold (update_speaker hp map1 map2 warnings updated_speakers) processed
      existing_speakers h = (h', Ok processed') →
    h !! updated_speakers = Some (ArrayCell speakers) →
    ∃ speakers',
      h' !! updated_speakers = Some (ArrayCell speakers')
      ∧ ∀ e name icon languages uuid local_id styles existing_styles,
          e ∈ existing_speakers →
          h !! e = Some (SpeakerCell name icon languages uuid local_id styles) →
          Map_has map1 local_id = true →
          h !! styles = Some (ArrayCell existing_styles) →
          ∃ speaker languages' updated_styles items,
            speaker ∈ speakers'
            ∧ h' !! speaker
              = Some (SpeakerCell name icon languages' uuid local_id updated_styles)
            ∧ h' !! updated_styles = Some (ArrayCell items)
            ∧ ∀ s, s ∈ existing_styles → kept_at map2 h s = true → s ∈ items.
Proof.
  induction existing_speakers as [|e0 rest IH];
    intros processed h h' processed' speakers Hrun Hus.
  { simpl in Hrun. injection Hrun as <- _. exists speakers. split; [done|].
    by intros e name icon languages uuid local_id styles existing_styles ?%elem_of_nil. }
  cbn [fold] in Hrun. apply bind_Ok in Hrun as (h1 & p1 & Hstep & Hrest).
  pose proof (grows_update_speaker hp map1 map2 warnings updated_speakers processed e0)
    as Hgstep.
  assert (grows (fold (update_speaker hp map1 map2 warnings updated_speakers) p1 rest))
    as Hgrest by (apply grows_fold; intros; apply grows_update_speaker).
  destruct (grows_array _ _ _ _ _ _ Hgstep Hstep Hus) as (speakers1 & Hus1 & Hpre1).
  destruct (IH p1 h1 h' processed' speakers1 Hrest Hus1) as (speakers' & Hus' & Hall).
  exists speakers'. split; [done|].
  intros e name icon languages uuid local_id styles existing_styles
    [->|He]%elem_of_cons Hcell Hhas Hst.
  - destruct (update_speaker_retains _ _ _ _ _ _ _ _ _ _ _ _ _ _ _ _ _ _
                Hstep Hcell Hhas Hst Hus)
      as (speaker & languages' & u & items & speakers1' & Hus1' & Hsp & Hspc & Hu & Hitems).
    rewrite Hus1 in Hus1'. injection Hus1' as <-.
    destruct (grows_array _ _ _ _ _ _ Hgrest Hrest Hus1) as (speakers'' & Hus'' & Hpre).
    rewrite Hus' in Hus''. injection Hus'' as <-.
    destruct (grows_array _ _ _ _ _ _ Hgrest Hrest Hu) as (items' & Hu' & Hpre').
    exists speaker, languages', u, items'.
    split; [by apply (elem_of_prefix speakers1)|].
    split; [by apply (grows_plain _ _ _ _ _ _ Hgrest Hrest Hspc)|].
    split; [done|].
    intros s Hs Hkept. apply (elem_of_prefix items); [|done]. by apply Hitems.
  - pose proof (grows_plain _ _ _ _ _ _ Hgstep Hstep Hcell I) as Hcell1.
    destruct (grows_array _ _ _ _ _ _ Hgstep Hstep Hst) as (styles1 & Hst1 & Hpres).
    destruct (Hall e name icon languages uuid local_id styles styles1 He Hcell1 Hhas Hst1)
      as (speaker & languages' & u & items & Hsp & Hspc & Hu & Hitems).
    exists speaker, languages', u, items. repeat (split; [done|]).
    intros s Hs Hkept. apply Hitems.
    + by apply (elem_of_prefix existing_styles).
    + by apply (kept_at_grows _ _ _ _ _ _ Hgstep Hstep).
Qed.

End Update.

End HeapSharing.

Section SharedStyles.
Context `{!Platform}.
Import Heap HeapSharing.

(** X25. The styles the update keeps are the style objects of the existing
    aggregate themselves, not copies: where the update returns, an existing
    speaker whose [local_id] is an identifier of the new [spk2id] has a
    speaker object in the updated manifest (same name, icon, uuid and
    [local_id]) whose array of styles holds the address of each existing
    style object whose [local_id] is an identifier of the new [style2id],
    and that object is as it was. *)
Theorem update_shares_kept_style_objects n existing_metadata file style_vectors_file
    h h' updated warnings existing_manifest existing_hyper_parameters
    existing_style_vectors manifest_version model_name description creators license
    architecture format epochs steps model_uuid version existing_speakers speakers
    hp sv e name icon languages uuid local_id styles existing_styles s style_name
    style_icon style_local_id voice_samples :
  Heap.updateAivmMetadata n existing_metadata file style_vectors_file h
    = (h', Ok (updated, warnings)) →
  h !! existing_metadata
    = Some (MetadataCell existing_manifest existing_hyper_parameters
              existing_style_vectors) →
  h !! existing_manifest
    = Some (ManifestCell manifest_version model_name description creators license
              architecture format epochs steps model_uuid version existing_speakers) →
  loadAndValidateHyperParametersAndStyleVectors architecture file style_vectors_file
    = Ok (hp, sv) →
  h !! existing_speakers = Some (ArrayCell speakers) → e ∈ speakers →
  h !! e = Some (SpeakerCell name icon languages uuid local_id styles) →
  local_id ∈ ids (spk2id hp) →
  h !! styles = Some (ArrayCell existing_styles) → s ∈ existing_styles →
  h !! s = Some (StyleCell style_name style_icon style_local_id voice_samples) →
  style_local_id ∈ ids (style2id hp) →
  ∃ manifest hyper_parameters style_vectors updated_speakers speakers' speaker
    languages' updated_styles items,
    h' !! updated = Some (MetadataCell manifest hyper_parameters style_vectors)
    ∧ speakers_at h' manifest = Some updated_speakers
    ∧ h' !! updated_speakers = Some (ArrayCell speakers') ∧ speaker ∈ speakers'
    ∧ h' !! speaker
      = Some (SpeakerCell name icon languages' uuid local_id updated_styles)
    ∧ h' !! updated_styles = Some (ArrayCell items) ∧ s ∈ items
    ∧ h' !! s = Some (StyleCell style_name style_icon style_local_id voice_samples).
Proof.
  intros Hrun Hmd Hman Hload Hsps He Hcell Hid Hst Hs Hstyle Hsid.
  unfold Heap.updateAivmMetadata in Hrun.
  apply bind_Ok in Hrun as (h1 & w & Halloc & Hrun).
  unfold alloc in Halloc. injection Halloc as <- <-.
  apply bind_Ok in Hrun as (h0 & c & [-> Hl]%load_cell_Ok & Hrun).
  rewrite (lookup_app_l_Some _ _ _ _ Hmd) in Hl. injection Hl as <-.
  apply bind_Ok in Hrun as (h0 & c & [-> Hl]%load_cell_Ok & Hrun).
  rewrite (lookup_app_l_Some _ _ _ _ Hman) in Hl. injection Hl as <-.
  rewrite Hload in Hrun.
  apply bind_Ok in Hrun as (h0 & [hp' sv'] & Hlift & Hrun).
  unfold lift in Hlift. injection Hlift as <- <- <-.
  apply bind_Ok in Hrun as (h2 & hyper_parameters & Halloc & Hrun).
  unfold alloc in Halloc. injection Halloc as <- <-.
  apply bind_Ok in Hrun as (h3 & style_vectors & Halloc & Hrun).
  unfold alloc in Halloc. injection Halloc as <- <-.
  destruct (is_style_bert_vits2 architecture); [|done].
  apply bind_Ok in Hrun as (h4 & manifest & Hclone & Hrun).
  apply bind_Ok in Hrun as (h0 & c & [-> Hm]%load_cell_Ok & Hrun).
  destruct c; try done.
  apply bind_Ok in Hrun as (h5 & [] & Hstore & Hrun).
  unfold store in Hstore. injection Hstore as <-.
  apply bind_Ok in Hrun as (h6 & updated_speakers & Halloc & Hrun).
  unfold alloc in Halloc. injection Halloc as <- <-.
  apply bind_Ok in Hrun as (h0 & speakers_now & [-> Hnow]%load_array_Ok & Hrun).
  apply bind_Ok in Hrun as (h7 & processed & Hfold & Hrun).
  apply bind_Ok in Hrun as (h8 & n' & Hadd & Hrun).
  apply bind_Ok in Hrun as (h9 & [] & Hstore & Hrun).
  unfold store in Hstore. injection Hstore as <-.
  apply bind_Ok in Hrun as (h10 & [] & Hcheck & Hrun).
  apply bind_Ok in Hrun as (h11 & updated_metadata & Halloc & Hret).
  unfold alloc in Halloc. injection Halloc as <- <-. injection Hret as <- <- <-.
  (* the objects of the existing aggregate when the loop starts *)
  set (start := <[manifest := ManifestCell manifest_version0 name0 description0 creators0
                               license0 (architecture_of hp) model_format
                               training_epochs training_steps uuid0 version0 speakers0]>
                  h4 ++ [ArrayCell []]) in *.
  assert (∀ l c, h !! l = Some c → is_manifest c = false →
                 ∃ c', start !! l = Some c' ∧ cell_le c c' ∧ is_manifest c' = false)
    as Hstart.
  { intros l c Hl Hc.
    destruct (grows_structuredClone_manifest existing_manifest
                (((h ++ [WarningsCell []]) ++ [HyperParametersCell hp]) ++ [BytesCell sv])
                l c) as (c' & Hl' & Hle).
    { by do 3 apply lookup_app_l_Some. }
    rewrite Hclone in Hl'. simpl in Hl'.
    assert (is_manifest c' = false) as Hc'
      by (destruct c, c'; simpl in Hle; done).
    exists c'. split; [|done]. apply lookup_app_l_Some.
    by eapply lookup_store_manifest. }
  destruct (Hstart _ _ Hsps eq_refl) as (c & Hsps0 & Hle & _).
  destruct c as [| | | | |speakers0'| | | |]; try done. simpl in Hle.
  rewrite Hnow in Hsps0. injection Hsps0 as <-.
  destruct (Hstart _ _ Hcell eq_refl) as (c & Hcell0 & <- & _).
  destruct (Hstart _ _ Hst eq_refl) as (c & Hst0 & Hle' & _).
  destruct c as [| | | | |styles0| | | |]; try done. simpl in Hle'.
  destruct (Hstart _ _ Hstyle eq_refl) as (c & Hstyle0 & <- & _).
  assert (start !! length (<[manifest := ManifestCell manifest_version0 name0 description0
                               creators0 license0 (architecture_of hp) model_format
                               training_epochs training_steps uuid0 version0 speakers0]> h4)
          = Some (ArrayCell [])) as Hus0 by by apply list_lookup_middle.
  (* the loop over the existing speakers *)
  destruct (update_speakers_retain _ _ _ _ _ _ _ _ _ _ _ Hfold Hus0)
    as (speakers7 & Hus7 & Hall).
  destruct (Hall e name icon languages uuid local_id styles styles0)
    as (speaker & languages' & updated_styles & items7 & Hsp7 & Hspc7 & Hu7 & Hitems7).
  { by apply (elem_of_prefix speakers). }
  { done. }
  { rewrite id_to_name_map_has. by apply bool_decide_eq_true. }
  { done. }
  assert (s ∈ items7) as Hs7.
  { apply Hitems7; [by apply (elem_of_prefix existing_styles)|].
    unfold kept_at. rewrite Hstyle0, id_to_name_map_has. by apply bool_decide_eq_true. }
  assert (grows (fold (update_speaker hp (id_to_name_map (spk2id hp))
                         (id_to_name_map (style2id hp)) (length h)
                         (length (<[manifest := ManifestCell manifest_version0 name0
                                      description0 creators0 license0 (architecture_of hp)
                                      model_format training_epochs training_steps uuid0
                                      version0 speakers0]> h4)))
                   ∅ speakers_now)) as Hgfold
    by (apply grows_fold; intros; apply grows_update_speaker).
  pose proof (grows_plain _ _ _ _ _ _ Hgfold Hfold Hstyle0 I) as Hstyle7.
  assert (start !! manifest
          = Some (ManifestCell manifest_version0 name0 description0 creators0 license0
                    (architecture_of hp) model_format training_epochs training_steps
                    uuid0 version0 speakers0)) as Hm0.
  { apply lookup_app_l_Some, list_lookup_insert_eq. by apply lookup_lt_Some in Hm. }
  pose proof (grows_plain _ _ _ _ _ _ Hgfold Hfold Hm0 I) as Hm7.
  (* the new speakers *)
  pose proof (grows_add_speakers hp (length h)
                (length (<[manifest := ManifestCell manifest_version0 name0
                             description0 creators0 license0 (architecture_of hp)
                             model_format training_epochs training_steps uuid0
                             version0 speakers0]> h4)) processed n) as Hgadd.
  destruct (grows_array _ _ _ _ _ _ Hgadd Hadd Hus7) as (speakers8 & Hus8 & Hpre8).
  destruct (grows_array _ _ _ _ _ _ Hgadd Hadd Hu7) as (items8 & Hu8 & Hprei8).
  pose proof (grows_plain _ _ _ _ _ _ Hgadd Hadd Hspc7 I) as Hspc8.
  pose proof (grows_plain _ _ _ _ _ _ Hgadd Hadd Hstyle7 I) as Hstyle8.
  pose proof (grows_plain _ _ _ _ _ _ Hgadd Hadd Hm7 I) as Hm8.
  (* the assignment to [manifest.speakers] and the checks *)
  pose proof (grows_check_updated_speakers
                (length (<[manifest := ManifestCell manifest_version0 name0
                             description0 creators0 license0 (architecture_of hp)
                             model_format training_epochs training_steps uuid0
                             version0 speakers0]> h4))) as Hgcheck.
  destruct (grows_array _ _ _ _ _ _ Hgcheck Hcheck
              (lookup_store_manifest _ _ _ _ _ _ Hm8 eq_refl Hus8 eq_refl))
    as (speakers10 & Hus10 & Hpre10).
  destruct (grows_array _ _ _ _ _ _ Hgcheck Hcheck
              (lookup_store_manifest _ _ _ _ _ _ Hm8 eq_refl Hu8 eq_refl))
    as (items10 & Hu10 & Hprei10).
  pose proof (grows_plain _ _ _ _ _ _ Hgcheck Hcheck
                (lookup_store_manifest _ _ _ _ _ _ Hm8 eq_refl Hspc8 eq_refl) I) as Hspc10.
  pose proof (grows_plain _ _ _ _ _ _ Hgcheck Hcheck
                (lookup_store_manifest _ _ _ _ _ _ Hm8 eq_refl Hstyle8 eq_refl) I)
    as Hstyle10.
  assert (h10 !! manifest
          = Some (ManifestCell manifest_version0 name0 description0 creators0 license0
                    (architecture_of hp) model_format training_epochs training_steps
                    uuid0 version0
                    (length (<[manifest := ManifestCell manifest_version0 name0
                                 description0 creators0 license0 (architecture_of hp)
                                 model_format training_epochs training_steps uuid0
                                 version0 speakers0]> h4)))) as Hm10.
  { apply (grows_plain _ _ _ _ _ _ Hgcheck Hcheck); [|done].
    apply list_lookup_insert_eq. by apply lookup_lt_Some in Hm8. }
  eexists manifest, _, _, _, speakers10, speaker, languages', updated_styles, items10.
  split; [by apply list_lookup_middle|].
  split; [unfold speakers_at; by rewrite (lookup_app_l_Some _ _ _ _ Hm10)|].
  split; [by apply lookup_app_l_Some|].
  split; [apply (elem_of_prefix speakers8); [|done]; by apply (elem_of_prefix speakers7)|].
  split; [by apply lookup_app_l_Some|].
  split; [by apply lookup_app_l_Some|].
  split; [apply (elem_of_prefix items8); [|done]; by apply (elem_of_prefix items7)|].
  by apply lookup_app_l_Some.
Qed.

End SharedStyles.

(** The style at address 7 of the existing aggregate (called Happy, with
    the identifier the new file gives to Joy) is at address 7 in the array
    of styles of the updated speaker. *)
Lemma update_shares_kept_style_objects_witness :
  HeapRuns.update = (HeapRuns.updated_heap, Ok (42, 18)%nat)
  ∧ HeapRuns.existing_heap !! 7%nat = Some (Heap.StyleCell "Happy" None 1 6%nat)
  ∧ ∃ manifest hyper_parameters style_vectors updated_speakers speakers' (speaker : nat)
      languages' updated_styles items,
      HeapRuns.updated_heap !! 42%nat
      = Some (Heap.MetadataCell manifest hyper_parameters style_vectors)
      ∧ HeapSharing.speakers_at HeapRuns.updated_heap manifest = Some updated_speakers
      ∧ HeapRuns.updated_heap !! updated_speakers = Some (Heap.ArrayCell speakers')
      ∧ speaker ∈ speakers'
      ∧ HeapRuns.updated_heap !! speaker
        = Some (Heap.SpeakerCell "Alice" "data:image/jpeg;base64,AAAA" languages'
                  "4a1a8e9e-0000-4000-8000-000000000002" 0 updated_styles)
      ∧ HeapRuns.updated_heap !! updated_styles = Some (Heap.ArrayCell items)
      ∧ 7%nat ∈ items
      ∧ HeapRuns.updated_heap !! 7%nat = Some (Heap.StyleCell "Happy" None 1 6%nat).
Proof.
  assert (HeapRuns.update = (HeapRuns.updated_heap, Ok (42, 18)%nat)) as Hup
    by (vm_compute; reflexivity).
  split; [exact Hup|]. split; [reflexivity|].
  eapply (update_shares_kept_style_objects (H := Sample.platform) 10
            HeapRuns.existing_metadata Inputs.replacement (Some Inputs.style_vectors)
            HeapRuns.existing_heap HeapRuns.updated_heap 42%nat 18%nat).
  - exact Hup.
  - reflexivity.
  - reflexivity.
  - vm_compute. reflexivity.
  - reflexivity.
  - apply list_elem_of_here.
  - reflexivity.
  - vm_compute. apply list_elem_of_here.
  - reflexivity.
  - apply list_elem_of_further, list_elem_of_here.
  - reflexivity.
  - vm_compute. apply list_elem_of_further, list_elem_of_here.
Defined.
